(** * pymap: the SEARCH-key parser and the mailbox session engine

    A shallow embedding of three modules of pymap

      - [pymap/parsing/specials/searchkey.py]  (module [SearchKey] below)
      - [pymap/backend/session.py]             (modules [BaseSession] and
                                                [MoreSession] below)
      - [pymap/sieve/filter/runner.py]         (module [SieveRunner] below)

    together with the properties their specification states about them.

    Python [bytes] are lists of [byte]; Python sets of flags are [gset]s;
    exceptions are an explicit error type threaded through a result monad;
    the objects the session mutates in place (selected views, loaded
    messages) live in an explicit object store addressed by references. *)

From Stdlib Require Import List ZArith NArith Lia Bool.
From Stdlib Require Import Strings.Byte Strings.String Strings.Ascii.
From stdpp Require Import base option list gmap strings countable.

Set Warnings "-via-type-mismatch,-clear-no-such-hyp".

(** ** Byte strings *)

Abbreviation bytes := (list byte) (only parsing).

Inductive bytes_literal := BEmpty | BCons (b : byte) (l : bytes_literal).

Fixpoint bytes_literal_of (l : list byte) : bytes_literal :=
  match l with
  | [] => BEmpty
  | b :: l => BCons b (bytes_literal_of l)
  end.

Fixpoint bytes_literal_to (l : bytes_literal) : list byte :=
  match l with
  | BEmpty => []
  | BCons b l => b :: bytes_literal_to l
  end.

Declare Scope bytes_scope.
Delimit Scope bytes_scope with bytes.
String Notation list bytes_literal_of bytes_literal_to
  (via bytes_literal mapping [[nil] => BEmpty, [cons] => BCons]) : bytes_scope.

#[global] Instance byte_eq_decision : EqDecision byte := Byte.byte_eq_dec.

#[global] Program Instance byte_countable : Countable byte :=
  inj_countable Byte.to_N Byte.of_N _.
Next Obligation. intros x. apply Byte.of_to_N. Qed.

(** [bytes.upper()]: ASCII letters a-z are mapped to A-Z, every other
    byte is kept. *)
Definition byte_upper (c : byte) : byte :=
  let n := Byte.to_N c in
  if ((97 <=? n) && (n <=? 122))%N
  then default c (Byte.of_N (n - 32))
  else c.

Definition upper (b : bytes) : bytes := map byte_upper b.

Definition bytes_eqb (a b : bytes) : bool := bool_decide (a = b).

(** [key in (b'..', b'..', ...)] *)
Definition key_in (key : bytes) (keys : list bytes) : bool :=
  existsb (bytes_eqb key) keys.

(** The double quote. *)
Definition dquote : byte := x22.

Definition is_space (c : byte) : bool := bool_decide (c = " "%byte).

(** The length of the run of spaces a buffer starts with. *)
Fixpoint spaces_length (buf : bytes) : nat :=
  match buf with
  | c :: rest => if is_space c then S (spaces_length rest) else 0
  | [] => 0
  end.

(** ** Exceptions and results *)

Inductive exn :=
| NotParseable (buf : bytes)
| UnexpectedType (buf : bytes)
| TypeError
| AttributeError
| UnicodeDecodeError
| LookupError
| RecursionError
| MailboxNotFound (name : string)
| MailboxReadOnly (name : string)
| BackendError (what : string).

Inductive result (A : Type) :=
| Ok (a : A)
| Raise (e : exn).

Arguments Ok {A} a.
Arguments Raise {A} e.

(** [UnexpectedType] is a kind of [NotParseable]: the parser lists its
    [except UnexpectedType] clause before [except NotParseable] to let it
    through, and a plain [except NotParseable] catches both. *)
Definition is_NotParseable (e : exn) : bool :=
  match e with
  | NotParseable _ | UnexpectedType _ => true
  | _ => false
  end.

Definition is_UnexpectedType (e : exn) : bool :=
  match e with
  | UnexpectedType _ => true
  | _ => false
  end.

#[global] Instance result_ret : MRet result := fun A a => Ok a.

#[global] Instance result_bind : MBind result := fun A B k r =>
  match r with
  | Ok a => k a
  | Raise e => Raise e
  end.

Section rmap.
Context {A B : Type} (f : A -> result B).

(** Evaluate [f] on every element, left to right, stopping at the first
    exception: the result of a comprehension [[f(a) for a in l]]. *)
Fixpoint rmap (l : list A) : result (list B) :=
  match l with
  | [] => Ok []
  | a :: l => b ← f a; bs ← rmap l; Ok (b :: bs)
  end.

End rmap.

(** ** Flags and sequence sets (shared by both modules) *)

Abbreviation Flag := (list byte) (only parsing).

Definition Seen : Flag := "\Seen"%bytes.
Definition Deleted : Flag := "\Deleted"%bytes.
Definition Recent : Flag := "\Recent"%bytes.

(** Modelled from the spec: [Flag.is_system] of [pymap.parsing.specials.flag]
    is not among the files under study; the spec only calls the flags that
    [KEYWORD] and [UNKEYWORD] reject "system flags", which in IMAP are the
    flags whose name starts with a backslash. *)
Definition is_system (flag : Flag) : bool :=
  match flag with
  | c :: _ => bool_decide (c = "\"%byte)
  | [] => false
  end.

(** Modelled from the spec: [SequenceSet] of
    [pymap.parsing.specials.sequenceset] is not among the files under study;
    the glossary describes it as an "IMAP set expression over UIDs or
    sequence numbers, possibly containing [*]". *)
Inductive SeqNum :=
| SeqN (n : N)
| SeqStar.

Inductive SeqSpec :=
| SeqSingle (n : SeqNum)
| SeqRange (lo hi : SeqNum).

Record SequenceSet := mkSequenceSet {
  sequences : list SeqSpec;
  seq_uid : bool
}.

(** [SequenceSet.all(uid=...)]: the set [1:*]. *)
Definition SequenceSet_all (uid : bool) : SequenceSet :=
  mkSequenceSet [SeqRange (SeqN 1) SeqStar] uid.

(** The value [datetime.strptime(_, '%d-%b-%Y')] builds. *)
Record datetime := mkDate {
  year : N;
  month : N;
  day : N
}.

(** * The SEARCH key: [pymap/parsing/specials/searchkey.py] *)

Module SearchKey.

(** Modelled from the spec: [FetchRequirement] of
    [pymap.parsing.specials.fetchattr] is not among the files under study.
    The spec orders the data a key may need from "none" up to the message
    body and describes [FetchRequirement.reduce] as the maximum of the
    requirements it is given. *)
Inductive FetchRequirement :=
| NONE
| METADATA
| HEADERS
| BODY.

Definition level (r : FetchRequirement) : nat :=
  match r with
  | NONE => 0
  | METADATA => 1
  | HEADERS => 2
  | BODY => 3
  end.

Definition req_max (a b : FetchRequirement) : FetchRequirement :=
  if level a <? level b then b else a.

(** [FetchRequirement.reduce(requirements)], over the elements of the set
    it is given (taken here in any order, with or without repetitions:
    see [reduce_set_like]). *)
Definition reduce (requirements : list FetchRequirement) : FetchRequirement :=
  foldr req_max NONE requirements.

(** The filter payload, one variant per Python type a key may hold:
    [None], a [SequenceSet], the keys of a parenthesised list (the
    [Sequence['SearchKey']] of [_FilterType], which is what the parser
    stores), a [frozenset] of keys (the only thing [filter_key_set]
    accepts), a pair of keys, a pair of strings, a [Flag], a [datetime], an
    [int], a [str]. *)
Inductive t :=
| mk (key : bytes) (filter : Filter) (inverse : bool)
with Filter :=
| FNone
| FSeqSet (s : SequenceSet)
| FKeyList (keys : list t)
| FKeySet (keys : list t)
| FKeyOr (left_ right_ : t)
| FHeader (field value : string)
| FFlag (flag : Flag)
| FDate (date : datetime)
| FInt (n : N)
| FStr (s : string).

Definition key (k : t) : bytes := let 'mk key _ _ := k in key.
Definition filter (k : t) : Filter := let 'mk _ filter _ := k in filter.
Definition inverse (k : t) : bool := let 'mk _ _ inverse := k in inverse.

(** [SearchKey.value] *)
Definition value (k : t) : bytes := key k.

(** [SearchKey._get_filter(frozenset)] as used by [filter_key_set]: a
    [TypeError] unless the filter is a [frozenset].  The sequence of keys
    the parser stores is none. *)
Definition filter_key_set (k : t) : result (list t) :=
  match filter k with
  | FKeySet keys => Ok keys
  | _ => Raise TypeError
  end.

(** [SearchKey.requirement].  Under [KEYSET] it goes through
    [filter_key_set], and raises its [TypeError] for a filter that is no
    [frozenset].  [filter_key_or] accepts any tuple; unpacking a pair of
    header strings and asking a string for its [requirement] is an
    [AttributeError]. *)
Fixpoint requirement (k : t) : result FetchRequirement :=
  let 'mk key_name filter _ := k in
  if bytes_eqb key_name "ALL"%bytes then Ok NONE
  else if bytes_eqb key_name "KEYSET"%bytes then
    match filter with
    | FKeySet keys =>
        keyset_reqs ← rmap requirement keys;
        Ok (reduce keyset_reqs)
    | _ => Raise TypeError
    end
  else if bytes_eqb key_name "OR"%bytes then
    match filter with
    | FKeyOr left_ right_ =>
        l ← requirement left_;
        r ← requirement right_;
        Ok (reduce [l; r])
    | FHeader _ _ => Raise AttributeError
    | _ => Raise TypeError
    end
  else if key_in key_name ["SENTBEFORE"; "SENTON"; "SENTSINCE"; "BCC";
                           "CC"; "FROM"; "SUBJECT"; "TO"; "HEADER"]%bytes
  then Ok HEADERS
  else if key_in key_name ["BODY"; "TEXT"]%bytes then Ok BODY
  else Ok METADATA.

(** [SearchKey.not_inverse] *)
Definition not_inverse (k : t) : t :=
  mk (value k) (filter k) (negb (inverse k)).

(** [Params]: the fields of the parsing parameters the search-key parser
    reads or overrides. *)
Record Params := mkParams {
  charset : option string;
  uid : bool
}.

(** [params.copy(uid=True)] *)
Definition copy_uid (params : Params) : Params :=
  mkParams (charset params) true.

(** The parsers and library routines [SearchKey.parse] calls and that live
    outside the file under study ([Space], [SequenceSet], [ListP], [Atom],
    [AString], [ExpectedParseable], [Flag] and [Number] of [pymap.parsing],
    [bytes.decode] and [datetime.strptime]).  Each parser returns the value
    of the parsed object and the rest of the buffer.  [ListP_parse elem] is
    [ListP.parse] with [list_expected=[SearchKey]] followed by
    [get_as(SearchKey)], where [elem] is what it runs on every item; what
    [get_as] returns is a [Sequence['SearchKey']], as [_FilterType] has
    it;
    [ExpectedParseable_parse] is [ExpectedParseable.parse] with
    [expected=[Atom, QuotedString]]; [strptime] answers [None] where Python
    raises [ValueError]. *)
Record Primitives := mkPrimitives {
  Space_parse : bytes -> Params -> result (unit * bytes);
  SequenceSet_parse : bytes -> Params -> result (SequenceSet * bytes);
  ListP_parse : (bytes -> Params -> result (t * bytes)) ->
                bytes -> Params -> result (list t * bytes);
  Atom_parse : bytes -> Params -> result (bytes * bytes);
  AString_parse : bytes -> Params -> result (bytes * bytes);
  ExpectedParseable_parse : bytes -> Params -> result (bytes * bytes);
  Flag_parse : bytes -> Params -> result (Flag * bytes);
  Number_parse : bytes -> Params -> result (N * bytes);
  decode : bytes -> string -> result string;
  strptime : string -> option datetime
}.

(** [cls._not_pattern.match(buf)] for [re.compile(br'NOT +', re.I)]: the
    end of the match, when the buffer starts with the letters N, O, T in
    either case followed by at least one space.  The [+] is greedy. *)
Definition _not_pattern_match (buf : bytes) : option nat :=
  if bytes_eqb (upper (take 3 buf)) "NOT"%bytes
  then match spaces_length (drop 3 buf) with
       | 0 => None
       | n => Some (3 + n)
       end
  else None.

(** The lines [inverse = False], [match = cls._not_pattern.match(buf)],
    [if match: inverse = True; buf = buf[match.end(0):]] of
    [SearchKey.parse]: the inverse bit and the buffer they leave. *)
Definition not_prefix (buf : bytes) : bool * bytes :=
  match _not_pattern_match buf with
  | Some end_ => (true, drop end_ buf)
  | None => (false, buf)
  end.

(** [str(value, 'ascii', 'ignore')]: the bytes above 127 are dropped. *)
Definition str_ascii_ignore (value : bytes) : string :=
  string_of_list_byte (List.filter (fun c => (Byte.to_N c <? 128)%N) value).

Section parse.
Context (P : Primitives).

(** [SearchKey._parse_astring_filter] *)
Definition _parse_astring_filter (buf : bytes) (params : Params)
  : result (string * bytes) :=
  '(ret, after) ← AString_parse P buf params;
  let charset_or_ascii :=
    match charset params with
    | Some (String c cs) => String c cs
    | _ => "ascii"%string
    end in
  s ← decode P ret charset_or_ascii;
  Ok (s, after).

(** [SearchKey._parse_date_filter] *)
Definition _parse_date_filter (buf : bytes) (params : Params)
  : result (datetime * bytes) :=
  '(atom, after) ← ExpectedParseable_parse P buf params;
  let date_str := str_ascii_ignore atom in
  match strptime P date_str with
  | Some date => Ok (date, after)
  | None => Raise (NotParseable buf)
  end.

(** The opening [try: _, buf = Space.parse(buf, params)] /
    [except NotParseable: pass] of [SearchKey.parse]. *)
Definition optional_space (buf : bytes) (params : Params) : result bytes :=
  match Space_parse P buf params with
  | Ok (_, buf) => Ok buf
  | Raise e => if is_NotParseable e then Ok buf else Raise e
  end.

(** [SearchKey.parse].  The recursion (the two sub-keys of [OR], the items
    of a parenthesised list) is bounded by [depth], Python's recursion
    limit; running out of it is a [RecursionError]. *)
Fixpoint parse (depth : nat) (buf : bytes) (params : Params)
  : result (t * bytes) :=
  match depth with
  | 0 => Raise RecursionError
  | S depth =>
    buf ← optional_space buf params;
    let '(inverse, buf) := not_prefix buf in
    match SequenceSet_parse P buf params with
    | Ok (seq_set, buf) => Ok (mk "SEQSET"%bytes (FSeqSet seq_set) inverse, buf)
    | Raise e =>
      if negb (is_NotParseable e) then Raise e else
      match ListP_parse P (parse depth) buf params with
      | Ok (key_list, buf) =>
          Ok (mk "KEYSET"%bytes (FKeyList key_list) inverse, buf)
      | Raise e =>
        if is_UnexpectedType e then Raise e
        else if negb (is_NotParseable e) then Raise e else
        '(atom, after) ← Atom_parse P buf params;
        let key := upper atom in
        if key_in key ["ALL"; "ANSWERED"; "DELETED"; "FLAGGED"; "NEW"; "OLD";
                       "RECENT"; "SEEN"; "UNANSWERED"; "UNDELETED";
                       "UNFLAGGED"; "UNSEEN"; "DRAFT"; "UNDRAFT"]%bytes
        then Ok (mk key FNone inverse, after)
        else if key_in key ["BCC"; "BODY"; "CC"; "FROM"; "SUBJECT"; "TEXT";
                            "TO"]%bytes
        then
          '(_, buf) ← Space_parse P after params;
          '(filter_, buf) ← _parse_astring_filter buf params;
          Ok (mk key (FStr filter_) inverse, buf)
        else if key_in key ["BEFORE"; "ON"; "SINCE"; "SENTBEFORE"; "SENTON";
                            "SENTSINCE"]%bytes
        then
          '(_, buf) ← Space_parse P after params;
          '(filter_, buf) ← _parse_date_filter buf params;
          Ok (mk key (FDate filter_) inverse, buf)
        else if key_in key ["KEYWORD"; "UNKEYWORD"]%bytes
        then
          '(_, buf) ← Space_parse P after params;
          '(flag, after_buf) ← Flag_parse P buf params;
          if is_system flag then Raise (NotParseable buf)
          else Ok (mk key (FFlag flag) inverse, after_buf)
        else if key_in key ["LARGER"; "SMALLER"]%bytes
        then
          '(_, buf) ← Space_parse P after params;
          '(num, buf) ← Number_parse P buf params;
          Ok (mk key (FInt num) inverse, buf)
        else if bytes_eqb key "UID"%bytes
        then
          '(_, buf) ← Space_parse P after params;
          '(seq_set, buf) ← SequenceSet_parse P buf (copy_uid params);
          Ok (mk "SEQSET"%bytes (FSeqSet seq_set) inverse, buf)
        else if bytes_eqb key "HEADER"%bytes
        then
          '(_, buf) ← Space_parse P after params;
          '(header_field, buf) ← _parse_astring_filter buf params;
          '(_, buf) ← Space_parse P buf params;
          '(header_value, buf) ← _parse_astring_filter buf params;
          Ok (mk key (FHeader header_field header_value) inverse, buf)
        else if bytes_eqb key "OR"%bytes
        then
          '(_, buf) ← Space_parse P after params;
          '(or1, buf) ← parse depth buf params;
          '(_, buf) ← Space_parse P buf params;
          '(or2, buf) ← parse depth buf params;
          Ok (mk key (FKeyOr or1 or2) inverse, buf)
        else Raise (NotParseable buf)
      end
    end
  end.

End parse.

End SearchKey.

(** ** A reference instance of the primitive parsers

    Modelled from the spec: the primitive parsers of [pymap.parsing] are not
    among the files under study.  Section 4.6 of the spec names what each
    one reads (optional leading spaces, a sequence-set literal, a
    parenthesised list of sub-keys, an atom, an astring, an atom or quoted
    string holding a date, a flag, an integer); the instance below reads
    exactly these, with the IMAP4rev1 character classes.  It is what the
    concrete examples of this development run on; the general theorems hold
    for every instance of [SearchKey.Primitives]. *)

Module Imap.

Import SearchKey.

Definition is_digit (c : byte) : bool :=
  let n := Byte.to_N c in ((48 <=? n) && (n <=? 57))%N.

Definition digit_value (c : byte) : N := (Byte.to_N c - 48)%N.

(** ATOM-CHAR: a printable ASCII character other than the atom specials
    [(], [)], [{], space, [%], [*], the double quote, the backslash and
    the closing bracket. *)
Definition is_atom_char (c : byte) : bool :=
  let n := Byte.to_N c in
  ((33 <=? n) && (n <=? 126))%N &&
  negb (bool_decide (c ∈ (dquote :: "(){%*\]"%bytes : bytes))).

Fixpoint span (p : byte -> bool) (buf : bytes) : bytes * bytes :=
  match buf with
  | c :: rest =>
      if p c then let '(a, b) := span p rest in (c :: a, b) else ([], buf)
  | [] => ([], [])
  end.

Definition number_of (digits : bytes) : N :=
  fold_left (fun acc c => (10 * acc + digit_value c)%N) digits 0%N.

Definition Space_parse (buf : bytes) (params : Params) : result (unit * bytes) :=
  match spaces_length buf with
  | 0 => Raise (NotParseable buf)
  | n => Ok (tt, drop n buf)
  end.

Definition Atom_parse (buf : bytes) (params : Params) : result (bytes * bytes) :=
  match span is_atom_char buf with
  | ([], _) => Raise (NotParseable buf)
  | (atom, after) => Ok (atom, after)
  end.

Definition Number_parse (buf : bytes) (params : Params) : result (N * bytes) :=
  match span is_digit buf with
  | ([], _) => Raise (NotParseable buf)
  | (digits, after) => Ok (number_of digits, after)
  end.

(** seq-number: a number that does not start with 0, or [*]. *)
Definition seq_number (buf : bytes) : option (SeqNum * bytes) :=
  match buf with
  | c :: rest =>
      if bool_decide (c = "*"%byte) then Some (SeqStar, rest)
      else if is_digit c && negb (bool_decide (c = "0"%byte))
      then let '(digits, after) := span is_digit buf in
           Some (SeqN (number_of digits), after)
      else None
  | [] => None
  end.

(** One element of a sequence set: [n] or [n:m]. *)
Definition seq_spec (buf : bytes) : option (SeqSpec * bytes) :=
  match seq_number buf with
  | Some (lo, after) =>
      match after with
      | c :: rest =>
          if bool_decide (c = ":"%byte)
          then match seq_number rest with
               | Some (hi, after) => Some (SeqRange lo hi, after)
               | None => None
               end
          else Some (SeqSingle lo, after)
      | [] => Some (SeqSingle lo, after)
      end
  | None => None
  end.

Fixpoint seq_specs (n : nat) (buf : bytes) : option (list SeqSpec * bytes) :=
  match seq_spec buf with
  | Some (spec, after) =>
      match n, after with
      | S n, c :: rest =>
          if bool_decide (c = ","%byte)
          then match seq_specs n rest with
               | Some (specs, after) => Some (spec :: specs, after)
               | None => None
               end
          else Some ([spec], after)
      | _, _ => Some ([spec], after)
      end
  | None => None
  end.

Definition SequenceSet_parse (buf : bytes) (params : Params)
  : result (SequenceSet * bytes) :=
  match seq_specs (length buf) buf with
  | Some (specs, after) => Ok (mkSequenceSet specs (uid params), after)
  | None => Raise (NotParseable buf)
  end.

(** The inside of a quoted string, up to the closing quote; a backslash
    quotes the byte after it. *)
Fixpoint quoted (buf : bytes) : option (bytes * bytes) :=
  match buf with
  | c :: rest =>
      if bool_decide (c = dquote) then Some ([], rest)
      else if bool_decide (c = "\"%byte)
      then match rest with
           | d :: rest' =>
               match quoted rest' with
               | Some (s, after) => Some (d :: s, after)
               | None => None
               end
           | [] => None
           end
      else match quoted rest with
           | Some (s, after) => Some (c :: s, after)
           | None => None
           end
  | [] => None
  end.

Definition QuotedString_parse (buf : bytes) (params : Params)
  : result (bytes * bytes) :=
  match buf with
  | c :: rest =>
      if bool_decide (c = dquote)
      then match quoted rest with
           | Some r => Ok r
           | None => Raise (NotParseable buf)
           end
      else Raise (NotParseable buf)
  | [] => Raise (NotParseable buf)
  end.

(** An astring: a quoted string, or a run of atom characters and closing
    brackets. *)
Definition AString_parse (buf : bytes) (params : Params)
  : result (bytes * bytes) :=
  match QuotedString_parse buf params with
  | Ok r => Ok r
  | Raise _ =>
      match span (fun c => is_atom_char c || bool_decide (c = "]"%byte)) buf with
      | ([], _) => Raise (NotParseable buf)
      | (s, after) => Ok (s, after)
      end
  end.

Definition ExpectedParseable_parse (buf : bytes) (params : Params)
  : result (bytes * bytes) :=
  match Atom_parse buf params with
  | Ok r => Ok r
  | Raise _ => QuotedString_parse buf params
  end.

(** A flag: an atom, or a backslash and an atom. *)
Definition Flag_parse (buf : bytes) (params : Params) : result (Flag * bytes) :=
  match buf with
  | c :: rest =>
      if bool_decide (c = "\"%byte)
      then match Atom_parse rest params with
           | Ok (atom, after) => Ok (c :: atom, after)
           | Raise _ => Raise (NotParseable buf)
           end
      else Atom_parse buf params
  | [] => Raise (NotParseable buf)
  end.

(** An item of a list, parsed as the one type the list expects: "unexpected
    type inside a key list propagates", so that an item the item parser
    finds not parseable is an [UnexpectedType]; what else the item parser
    raises is raised as it is. *)
Definition expected_item (elem : bytes -> Params -> result (t * bytes))
  (buf : bytes) (params : Params) : result (t * bytes) :=
  match elem buf params with
  | Ok r => Ok r
  | Raise e => if is_NotParseable e then Raise (UnexpectedType buf) else Raise e
  end.

(** The items of a parenthesised list after the opening parenthesis, up to
    the closing one; [n] bounds the number of items, and an item that
    consumes nothing is refused. *)
Fixpoint list_items (elem : bytes -> Params -> result (t * bytes))
  (n : nat) (buf : bytes) (params : Params) : result (list t * bytes) :=
  match drop (spaces_length buf) buf with
  | [] => Raise (NotParseable buf)
  | c :: rest =>
      if bool_decide (c = ")"%byte) then Ok ([], rest)
      else match n with
           | 0 => Raise (NotParseable buf)
           | S n =>
               '(item, after) ← expected_item elem buf params;
               if length buf <=? length after then Raise (NotParseable buf)
               else
               '(items, after) ← list_items elem n after params;
               Ok (item :: items, after)
           end
  end.

Definition ListP_parse (elem : bytes -> Params -> result (t * bytes))
  (buf : bytes) (params : Params) : result (list t * bytes) :=
  match buf with
  | c :: rest =>
      if bool_decide (c = "("%byte)
      then list_items elem (length rest) rest params
      else Raise (NotParseable buf)
  | [] => Raise (NotParseable buf)
  end.

(** The name of a codec as Python looks it up: letters in lower case, and
    every run of characters that are neither letters nor digits nor a dot
    replaced by one underscore, none at either end.  The names are taken
    to be ASCII. *)
Definition is_alnum (c : byte) : bool :=
  let n := Byte.to_N c in
  is_digit c || ((65 <=? n) && (n <=? 90))%N || ((97 <=? n) && (n <=? 122))%N.

Definition byte_lower (c : byte) : byte :=
  let n := Byte.to_N c in
  if ((65 <=? n) && (n <=? 90))%N
  then default c (Byte.of_N (n + 32))
  else c.

Fixpoint normalize_from (punct started : bool) (name : bytes) : bytes :=
  match name with
  | [] => []
  | c :: name =>
      if is_alnum c || bool_decide (c = "."%byte)
      then (if punct && started then ["_"%byte] else [])
           ++ byte_lower c :: normalize_from false true name
      else normalize_from true started name
  end.

Definition normalize_encoding (name : string) : bytes :=
  normalize_from false false (list_byte_of_string name).

(** Well-formed UTF-8: the shortest form of every code point up to
    U+10FFFF but the surrogates. *)
Definition in_range (lo hi : N) (c : byte) : bool :=
  ((lo <=? Byte.to_N c) && (Byte.to_N c <=? hi))%N.

Fixpoint utf8_valid (value : bytes) : bool :=
  match value with
  | [] => true
  | c :: rest =>
      if in_range 0 127 c then utf8_valid rest
      else if in_range 194 223 c
      then match rest with
           | c1 :: rest => in_range 128 191 c1 && utf8_valid rest
           | _ => false
           end
      else if in_range 224 239 c
      then match rest with
           | c1 :: c2 :: rest =>
               in_range (if in_range 224 224 c then 160 else 128)
                        (if in_range 237 237 c then 159 else 191) c1
               && in_range 128 191 c2 && utf8_valid rest
           | _ => false
           end
      else if in_range 240 244 c
      then match rest with
           | c1 :: c2 :: c3 :: rest =>
               in_range (if in_range 240 240 c then 144 else 128)
                        (if in_range 244 244 c then 143 else 191) c1
               && in_range 128 191 c2 && in_range 128 191 c3 && utf8_valid rest
           | _ => false
           end
      else false
  end.

(** [value.decode(charset)] for the ASCII and the UTF-8 codec, under the
    names Python knows them by.  A Python string is written down as its
    UTF-8 encoding, so that both codecs give back the bytes they accept.
    The other codecs of Python are left out: their names are answered like
    a name Python does not know, with [LookupError]. *)
Definition decode (value : bytes) (charset : string) : result string :=
  let name := normalize_encoding charset in
  if key_in name ["ascii"; "646"; "ansi_x3.4_1968"; "ansi_x3_4_1968";
                  "ansi_x3.4_1986"; "cp367"; "csascii"; "ibm367"; "iso646_us";
                  "iso_646.irv_1991"; "iso_ir_6"; "us"; "us_ascii"]%bytes
  then if forallb (in_range 0 127) value
       then Ok (string_of_list_byte value)
       else Raise UnicodeDecodeError
  else if key_in name ["utf_8"; "u8"; "utf"; "utf8"; "utf8_ucs2"; "utf8_ucs4";
                       "cp65001"]%bytes
  then if utf8_valid value
       then Ok (string_of_list_byte value)
       else Raise UnicodeDecodeError
  else Raise LookupError.

Definition month_of (abbrev : bytes) : option N :=
  (N.of_nat ∘ S) <$>
  list_find (fun m => upper m = upper abbrev)
    ["Jan"; "Feb"; "Mar"; "Apr"; "May"; "Jun";
     "Jul"; "Aug"; "Sep"; "Oct"; "Nov"; "Dec"]%bytes ≫= (Some ∘ fst).

Definition leap (y : N) : bool :=
  ((y mod 4 =? 0) && (negb (y mod 100 =? 0) || (y mod 400 =? 0)))%N.

Definition days_in (y m : N) : N :=
  if (m =? 2)%N then (if leap y then 29 else 28)%N
  else if bool_decide (m ∈ [4; 6; 9; 11]%N) then 30%N else 31%N.

(** [datetime.strptime(date_str, '%d-%b-%Y')]: one or two digits, or a
    space and one digit, then a month abbreviation in either case, then
    four digits; the day must exist. *)
Definition strptime (date_str : string) : option datetime :=
  let buf := list_byte_of_string date_str in
  let buf := match buf with
             | c :: d :: dash :: rest =>
                 if is_space c && is_digit d && negb (is_digit dash)
                 then d :: dash :: rest else buf
             | _ => buf
             end in
  let '(d, rest) := span is_digit buf in
  match rest with
  | dash1 :: rest =>
      let '(b, rest) := span (fun c => negb (bool_decide (c = "-"%byte))) rest in
      match rest with
      | dash2 :: y =>
          if bool_decide (dash1 = "-"%byte) && bool_decide (dash2 = "-"%byte)
             && bool_decide (1 <= length d <= 2) && bool_decide (length y = 4)
             && forallb is_digit y
          then
            match month_of b with
            | Some m =>
                let year := number_of y in
                let day := number_of d in
                if ((1 <=? year) && (1 <=? day) && (day <=? days_in year m))%N
                then Some (mkDate year m day)
                else None
            | None => None
            end
          else None
      | [] => None
      end
  | [] => None
  end.

Definition primitives : Primitives :=
  mkPrimitives Space_parse SequenceSet_parse ListP_parse Atom_parse
               AString_parse ExpectedParseable_parse Flag_parse Number_parse
               decode strptime.

Definition params : Params := mkParams None false.

(** The parser on the reference primitives, with room for 16 nested keys. *)
Definition parse (buf : bytes) : result (t * bytes) :=
  SearchKey.parse primitives 16 buf params.

End Imap.



(** * The session engine: [pymap/backend/session.py] *)

(** ** The objects the session works on

    Modelled from the spec: the classes [FlagOp], [SessionFlags]
    ([pymap.flags]), [Message] ([pymap.backend.mailbox]), [AppendMessage],
    [FetchAttribute], [AppendUid], [CopyUid] and [SelectedMailbox]
    ([pymap.selected]) are not among the files under study.  Their fields
    and methods follow sections 3, 4.2 and 4.5 of the spec. *)

Inductive FlagOp :=
| REPLACE
| ADD
| REMOVE.

(** The three modes as operations on a set of flags: the given set takes
    the place of the flags, joins them, or is taken from them. *)
Definition FlagOp_apply (mode : FlagOp) (flags flag_set : gset Flag) : gset Flag :=
  match mode with
  | REPLACE => flag_set
  | ADD => flags ∪ flag_set
  | REMOVE => flags ∖ flag_set
  end.

Module Message.

(** A message: "UID", "permanent flags (persisted)", "a recent bit", and
    its content. *)
Record t := mk {
  uid : N;
  permanent_flags : gset Flag;
  recent : bool;
  contents : bytes
}.

Definition set_permanent_flags (flags : gset Flag) (msg : t) : t :=
  mk (uid msg) flags (recent msg) (contents msg).

(** Modelled from the spec: [msg.update_flags(flag_set, mode)], which
    applies the mode "to the message's permanent flags only for permitted
    flags", and of which section 8 says that a STORE "with permitted = ∅
    leaves permanent flags unchanged": with no flag to apply the flags
    stay, whatever the mode. *)
Definition update_flags (flag_set : gset Flag) (mode : FlagOp) (msg : t) : t :=
  if bool_decide (flag_set = ∅) then msg
  else set_permanent_flags (FlagOp_apply mode (permanent_flags msg) flag_set) msg.

(** [msg.permanent_flags.add(flag)] *)
Definition add_flag (flag : Flag) (msg : t) : t :=
  set_permanent_flags (permanent_flags msg ∪ {[flag]}) msg.

End Message.

Module SessionFlags.

(** The "session-flag table: UID -> set of session flags", with its
    "recent subset containing UIDs whose recent bit this session owns". *)
Record t := mk {
  recent : gset N;
  flags : gmap N (gset Flag)
}.

(** The session flags of a message, [\Recent] included. *)
Definition get (uid : N) (sf : t) : gset Flag :=
  default ∅ (flags sf !! uid) ∪ (if bool_decide (uid ∈ recent sf) then {[Recent]} else ∅).

(** [session_flags.add_recent(uid)] *)
Definition add_recent (uid : N) (sf : t) : t :=
  mk (recent sf ∪ {[uid]}) (flags sf).

(** [session_flags.update(uid, flag_set, mode)] *)
Definition update (uid : N) (flag_set : gset Flag) (mode : FlagOp) (sf : t) : t :=
  mk (recent sf)
     (<[uid := FlagOp_apply mode (default ∅ (flags sf !! uid)) flag_set]> (flags sf)).

End SessionFlags.

(** [msg.get_flags(session_flags)]: "the union of permanent and session
    flags". *)
Definition get_flags (msg : Message.t) (session_flags : SessionFlags.t) : gset Flag :=
  Message.permanent_flags msg ∪ SessionFlags.get (Message.uid msg) session_flags.

Record AppendMessage := mkAppendMessage {
  message : bytes;
  flag_set : gset Flag
}.

Record FetchAttribute := mkFetchAttribute {
  attribute : bytes;
  set_seen : bool
}.

Record AppendUid := mkAppendUid {
  append_validity : N;
  append_uids : list N
}.

Record CopyUid := mkCopyUid {
  copy_validity : N;
  copy_uids : list (N * N)
}.

Module SelectedMailbox.

(** The selected view.  [messages] is the view map, kept as the list of
    the pairs handed to [add_messages], oldest first. *)
Record t := mk {
  name : string;
  readonly : bool;
  permanent_flags : gset Flag;
  session_flags : SessionFlags.t;
  uid_validity : N;
  next_uid : N;
  messages : list (N * gset Flag);
  deleted : bool
}.

(** [selected.set_deleted()]: the tombstone. *)
Definition set_deleted (v : t) : t :=
  mk (name v) (readonly v) (permanent_flags v) (session_flags v)
     (uid_validity v) (next_uid v) (messages v) true.

(** [selected.uid_validity = ...] *)
Definition set_uid_validity (n : N) (v : t) : t :=
  mk (name v) (readonly v) (permanent_flags v) (session_flags v)
     n (next_uid v) (messages v) (deleted v).

(** [selected.next_uid = ...] *)
Definition set_next_uid (n : N) (v : t) : t :=
  mk (name v) (readonly v) (permanent_flags v) (session_flags v)
     (uid_validity v) n (messages v) (deleted v).

(** [selected.add_messages((uid, flags))] *)
Definition add_messages (pair : N * gset Flag) (v : t) : t :=
  mk (name v) (readonly v) (permanent_flags v) (session_flags v)
     (uid_validity v) (next_uid v) (messages v ++ [pair]) (deleted v).

(** A change of [selected.session_flags], which the view holds by
    reference. *)
Definition with_session_flags (f : SessionFlags.t -> SessionFlags.t) (v : t) : t :=
  mk (name v) (readonly v) (permanent_flags v) (f (session_flags v))
     (uid_validity v) (next_uid v) (messages v) (deleted v).

End SelectedMailbox.

(** References to the Python objects the session shares and mutates: the
    selected views and the loaded messages. *)
Abbreviation view_ref := nat (only parsing).
Abbreviation message_ref := nat (only parsing).

(** What [save_flags] is handed, argument by argument: a message object, a
    tuple [(seq, uid, flags)], or a generator over message objects.  The
    messages are given in the state they have when the call is made. *)
Inductive SaveArg :=
| SaveMessage (msg : Message.t)
| SaveTuple (seq uid : N) (flags : gset Flag)
| SaveGenerator (msgs : list Message.t).

(** ** The backend

    The interfaces [MailboxSetInterface] and [MailboxDataInterface] of
    [pymap.backend.mailbox], of which the session only sees the contract of
    section 4.1: a backend state [B], mailbox objects [Mbx], and the
    operations, each of which may raise and may change the state.  The
    asynchronous generators [items()] and [find()] are taken to yield what
    the mailbox holds when they are called. *)
Class Backend (B Mbx : Type) := {
  be_get_mailbox : string -> bool -> B -> result Mbx * B;
  be_name : Mbx -> B -> string;
  be_readonly : Mbx -> B -> bool;
  be_uid_validity : Mbx -> B -> N;
  be_next_uid : Mbx -> B -> N;
  be_any_selected : Mbx -> B -> option view_ref;
  be_items : Mbx -> B -> result (list (N * Message.t)) * B;
  be_find : Mbx -> SequenceSet -> SelectedMailbox.t -> B ->
            result (list (N * N * option Message.t)) * B;
  be_parse_message : Mbx -> AppendMessage -> B -> result Message.t * B;
  be_add : Mbx -> Message.t -> bool -> B -> result Message.t * B;
  be_save_flags : Mbx -> list SaveArg -> B -> result unit * B;
  be_delete : Mbx -> list N -> B -> result unit * B
}.

(** The calls the session makes on the backend, each with its outcome, and
    the setting of a mailbox's [selected_set.updated] event. *)
Inductive Event (Mbx : Type) :=
| EvGetMailbox (name : string) (try_create : bool) (r : result Mbx)
| EvItems (mbx : Mbx) (r : result (list (N * Message.t)))
| EvFind (mbx : Mbx) (sequence_set : SequenceSet) (selected : SelectedMailbox.t)
         (r : result (list (N * N * option Message.t)))
| EvParseMessage (mbx : Mbx) (append_msg : AppendMessage) (r : result Message.t)
| EvAdd (mbx : Mbx) (msg : Message.t) (recent : bool) (r : result Message.t)
| EvSaveFlags (mbx : Mbx) (args : list SaveArg) (r : result unit)
| EvDelete (mbx : Mbx) (uids : list N) (r : result unit)
| EvUpdatedSet (mbx : Mbx).

Arguments EvGetMailbox {Mbx}.
Arguments EvItems {Mbx}.
Arguments EvFind {Mbx}.
Arguments EvParseMessage {Mbx}.
Arguments EvAdd {Mbx}.
Arguments EvSaveFlags {Mbx}.
Arguments EvDelete {Mbx}.
Arguments EvUpdatedSet {Mbx}.

(** The state a command runs in: the backend, the store of view objects,
    the store of loaded message objects, and the calls made so far. *)
Record World (B Mbx : Type) := mkWorld {
  backend : B;
  views : list SelectedMailbox.t;
  loaded : list Message.t;
  trace : list (Event Mbx)
}.

Arguments mkWorld {B Mbx}.
Arguments backend {B Mbx}.
Arguments views {B Mbx}.
Arguments loaded {B Mbx}.
Arguments trace {B Mbx}.

Module BaseSession.

Section session.
Context {B Mbx : Type} `{!Backend B Mbx}.

(** ** Commands: state passing with exceptions

    A command takes the world to an outcome and the world it leaves; what
    was done before an exception is raised stays done. *)
Definition M (A : Type) : Type := World B Mbx -> result A * World B Mbx.

#[local] Instance M_ret : MRet M := fun A a w => (Ok a, w).

#[local] Instance M_bind : MBind M := fun A C k m w =>
  match m w with
  | (Ok a, w') => k a w'
  | (Raise e, w') => (Raise e, w')
  end.

Definition raise {A} (e : exn) : M A := fun w => (Raise e, w).

(** [try: body except E: handler], for the exceptions [E] that [catches]
    tells. *)
Definition try_except {A} (body : M A) (catches : exn -> bool) (handler : M A) : M A :=
  fun w =>
    match body w with
    | (Raise e, w') => if catches e then handler w' else (Raise e, w')
    | r => r
    end.

(** [for a in l: f(a)], collecting what each round leaves. *)
Fixpoint for_each {A C} (f : A -> M C) (l : list A) : M (list C) :=
  match l with
  | [] => mret []
  | a :: l => c ← f a; cs ← for_each f l; mret (c :: cs)
  end.

(** A call on the backend, written down with its outcome. *)
Definition call {A} (f : B -> result A * B) (ev : result A -> Event Mbx) : M A :=
  fun w =>
    let '(r, b) := f (backend w) in
    (r, mkWorld b (views w) (loaded w) (trace w ++ [ev r])).

(** Reading an attribute of a mailbox object. *)
Definition attr {A} (f : B -> A) : M A :=
  fun w => (Ok (f (backend w)), w).

(** A change of the store of views, and of the store of loaded messages. *)
Definition store_views (f : list SelectedMailbox.t -> list SelectedMailbox.t) : M unit :=
  fun w => (Ok tt, mkWorld (backend w) (f (views w)) (loaded w) (trace w)).

Definition store_loaded (f : list Message.t -> list Message.t) : M unit :=
  fun w => (Ok tt, mkWorld (backend w) (views w) (f (loaded w)) (trace w)).

(** A new object in the store of loaded messages. *)
Definition new_loaded (m : Message.t) : M message_ref :=
  fun w => (Ok (length (loaded w)),
            mkWorld (backend w) (views w) (loaded w ++ [m]) (trace w)).

(** The view object behind a reference. *)
Definition view (selected : view_ref) : M SelectedMailbox.t :=
  fun w =>
    match views w !! selected with
    | Some v => (Ok v, w)
    | None => (Raise (BackendError "no such view"), w)
    end.

(** A mutation of a view object. *)
Definition update_view (selected : view_ref)
  (f : SelectedMailbox.t -> SelectedMailbox.t) : M unit :=
  v ← view selected;
  store_views (<[selected := f v]>).

(** The loaded message object behind a reference. *)
Definition msg_ (msg : message_ref) : M Message.t :=
  fun w =>
    match loaded w !! msg with
    | Some m => (Ok m, w)
    | None => (Raise (BackendError "no such message"), w)
    end.

(** A mutation of a loaded message object. *)
Definition update_msg (msg : message_ref) (f : Message.t -> Message.t) : M unit :=
  m ← msg_ msg;
  store_loaded (<[msg := f m]>).

(** The message objects a generator yields become objects of the store;
    a miss ([None]) stays a miss. *)
Fixpoint load (hits : list (N * N * option Message.t))
  : M (list (N * N * option message_ref)) :=
  match hits with
  | [] => mret []
  | (seq, uid, None) :: hits => rest ← load hits; mret ((seq, uid, None) :: rest)
  | (seq, uid, Some m) :: hits =>
      r ← new_loaded m;
      rest ← load hits;
      mret ((seq, uid, Some r) :: rest)
  end.

(** [await self.mailbox_set.get_mailbox(name, try_create=...)] *)
Definition get_mailbox (name : string) (try_create : bool) : M Mbx :=
  call (be_get_mailbox name try_create) (EvGetMailbox name try_create).

(** [mbx.items()], run to its end. *)
Definition items (mbx : Mbx) : M (list (N * Message.t)) :=
  call (be_items mbx) (EvItems mbx).

(** [mbx.find(sequence_set, selected)], run to its end. *)
Definition find (mbx : Mbx) (sequence_set : SequenceSet) (selected : view_ref)
  : M (list (N * N * option message_ref)) :=
  v ← view selected;
  hits ← call (be_find mbx sequence_set v) (EvFind mbx sequence_set v);
  load hits.

(** [mbx.parse_message(append_msg)] *)
Definition parse_message (mbx : Mbx) (append_msg : AppendMessage) : M Message.t :=
  call (be_parse_message mbx append_msg) (EvParseMessage mbx append_msg).

(** [await mbx.add(msg, recent=...)] *)
Definition add (mbx : Mbx) (msg : Message.t) (recent : bool) : M Message.t :=
  call (be_add mbx msg recent) (EvAdd mbx msg recent).

(** [await mbx.save_flags(...)] *)
Definition save_flags (mbx : Mbx) (args : list SaveArg) : M unit :=
  call (be_save_flags mbx args) (EvSaveFlags mbx args).

(** [await mbx.delete(...)] on the collected UIDs. *)
Definition delete (mbx : Mbx) (uids : list N) : M unit :=
  call (be_delete mbx uids) (EvDelete mbx uids).

(** [mbx.selected_set.updated.set()] *)
Definition updated_set (mbx : Mbx) : M unit :=
  fun w => (Ok tt, mkWorld (backend w) (views w) (loaded w) (trace w ++ [EvUpdatedSet mbx])).

Definition is_MailboxNotFound (e : exn) : bool :=
  match e with
  | MailboxNotFound _ => true
  | _ => false
  end.

(** ** The commands *)

(** [BaseSession._load_updates].  The [try] block either leaves the
    mailbox to read from, or ends the refresh on the tombstone. *)
Definition _load_updates (selected : option view_ref) (mbx : option Mbx)
  : M (option view_ref) :=
  match selected with
  | Some sel =>
      v ← view sel;
      same ← match mbx with
             | Some m => attr (fun b => bool_decide (SelectedMailbox.name v = be_name m b))
             | None => mret false
             end;
      mbx ← (if negb same
             then try_except
                    (mbx ← get_mailbox (SelectedMailbox.name v) false; mret (Some mbx))
                    is_MailboxNotFound
                    (update_view sel SelectedMailbox.set_deleted;; mret None)
             else mret mbx);
      match mbx with
      | None => mret selected
      | Some mbx =>
          uid_validity ← attr (be_uid_validity mbx);
          update_view sel (SelectedMailbox.set_uid_validity uid_validity);;
          next_uid ← attr (be_next_uid mbx);
          update_view sel (SelectedMailbox.set_next_uid next_uid);;
          its ← items mbx;
          for_each (fun '(uid, msg) =>
                      update_view sel
                        (SelectedMailbox.add_messages (uid, Message.permanent_flags msg)))
                   its;;
          mret selected
      end
  | None => mret selected
  end.

(** [BaseSession._find_selected] *)
Definition _find_selected (selected : option view_ref) (mbx : Mbx)
  : M (option view_ref) :=
  same ← match selected return M bool with
         | Some sel =>
             v ← view sel;
             attr (fun b => bool_decide (SelectedMailbox.name v = be_name mbx b))
         | None => mret false
         end;
  if same : bool then mret selected
  else attr (be_any_selected mbx).

(** [BaseSession.append_messages] *)
Definition append_messages (name : string) (messages : list AppendMessage)
  (selected : option view_ref) : M (AppendUid * option view_ref) :=
  mbx ← get_mailbox name true;
  readonly ← attr (be_readonly mbx);
  if readonly : bool then raise (MailboxReadOnly name) else
  dest_selected ← _find_selected selected mbx;
  uids ← for_each (fun append_msg =>
            msg ← parse_message mbx append_msg;
            msg ← add mbx msg (negb (bool_decide (is_Some dest_selected)));
            match dest_selected with
            | Some dest =>
                update_view dest
                  (SelectedMailbox.with_session_flags
                     (SessionFlags.add_recent (Message.uid msg)))
            | None => mret tt
            end;;
            mret (Message.uid msg))
          messages;
  updated_set mbx;;
  uid_validity ← attr (be_uid_validity mbx);
  selected ← _load_updates selected (Some mbx);
  mret (mkAppendUid uid_validity uids, selected).

(** [BaseSession.fetch_messages] *)
Definition fetch_messages (selected : view_ref) (sequence_set : SequenceSet)
  (attributes : list FetchAttribute)
  : M (list (N * message_ref) * option view_ref) :=
  v ← view selected;
  mbx ← get_mailbox (SelectedMailbox.name v) false;
  hits ← find mbx sequence_set selected;
  let ret := omap (fun '(seq, _, msg) => pair seq <$> msg) hits in
  v ← view selected;
  (if negb (SelectedMailbox.readonly v) && existsb set_seen attributes
   then
     for_each (fun '(_, msg) => update_msg msg (Message.add_flag Seen)) ret;;
     msgs ← for_each (fun '(_, msg) => msg_ msg) ret;
     save_flags mbx [SaveGenerator msgs]
   else mret tt);;
  selected ← _load_updates (Some selected) (Some mbx);
  mret (ret, selected).

(** [BaseSession.expunge_mailbox] *)
Definition expunge_mailbox (selected : view_ref) (uid_set : option SequenceSet)
  : M (option view_ref) :=
  v ← view selected;
  if SelectedMailbox.readonly v
  then raise (MailboxReadOnly (SelectedMailbox.name v)) else
  mbx ← get_mailbox (SelectedMailbox.name v) false;
  let uid_set := default (SequenceSet_all true) uid_set in
  hits ← find mbx uid_set selected;
  expunge_uids ← for_each (fun '(_, uid, msg) =>
      match msg with
      | Some msg =>
          m ← msg_ msg;
          mret (if bool_decide (Deleted ∈ Message.permanent_flags m)
                then [uid] else [])
      | None => mret []
      end) hits;
  delete mbx (concat expunge_uids);;
  updated_set mbx;;
  _load_updates (Some selected) (Some mbx).

(** [BaseSession.copy_messages] *)
Definition copy_messages (selected : view_ref) (sequence_set : SequenceSet)
  (mailbox : string) : M (CopyUid * option view_ref) :=
  v ← view selected;
  mbx ← get_mailbox (SelectedMailbox.name v) false;
  dest ← get_mailbox mailbox true;
  readonly ← attr (be_readonly dest);
  if readonly : bool then raise (MailboxReadOnly mailbox) else
  dest_selected ← _find_selected (Some selected) dest;
  hits ← find mbx sequence_set selected;
  uids ← for_each (fun '(_, source_uid, msg) =>
      match msg with
      | Some msg =>
          m ← msg_ msg;
          msg ← add dest m (negb (bool_decide (is_Some dest_selected)));
          match dest_selected with
          | Some dest_sel =>
              update_view dest_sel
                (SelectedMailbox.with_session_flags
                   (SessionFlags.add_recent (Message.uid msg)))
          | None => mret tt
          end;;
          mret [(source_uid, Message.uid msg)]
      | None => mret []
      end) hits;
  updated_set dest;;
  uid_validity ← attr (be_uid_validity dest);
  selected ← _load_updates (Some selected) (Some mbx);
  mret (mkCopyUid uid_validity (concat uids), selected).

(** [BaseSession.update_flags] *)
Definition update_flags (selected : view_ref) (sequence_set : SequenceSet)
  (flag_set : gset Flag) (mode : FlagOp)
  : M (list (N * N * gset Flag) * option view_ref) :=
  v ← view selected;
  if SelectedMailbox.readonly v
  then raise (MailboxReadOnly (SelectedMailbox.name v)) else
  mbx ← get_mailbox (SelectedMailbox.name v) false;
  v ← view selected;
  let permanent_flags := SelectedMailbox.permanent_flags v ∩ flag_set in
  hits ← find mbx sequence_set selected;
  messages ← for_each (fun '(msg_seq, uid, msg) =>
      flags ← match msg with
              | Some msg =>
                  update_msg msg (Message.update_flags permanent_flags mode);;
                  m ← msg_ msg;
                  update_view selected
                    (SelectedMailbox.with_session_flags
                       (SessionFlags.update (Message.uid m) flag_set mode));;
                  m ← msg_ msg;
                  v ← view selected;
                  mret (get_flags m (SelectedMailbox.session_flags v))
              | None => mret ∅
              end;
      mret (msg_seq, uid, flags)) hits;
  save_flags mbx (map (fun '(seq, uid, flags) => SaveTuple seq uid flags) messages);;
  updated_set mbx;;
  selected ← _load_updates (Some selected) (Some mbx);
  mret (messages, selected).

(** ** Reading a world and a trace *)

(** The backend state a call leaves, and the state a sequence of calls
    leaves. *)
Definition replay1 (b : B) (ev : Event Mbx) : B :=
  match ev with
  | EvGetMailbox name try_create _ => (be_get_mailbox name try_create b).2
  | EvItems mbx _ => (be_items mbx b).2
  | EvFind mbx sequence_set v _ => (be_find mbx sequence_set v b).2
  | EvParseMessage mbx append_msg _ => (be_parse_message mbx append_msg b).2
  | EvAdd mbx msg recent _ => (be_add mbx msg recent b).2
  | EvSaveFlags mbx args _ => (be_save_flags mbx args b).2
  | EvDelete mbx uids _ => (be_delete mbx uids b).2
  | EvUpdatedSet _ => b
  end.

Definition replay (evs : list (Event Mbx)) (b : B) : B := foldl replay1 b evs.

(** The view that owns the recent bit of what arrives in [mbx]: the
    session's own view when it is a view of [mbx], else any view the
    mailbox has registered. *)
Definition live_view (selected : option view_ref) (mbx : Mbx)
  (vs : list SelectedMailbox.t) (b : B) : option view_ref :=
  match selected ≫= (vs !!.) with
  | Some v =>
      if bool_decide (SelectedMailbox.name v = be_name mbx b)
      then selected else be_any_selected mbx b
  | None => be_any_selected mbx b
  end.

(** What a refresh from a mailbox makes of a view: [uid_validity] and
    [next_uid] are set, then [add_messages] gets the pair of every item. *)
Definition add_pair (v : SelectedMailbox.t) (it : N * Message.t) : SelectedMailbox.t :=
  let '(uid, msg) := it in
  SelectedMailbox.add_messages (uid, Message.permanent_flags msg) v.

Definition refreshed (uid_validity next_uid : N) (its : list (N * Message.t))
  (v : SelectedMailbox.t) : SelectedMailbox.t :=
  foldl add_pair
        (SelectedMailbox.set_next_uid next_uid
           (SelectedMailbox.set_uid_validity uid_validity v))
        its.

(** The command did not identify the mailbox of the view [v]: it has no
    mailbox at hand, or one of another name. *)
Definition unknown (v : SelectedMailbox.t) (mbx : option Mbx) (b : B) : Prop :=
  match mbx with
  | Some m => SelectedMailbox.name v ≠ be_name m b
  | None => True
  end.

(** A refresh of the view [sel] from the mailbox [mbx]: the outcome and
    the world it leaves, read off the backend.  When [items()] raises, the
    two attributes have been copied already. *)
Definition refresh_from (sel : view_ref) (mbx : Mbx) (w : World B Mbx)
  : result (option view_ref) * World B Mbx :=
  let uid_validity := be_uid_validity mbx (backend w) in
  let next_uid := be_next_uid mbx (backend w) in
  let '(r, b) := be_items mbx (backend w) in
  match r with
  | Ok its =>
      (Ok (Some sel),
       mkWorld b (alter (refreshed uid_validity next_uid its) sel (views w))
               (loaded w) (trace w ++ [EvItems mbx (Ok its)]))
  | Raise e =>
      (Raise e,
       mkWorld b (alter (SelectedMailbox.set_next_uid next_uid ∘
                         SelectedMailbox.set_uid_validity uid_validity) sel (views w))
               (loaded w) (trace w ++ [EvItems mbx (Raise e)]))
  end.

(** The view that has claimed the recent bit of the UIDs [uids], one
    [add_recent] after the other. *)
Definition with_recent (uids : list N) : SelectedMailbox.t -> SelectedMailbox.t :=
  SelectedMailbox.with_session_flags
    (fun sf => foldl (fun sf uid => SessionFlags.add_recent uid sf) sf uids).

(** The views a command leaves when it has handed the UIDs [uids] to the
    view [dest], if there is one. *)
Definition claimed (dest : option view_ref) (uids : list N)
  (vs : list SelectedMailbox.t) : list SelectedMailbox.t :=
  match dest with
  | Some d => alter (with_recent uids) d vs
  | None => vs
  end.

(** The messages among what [find] yielded, and their sequence numbers
    and UIDs. *)
Definition found (hits : list (N * N * option Message.t)) : list Message.t :=
  omap (fun '(_, _, msg) => msg) hits.

Definition found_seqs (hits : list (N * N * option Message.t)) : list N :=
  omap (fun '(seq, _, msg) => (fun _ => seq) <$> msg) hits.

Definition found_uids (hits : list (N * N * option Message.t)) : list N :=
  omap (fun '(_, uid, msg) => (fun _ => uid) <$> msg) hits.

(** What [find] hands to the command when the store of loaded messages
    holds [n] objects: the message of every hit is a new object, numbered
    from [n] on. *)
Fixpoint number (n : nat) (hits : list (N * N * option Message.t))
  : list (N * N * option message_ref) :=
  match hits with
  | [] => []
  | (seq, uid, None) :: hits => (seq, uid, None) :: number n hits
  | (seq, uid, Some _) :: hits => (seq, uid, Some n) :: number (S n) hits
  end.

(** The objects of the messages [msgs] sit in the store [ms] from [n]
    on. *)
Definition stored_at (n : nat) (msgs ms : list Message.t) : Prop :=
  forall i m, msgs !! i = Some m -> ms !! (n + i) = Some m.

(** The UIDs EXPUNGE removes among what [find] yielded: those of the
    messages flagged [\Deleted]. *)
Definition deleted_uids (hits : list (N * N * option Message.t)) : list N :=
  omap (fun '(_, uid, msg) =>
          match msg with
          | Some m =>
              if bool_decide (Deleted ∈ Message.permanent_flags m)
              then Some uid else None
          | None => None
          end) hits.

(** The session flags after STORE has gone through the messages [msgs]. *)
Definition session_stored (flag_set : gset Flag) (mode : FlagOp)
  (msgs : list Message.t) (sf : SessionFlags.t) : SessionFlags.t :=
  foldl (fun sf m => SessionFlags.update (Message.uid m) flag_set mode sf) sf msgs.

(** The triples STORE returns, hit by hit: the flags of a message are read
    right after its own update. *)
Fixpoint store_results (permitted flag_set : gset Flag) (mode : FlagOp)
  (sf : SessionFlags.t) (hits : list (N * N * option Message.t))
  : list (N * N * gset Flag) :=
  match hits with
  | [] => []
  | (seq, uid, None) :: hits =>
      (seq, uid, ∅) :: store_results permitted flag_set mode sf hits
  | (seq, uid, Some m) :: hits =>
      let m := Message.update_flags permitted mode m in
      let sf := SessionFlags.update (Message.uid m) flag_set mode sf in
      (seq, uid, get_flags m sf) :: store_results permitted flag_set mode sf hits
  end.

(** The calls of one kind in a trace. *)
Definition adds (evs : list (Event Mbx)) : list (Mbx * Message.t * bool * result Message.t) :=
  omap (fun ev => match ev with
                  | EvAdd mbx msg recent r => Some (mbx, msg, recent, r)
                  | _ => None
                  end) evs.

Definition added_uids (evs : list (Event Mbx)) : list N :=
  omap (fun ev => match ev with
                  | EvAdd _ _ _ (Ok msg) => Some (Message.uid msg)
                  | _ => None
                  end) evs.

Definition saves (evs : list (Event Mbx)) : list (Mbx * list SaveArg) :=
  omap (fun ev => match ev with
                  | EvSaveFlags mbx args _ => Some (mbx, args)
                  | _ => None
                  end) evs.

Definition signals (evs : list (Event Mbx)) : list Mbx :=
  omap (fun ev => match ev with
                  | EvUpdatedSet mbx => Some mbx
                  | _ => None
                  end) evs.

(** The calls a refresh makes: resolving the mailbox and reading its
    items. *)
Definition is_refresh (ev : Event Mbx) : bool :=
  match ev with
  | EvGetMailbox _ _ _ | EvItems _ _ => true
  | _ => false
  end.

(** What a refresh may change of a view: nothing of its name, its
    read-only bit, its permitted flags and its session flags. *)
Definition keeps_session (f : SelectedMailbox.t -> SelectedMailbox.t) : Prop :=
  forall v,
    SelectedMailbox.name (f v) = SelectedMailbox.name v /\
    SelectedMailbox.readonly (f v) = SelectedMailbox.readonly v /\
    SelectedMailbox.permanent_flags (f v) = SelectedMailbox.permanent_flags v /\
    SelectedMailbox.session_flags (f v) = SelectedMailbox.session_flags v.

(** A command sets the update event of [dest] once, and before it
    refreshes: its calls are [pre], in which nothing is signalled, then the
    event is set, then [refresh] runs, succeeds with the view the command
    returns, and signals nothing. *)
Definition signals_once_before_refresh (w w' : World B Mbx) (dest : Mbx)
  (pre : list (Event Mbx))
  (refresh : World B Mbx -> result (option view_ref) * World B Mbx)
  (returned : option view_ref) : Prop :=
  signals pre = [] /\
  exists w2 post,
    trace w2 = trace w ++ pre ++ [EvUpdatedSet dest] /\
    refresh w2 = (Ok returned, w') /\
    trace w' = trace w2 ++ post /\
    signals post = [] /\
    signals (pre ++ [EvUpdatedSet dest] ++ post) = [dest].

(** The calls that change what a mailbox stores. *)
Definition is_mutation (ev : Event Mbx) : bool :=
  match ev with
  | EvAdd _ _ _ _ | EvSaveFlags _ _ _ | EvDelete _ _ _ => true
  | _ => false
  end.

End session.

End BaseSession.

(** ** A reference backend

    Modelled from the spec: no backend is among the files under study.  The
    in-memory backend below follows the contract of section 4.1: mailboxes
    by name, UIDs handed out from [next_uid], [find] honouring UID and
    sequence-number addressing and yielding a miss for a UID asked for by
    number that the mailbox does not hold, [save_flags] storing the flags
    of the messages among its arguments; an argument that is no message, a
    tuple or a generator, has no flags it could store.  It is what the
    concrete examples of this development run on; the general theorems
    hold for every instance of [Backend]. *)

Module DictBackend.

Record Mailbox := mkMailbox {
  readonly : bool;
  uid_validity : N;
  next_uid : N;
  messages : list Message.t;
  any_selected : option view_ref
}.

Definition empty : Mailbox := mkMailbox false 1 1 [] None.

Definition get_mailbox (name : string) (try_create : bool) (b : gmap string Mailbox)
  : result string * gmap string Mailbox :=
  match b !! name with
  | Some _ => (Ok name, b)
  | None =>
      if try_create then (Ok name, <[name := empty]> b)
      else (Raise (MailboxNotFound name), b)
  end.

Definition mailbox (mbx : string) (b : gmap string Mailbox) : Mailbox :=
  default empty (b !! mbx).

Definition items (mbx : string) (b : gmap string Mailbox)
  : result (list (N * Message.t)) * gmap string Mailbox :=
  (Ok (map (fun m => (Message.uid m, m)) (messages (mailbox mbx b))), b).

Definition seq_value (max_ : N) (n : SeqNum) : N :=
  match n with
  | SeqN n => n
  | SeqStar => max_
  end.

Definition in_spec (max_ n : N) (spec : SeqSpec) : bool :=
  match spec with
  | SeqSingle x => (n =? seq_value max_ x)%N
  | SeqRange lo hi =>
      let lo := seq_value max_ lo in
      let hi := seq_value max_ hi in
      ((N.min lo hi <=? n) && (n <=? N.max lo hi))%N
  end.

Definition find (mbx : string) (sequence_set : SequenceSet)
  (selected : SelectedMailbox.t) (b : gmap string Mailbox)
  : result (list (N * N * option Message.t)) * gmap string Mailbox :=
  let msgs := messages (mailbox mbx b) in
  let max_ :=
    if seq_uid sequence_set
    then foldr N.max 0%N (map Message.uid msgs)
    else N.of_nat (length msgs) in
  let hits :=
    omap (fun '(i, m) =>
            let seq := N.of_nat (S i) in
            let n := if seq_uid sequence_set then Message.uid m else seq in
            if existsb (in_spec max_ n) (sequences sequence_set)
            then Some (seq, Message.uid m, Some m) else None)
         (imap pair msgs) in
  let misses :=
    omap (fun spec =>
            match spec with
            | SeqSingle (SeqN n) =>
                if seq_uid sequence_set
                   && negb (existsb (fun m => (Message.uid m =? n)%N) msgs)
                then Some (0%N, n, None) else None
            | _ => None
            end)
         (sequences sequence_set) in
  (Ok (hits ++ misses), b).

Definition parse_message (mbx : string) (append_msg : AppendMessage)
  (b : gmap string Mailbox) : result Message.t * gmap string Mailbox :=
  (Ok (Message.mk 0 (flag_set append_msg) false (message append_msg)), b).

Definition add (mbx : string) (msg : Message.t) (recent : bool)
  (b : gmap string Mailbox) : result Message.t * gmap string Mailbox :=
  match b !! mbx with
  | Some mb =>
      let msg := Message.mk (next_uid mb) (Message.permanent_flags msg) recent
                            (Message.contents msg) in
      (Ok msg,
       <[mbx := mkMailbox (readonly mb) (uid_validity mb) (next_uid mb + 1)
                          (messages mb ++ [msg]) (any_selected mb)]> b)
  | None => (Raise (MailboxNotFound mbx), b)
  end.

Definition saved (args : list SaveArg) : list Message.t :=
  concat (map (fun arg =>
                 match arg with
                 | SaveMessage msg => [msg]
                 | SaveGenerator _ => []
                 | SaveTuple _ _ _ => []
                 end) args).

Definition save_one (msg : Message.t) (msgs : list Message.t) : list Message.t :=
  map (fun m => if (Message.uid m =? Message.uid msg)%N
                then Message.set_permanent_flags (Message.permanent_flags msg) m
                else m) msgs.

Definition save_flags (mbx : string) (args : list SaveArg)
  (b : gmap string Mailbox) : result unit * gmap string Mailbox :=
  match b !! mbx with
  | Some mb =>
      (Ok tt,
       <[mbx := mkMailbox (readonly mb) (uid_validity mb) (next_uid mb)
                          (foldr save_one (messages mb) (saved args))
                          (any_selected mb)]> b)
  | None => (Raise (MailboxNotFound mbx), b)
  end.

Definition delete (mbx : string) (uids : list N)
  (b : gmap string Mailbox) : result unit * gmap string Mailbox :=
  match b !! mbx with
  | Some mb =>
      (Ok tt,
       <[mbx := mkMailbox (readonly mb) (uid_validity mb) (next_uid mb)
                          (List.filter (fun m => negb (bool_decide (Message.uid m ∈ uids)))
                                       (messages mb))
                          (any_selected mb)]> b)
  | None => (Raise (MailboxNotFound mbx), b)
  end.

#[global] Instance dict_backend : Backend (gmap string Mailbox) string := {|
  be_get_mailbox := get_mailbox;
  be_name := fun mbx _ => mbx;
  be_readonly := fun mbx b => readonly (mailbox mbx b);
  be_uid_validity := fun mbx b => uid_validity (mailbox mbx b);
  be_next_uid := fun mbx b => next_uid (mailbox mbx b);
  be_any_selected := fun mbx b => any_selected (mailbox mbx b);
  be_items := items;
  be_find := find;
  be_parse_message := parse_message;
  be_add := add;
  be_save_flags := save_flags;
  be_delete := delete
|}.

(** A small world: a writable [INBOX] with three messages, selected by
    view 0; a read-only [Archive], selected by view 1; a writable [Work]
    nobody has selected; and view 2, of a mailbox [Gone] that has been
    deleted since. *)
Definition inbox : Mailbox :=
  mkMailbox false 7 4
    [Message.mk 1 {[Seen]} false "one"%bytes;
     Message.mk 2 {[Deleted]} false "two"%bytes;
     Message.mk 3 ∅ false "three"%bytes]
    (Some 0).

Definition archive : Mailbox :=
  mkMailbox true 9 2 [Message.mk 1 ∅ false "old"%bytes] (Some 1).

Definition work : Mailbox := mkMailbox false 5 1 [] None.

Definition view0 : SelectedMailbox.t :=
  SelectedMailbox.mk "INBOX" false {[Seen; Deleted]} (SessionFlags.mk ∅ ∅)
                     7 4 [] false.

Definition view1 : SelectedMailbox.t :=
  SelectedMailbox.mk "Archive" true {[Seen; Deleted]} (SessionFlags.mk ∅ ∅)
                     9 2 [] false.

Definition view2 : SelectedMailbox.t :=
  SelectedMailbox.mk "Gone" false ∅ (SessionFlags.mk ∅ ∅) 3 1 [] false.

Definition world : World (gmap string Mailbox) string :=
  mkWorld (<["INBOX" := inbox]> (<["Archive" := archive]> (<["Work" := work]> ∅)))
          [view0; view1; view2] [] [].

(** Two messages to append, a flag no mailbox here stores, and two sets of
    UIDs: the first message of a mailbox, and the first and a missing
    one. *)
Definition note : AppendMessage := mkAppendMessage "note"%bytes ∅.

Definition memo : AppendMessage := mkAppendMessage "memo"%bytes {[Seen]}.

Definition custom : gset Flag := {["custom"%bytes]}.

Definition uid_1 : SequenceSet := mkSequenceSet [SeqSingle (SeqN 1)] true.

Definition uid_1_9 : SequenceSet :=
  mkSequenceSet [SeqSingle (SeqN 1); SeqSingle (SeqN 9)] true.

(** The UIDs 2 and 3, the UID 3, and a UID no mailbox here holds. *)
Definition uid_2_3 : SequenceSet := mkSequenceSet [SeqRange (SeqN 2) (SeqN 3)] true.

Definition uid_3 : SequenceSet := mkSequenceSet [SeqSingle (SeqN 3)] true.

Definition uid_9 : SequenceSet := mkSequenceSet [SeqSingle (SeqN 9)] true.

End DictBackend.

(** ** The requirement table of the specification *)

Module RequirementTable.

Import SearchKey.

(** The rows of the table: "ALL, SEQSET", "KEYSET, OR", "date-sent /
    header / address / subject", "BODY, TEXT", "all others". *)
Inductive Row :=
| RowAll
| RowSeqSet
| RowChildren
| RowHeaders
| RowBody
| RowOthers.

Definition row (key : bytes) : Row :=
  if bool_decide (key = "ALL"%bytes) then RowAll
  else if bool_decide (key = "SEQSET"%bytes) then RowSeqSet
  else if bool_decide (key ∈ ["KEYSET"; "OR"]%bytes) then RowChildren
  else if bool_decide (key ∈ ["SENTBEFORE"; "SENTON"; "SENTSINCE"; "HEADER";
                              "BCC"; "CC"; "FROM"; "TO"; "SUBJECT"]%bytes)
  then RowHeaders
  else if bool_decide (key ∈ ["BODY"; "TEXT"]%bytes) then RowBody
  else RowOthers.

(** The table, read with [seqset] in the entry of [SEQSET]; the children
    of a key are the keys of its list, of its set or of its pair. *)
Fixpoint table (seqset : FetchRequirement) (k : t) : FetchRequirement :=
  let 'mk key filter _ := k in
  match row key with
  | RowAll => NONE
  | RowSeqSet => seqset
  | RowChildren =>
      match filter with
      | FKeyList keys => reduce (map (table seqset) keys)
      | FKeySet keys => reduce (map (table seqset) keys)
      | FKeyOr left_ right_ => reduce [table seqset left_; table seqset right_]
      | _ => NONE
      end
  | RowHeaders => HEADERS
  | RowBody => BODY
  | RowOthers => METADATA
  end.

(** The table as the specification words it: [SEQSET] needs nothing. *)
Definition claimed_requirement : t -> FetchRequirement := table NONE.

(** The table the code follows: [SEQSET] needs the metadata. *)
Definition table_requirement : t -> FetchRequirement := table METADATA.

(** A key that holds no parenthesised list, at any depth: none of its
    filters is the sequence the parser stores for one. *)
Fixpoint list_free (k : t) : bool :=
  let 'mk _ filter _ := k in
  match filter with
  | FKeyList _ => false
  | FKeySet keys => forallb list_free keys
  | FKeyOr left_ right_ => list_free left_ && list_free right_
  | _ => true
  end.

(** A key whose filter has the type its tag announces, as far as
    [requirement] looks: a [frozenset] of keys under [KEYSET], a pair of
    keys under [OR], all the way down. *)
Fixpoint well_typed (k : t) : Prop :=
  let 'mk key filter _ := k in
  match filter with
  | FKeySet keys =>
      key ≠ "OR"%bytes /\
      (fix all (keys : list t) : Prop :=
         match keys with
         | [] => True
         | k :: keys => well_typed k /\ all keys
         end) keys
  | FKeyOr left_ right_ =>
      key ≠ "KEYSET"%bytes /\ well_typed left_ /\ well_typed right_
  | _ => key ≠ "KEYSET"%bytes /\ key ≠ "OR"%bytes
  end.

(** Every item of a parsed list is a result of the item parser. *)
Definition ListP_items_parsed (P : Primitives) : Prop :=
  forall elem buf params keys rest,
    ListP_parse P elem buf params = Ok (keys, rest) ->
    Forall (fun k => exists buf' params' rest', elem buf' params' = Ok (k, rest')) keys.

(** [Space.parse] consumes the spaces a buffer starts with, and fails with
    [NotParseable] when there is none. *)
Definition Space_consumes_spaces (P : Primitives) : Prop :=
  forall buf params,
    match spaces_length buf with
    | 0 => exists e, Space_parse P buf params = Raise e /\ is_NotParseable e = true
    | n => Space_parse P buf params = Ok (tt, drop n buf)
    end.

End RequirementTable.

(** * More of the SEARCH key *)

Module FilterTypes.
Import SearchKey.

(** The filter [SearchKey.parse] stores under each key: nothing under the
    keys that stand alone, a string, a date, a flag that is no system flag,
    a number, a sequence set under [SEQSET], two strings under [HEADER], two
    keys under [OR], a list of keys under [KEYSET], all the way down. *)
Fixpoint filter_typed (k : t) : bool :=
  let 'mk key filter _ := k in
  match filter with
  | FNone =>
      key_in key ["ALL"; "ANSWERED"; "DELETED"; "FLAGGED"; "NEW"; "OLD";
                  "RECENT"; "SEEN"; "UNANSWERED"; "UNDELETED";
                  "UNFLAGGED"; "UNSEEN"; "DRAFT"; "UNDRAFT"]%bytes
  | FSeqSet _ => bytes_eqb key "SEQSET"%bytes
  | FKeyList keys => bytes_eqb key "KEYSET"%bytes && forallb filter_typed keys
  | FKeySet _ => false
  | FKeyOr left_ right_ =>
      bytes_eqb key "OR"%bytes && filter_typed left_ && filter_typed right_
  | FHeader _ _ => bytes_eqb key "HEADER"%bytes
  | FFlag flag => key_in key ["KEYWORD"; "UNKEYWORD"]%bytes && negb (is_system flag)
  | FDate _ =>
      key_in key ["BEFORE"; "ON"; "SINCE"; "SENTBEFORE"; "SENTON"; "SENTSINCE"]%bytes
  | FInt _ => key_in key ["LARGER"; "SMALLER"]%bytes
  | FStr _ => key_in key ["BCC"; "BODY"; "CC"; "FROM"; "SUBJECT"; "TEXT"; "TO"]%bytes
  end.

(** [params.charset or 'ascii'] *)
Definition charset_or_ascii (params : Params) : string :=
  match charset params with
  | Some (String c cs) => String c cs
  | _ => "ascii"%string
  end.

(** The atoms the dispatch of [SearchKey.parse] knows, in the order of its
    branches. *)
Definition keywords : list bytes :=
  ["ALL"; "ANSWERED"; "DELETED"; "FLAGGED"; "NEW"; "OLD"; "RECENT"; "SEEN";
   "UNANSWERED"; "UNDELETED"; "UNFLAGGED"; "UNSEEN"; "DRAFT"; "UNDRAFT";
   "BCC"; "BODY"; "CC"; "FROM"; "SUBJECT"; "TEXT"; "TO";
   "BEFORE"; "ON"; "SINCE"; "SENTBEFORE"; "SENTON"; "SENTSINCE";
   "KEYWORD"; "UNKEYWORD"; "LARGER"; "SMALLER"; "UID"; "HEADER"; "OR"]%bytes.

(** The parse of [buf] gets as far as the keyword: after the optional
    spaces and the optional [NOT], which leave [buf2] and the inverse bit,
    the buffer is no sequence set and no list (both parsers raise
    [NotParseable], the list parser not as [UnexpectedType]), and
    [Atom.parse] reads [atom] and leaves [after]. *)
Definition reaches_keyword (P : Primitives) (depth : nat) (buf : bytes)
  (params : Params) (inverse : bool) (buf2 atom after : bytes) : Prop :=
  exists buf1 e1 e2,
    optional_space P buf params = Ok buf1 /\
    not_prefix buf1 = (inverse, buf2) /\
    SequenceSet_parse P buf2 params = Raise e1 /\
    is_NotParseable e1 = true /\
    ListP_parse P (parse P depth) buf2 params = Raise e2 /\
    is_NotParseable e2 = true /\
    is_UnexpectedType e2 = false /\
    Atom_parse P buf2 params = Ok (atom, after).

End FilterTypes.

(** * More of the session engine *)

Module SessionReading.
Import BaseSession.
Section reading.
Context {B Mbx : Type} `{!Backend B Mbx}.

(** The [delete] calls in a trace. *)
Definition deletes (evs : list (Event Mbx)) : list (Mbx * list N) :=
  omap (fun ev => match ev with
                  | EvDelete mbx uids _ => Some (mbx, uids)
                  | _ => None
                  end) evs.

End reading.
End SessionReading.

Module Outcomes.
Import BaseSession.
Section outcomes.
Context {B Mbx : Type} `{!Backend B Mbx}.

(** Whatever its outcome, the computation [m] only adds to the trace, and
    what it adds satisfies [P]. *)
Definition extends {A} (P : list (Event Mbx) -> Prop) (m : M (B:=B) (Mbx:=Mbx) A) : Prop :=
  forall w r w', m w = (r, w') -> exists evs, trace w' = trace w ++ evs /\ P evs.

(** Nothing is signalled. *)
Definition quiet (evs : list (Event Mbx)) : Prop := signals evs = [].

(** Nothing is called but what a refresh calls. *)
Definition refresh_only (evs : list (Event Mbx)) : Prop :=
  Forall (fun ev => is_refresh ev = true) evs.

(** The update event is set at most once, and after it comes nothing but
    the calls of a refresh. *)
Definition signals_last (evs : list (Event Mbx)) : Prop :=
  signals evs = [] \/
  exists pre mbx post,
    evs = pre ++ EvUpdatedSet mbx :: post /\
    signals pre = [] /\
    Forall (fun ev => is_refresh ev = true) post.

(** A property of traces that holds of the empty trace and of the traces
    put end to end. *)
Definition closed (P : list (Event Mbx) -> Prop) : Prop :=
  P [] /\ forall evs1 evs2, P evs1 -> P evs2 -> P (evs1 ++ evs2).

End outcomes.
End Outcomes.

(** ** The other commands of the session

    SELECT, SEARCH, CHECK and the commands on the set of mailboxes use more
    of the two backend interfaces than [Backend] has, and a few objects of
    modules outside the files under study. *)

Module SessionInterfaces.

(** A reference to an event object of [pymap.concurrent]. *)
Abbreviation event_ref := nat (only parsing).

(** [pymap.concurrent.TimeoutError], which is raised outside the session
    and the backend: it is carried under its name. *)
Definition TimeoutError : exn := BackendError "TimeoutError".

Definition is_TimeoutError (e : exn) : bool :=
  match e with
  | BackendError what => bool_decide (what = "TimeoutError"%string)
  | _ => false
  end.

(** The rest of [MailboxSetInterface] and [MailboxDataInterface]: the
    operations on the set of mailboxes, the two sets of flags of a mailbox,
    [snapshot()], [messages()] (run to its end, like [items()]) and
    [cleanup()].  [be_register] is what constructing a [SelectedMailbox]
    with [selected_set=mbx.selected_set] does to the selected set, "the
    registry of all live selected views over this mailbox"; [be_wait] is
    [wait_on.or_event(mbx.selected_set.updated).wait(timeout=10.0)], during
    which other sessions may change the mailboxes.  These calls run on the
    backend state; the trace goes on recording the calls of [Backend] and
    the update events. *)
Class MailboxSet (B Mbx Snapshot : Type) := {
  be_add_mailbox : string -> B -> result unit * B;
  be_delete_mailbox : string -> B -> result unit * B;
  be_rename_mailbox : string -> string -> B -> result unit * B;
  be_set_subscribed : string -> bool -> B -> result unit * B;
  be_permanent_flags : Mbx -> B -> gset Flag;
  be_session_flags : Mbx -> B -> gset Flag;
  be_register : Mbx -> view_ref -> B -> B;
  be_snapshot : Mbx -> B -> result Snapshot * B;
  be_messages : Mbx -> B -> result (list Message.t) * B;
  be_cleanup : Mbx -> B -> result unit * B;
  be_wait : Mbx -> event_ref -> B -> result unit * B
}.

(** [SearchParams] of [pymap.search]. *)
Record SearchParams := mkSearchParams {
  selected : SelectedMailbox.t;
  max_seq : Z;
  max_uid : Z
}.

(** What SEARCH uses of [pymap.search] and of the snapshot a view keeps of
    itself: [selected.snapshot.exists] and [selected.snapshot.next_uid],
    the constructor [SearchCriteriaSet(keys, params)] and
    [search.matches(seq, msg)], which only looks. *)
Class SearchEngine (Criteria : Type) := {
  snapshot_exists : SelectedMailbox.t -> Z;
  snapshot_next_uid : SelectedMailbox.t -> Z;
  SearchCriteriaSet : list SearchKey.t -> SearchParams -> result Criteria;
  matches : Criteria -> N -> Message.t -> result bool
}.

End SessionInterfaces.

Module MoreSession.
Import BaseSession SessionInterfaces.

(** [msg.recent = ...] *)
Definition set_recent (recent : bool) (msg : Message.t) : Message.t :=
  Message.mk (Message.uid msg) (Message.permanent_flags msg) recent (Message.contents msg).

(** Modelled from the spec: the constructor [SelectedMailbox(name, readonly,
    PermanentFlags(...), SessionFlags(...), selected_set=...)].  The new
    view has seen no refresh yet, holds no session flag and owns no recent
    bit; of the session flags the mailbox defines the model of
    [SessionFlags] keeps nothing. *)
Definition SelectedMailbox_new (name : string) (readonly : bool)
  (permanent_flags session_flags : gset Flag) : SelectedMailbox.t :=
  SelectedMailbox.mk name readonly permanent_flags (SessionFlags.mk ∅ ∅) 0 0 [] false.

(** [asyncenumerate(_, start)], run to its end. *)
Fixpoint asyncenumerate {A} (l : list A) (start : N) : list (N * A) :=
  match l with
  | [] => []
  | a :: l => (start, a) :: asyncenumerate l (start + 1)
  end.

(** The UIDs of the messages that carry the recent bit, and the
    references to their objects when the objects of [msgs] are numbered
    from [n] on. *)
Definition recent_uids (msgs : list Message.t) : list N :=
  map Message.uid (List.filter Message.recent msgs).

Fixpoint recent_refs (n : nat) (msgs : list Message.t) : list message_ref :=
  match msgs with
  | [] => []
  | m :: msgs => (if Message.recent m then [n] else []) ++ recent_refs (S n) msgs
  end.

Section session.
Context {B Mbx Snapshot Criteria : Type}.
Context `{!Backend B Mbx} `{!MailboxSet B Mbx Snapshot} `{!SearchEngine Criteria}.

#[local] Existing Instances M_bind M_ret.

Local Abbreviation M := (@BaseSession.M B Mbx).

(** A call on the backend that the trace does not record. *)
Definition run {A} (f : B -> result A * B) : M A :=
  fun w =>
    let '(r, b) := f (backend w) in
    (r, mkWorld b (views w) (loaded w) (trace w)).

(** The outcome of a computation that has no effect. *)
Definition lift {A} (r : result A) : M A := fun w => (r, w).

(** A new object in the store of views. *)
Definition new_view (v : SelectedMailbox.t) : M view_ref :=
  fun w => (Ok (length (views w)),
            mkWorld (backend w) (views w ++ [v]) (loaded w) (trace w)).

(** [mbx.messages()], run to its end: the messages it yields become
    objects of the store. *)
Definition messages (mbx : Mbx) : M (list message_ref) :=
  msgs ← run (be_messages mbx);
  for_each new_loaded msgs.

(** [BaseSession._wait_for_updates] *)
Definition _wait_for_updates (mbx : Mbx) (wait_on : event_ref) : M unit :=
  try_except (run (be_wait mbx wait_on)) is_TimeoutError (mret tt).

(** [BaseSession.create_mailbox] *)
Definition create_mailbox (name : string) (selected : option view_ref)
  : M (option view_ref) :=
  run (be_add_mailbox name);;
  _load_updates selected None.

(** [BaseSession.delete_mailbox] *)
Definition delete_mailbox (name : string) (selected : option view_ref)
  : M (option view_ref) :=
  run (be_delete_mailbox name);;
  _load_updates selected None.

(** [BaseSession.rename_mailbox] *)
Definition rename_mailbox (before_name after_name : string)
  (selected : option view_ref) : M (option view_ref) :=
  run (be_rename_mailbox before_name after_name);;
  _load_updates selected None.

(** [BaseSession.subscribe] *)
Definition subscribe (name : string) (selected : option view_ref)
  : M (option view_ref) :=
  mbx ← get_mailbox "INBOX" false;
  run (be_set_subscribed name true);;
  _load_updates selected (Some mbx).

(** [BaseSession.unsubscribe] *)
Definition unsubscribe (name : string) (selected : option view_ref)
  : M (option view_ref) :=
  mbx ← get_mailbox "INBOX" false;
  run (be_set_subscribed name false);;
  _load_updates selected (Some mbx).

(** [BaseSession.select_mailbox] *)
Definition select_mailbox (name : string) (readonly : bool)
  : M (Snapshot * option view_ref) :=
  mbx ← get_mailbox name false;
  mbx_readonly ← attr (be_readonly mbx);
  permanent_flags ← attr (be_permanent_flags mbx);
  session_flags ← attr (be_session_flags mbx);
  selected ← new_view (SelectedMailbox_new name (readonly || mbx_readonly)
                                            permanent_flags session_flags);
  run (fun b => (Ok tt, be_register mbx selected b));;
  v ← view selected;
  (if negb (SelectedMailbox.readonly v)
   then
     msgs ← messages mbx;
     recent_msgs ← for_each (fun msg =>
         m ← msg_ msg;
         if Message.recent m
         then
           update_msg msg (set_recent false);;
           m ← msg_ msg;
           update_view selected
             (SelectedMailbox.with_session_flags
                (SessionFlags.add_recent (Message.uid m)));;
           mret [msg]
         else mret []) msgs;
     args ← for_each (fun msg => m ← msg_ msg; mret (SaveMessage m))
                     (concat recent_msgs);
     save_flags mbx args
   else mret tt);;
  snapshot ← run (be_snapshot mbx);
  selected ← _load_updates (Some selected) (Some mbx);
  mret (snapshot, selected).

(** [BaseSession.check_mailbox] *)
Definition check_mailbox (selected : view_ref) (wait_on : option event_ref)
  (housekeeping : bool) : M (option view_ref) :=
  v ← view selected;
  mbx ← get_mailbox (SelectedMailbox.name v) false;
  (if housekeeping then run (be_cleanup mbx) else mret tt);;
  match wait_on with
  | Some wait_on => _wait_for_updates mbx wait_on
  | None => mret tt
  end;;
  _load_updates (Some selected) (Some mbx).

(** [BaseSession.search_mailbox] *)
Definition search_mailbox (selected : view_ref) (keys : list SearchKey.t)
  : M (list (N * message_ref) * option view_ref) :=
  v ← view selected;
  mbx ← get_mailbox (SelectedMailbox.name v) false;
  v ← view selected;
  let params := mkSearchParams v (snapshot_exists v) (snapshot_next_uid v - 1) in
  search ← lift (SearchCriteriaSet keys params);
  msgs ← messages mbx;
  ret ← for_each (fun '(seq, msg) =>
      m ← msg_ msg;
      found ← lift (matches search seq m);
      mret (if found : bool then [(seq, msg)] else []))
    (asyncenumerate msgs 1);
  selected ← _load_updates (Some selected) (Some mbx);
  mret (concat ret, selected).

(** What SEARCH returns of the messages [msgs], numbered from [seq] on and
    held by the objects from [n] on. *)
Fixpoint matching (search : Criteria) (seq : N) (n : nat) (msgs : list Message.t)
  : list (N * message_ref) :=
  match msgs with
  | [] => []
  | m :: msgs =>
      match matches search seq m with
      | Ok true => [(seq, n)]
      | _ => []
      end ++ matching search (seq + 1) (S n) msgs
  end.

End session.
End MoreSession.

(** ** The reference backend, with the rest of the interfaces *)

Module DictMailboxSet.
Import SessionInterfaces DictBackend.

(** The mailboxes by name, and the names subscribed to. *)
Record Store := mkStore {
  boxes : gmap string Mailbox;
  subscribed : gset string
}.

(** [MailboxSnapshot]: what [snapshot()] reports, of which the examples
    look at the number of messages and the next UID. *)
Record MailboxSnapshot := mkMailboxSnapshot {
  exists_ : N;
  next_uid_ : N
}.

Definition on_boxes {A} (f : gmap string Mailbox -> result A * gmap string Mailbox)
  (s : Store) : result A * Store :=
  let '(r, b) := f (boxes s) in (r, mkStore b (subscribed s)).

#[export] Instance store_backend : Backend Store string := {|
  be_get_mailbox := fun name try_create => on_boxes (get_mailbox name try_create);
  be_name := fun mbx _ => mbx;
  be_readonly := fun mbx s => readonly (mailbox mbx (boxes s));
  be_uid_validity := fun mbx s => uid_validity (mailbox mbx (boxes s));
  be_next_uid := fun mbx s => next_uid (mailbox mbx (boxes s));
  be_any_selected := fun mbx s => any_selected (mailbox mbx (boxes s));
  be_items := fun mbx => on_boxes (items mbx);
  be_find := fun mbx sequence_set selected => on_boxes (find mbx sequence_set selected);
  be_parse_message := fun mbx append_msg => on_boxes (parse_message mbx append_msg);
  be_add := fun mbx msg recent => on_boxes (add mbx msg recent);
  be_save_flags := fun mbx args => on_boxes (save_flags mbx args);
  be_delete := fun mbx uids => on_boxes (delete mbx uids)
|}.

Definition add_mailbox (name : string) (b : gmap string Mailbox)
  : result unit * gmap string Mailbox :=
  match b !! name with
  | Some _ => (Raise (BackendError "MailboxConflict"), b)
  | None => (Ok tt, <[name := empty]> b)
  end.

Definition delete_mailbox (name : string) (b : gmap string Mailbox)
  : result unit * gmap string Mailbox :=
  match b !! name with
  | Some _ => (Ok tt, base.delete name b)
  | None => (Raise (MailboxNotFound name), b)
  end.

Definition rename_mailbox (before_name after_name : string) (b : gmap string Mailbox)
  : result unit * gmap string Mailbox :=
  match b !! before_name, b !! after_name with
  | None, _ => (Raise (MailboxNotFound before_name), b)
  | Some _, Some _ => (Raise (BackendError "MailboxConflict"), b)
  | Some mb, None => (Ok tt, <[after_name := mb]> (base.delete before_name b))
  end.

Definition set_subscribed (name : string) (subscribe : bool) (s : Store)
  : result unit * Store :=
  (Ok tt, mkStore (boxes s)
                  (if subscribe then subscribed s ∪ {[name]} else subscribed s ∖ {[name]})).

Definition register (mbx : string) (selected : view_ref) (b : gmap string Mailbox)
  : gmap string Mailbox :=
  match b !! mbx with
  | Some mb =>
      <[mbx := mkMailbox (readonly mb) (uid_validity mb) (next_uid mb) (messages mb)
                         (Some selected)]> b
  | None => b
  end.

Definition snapshot (mbx : string) (b : gmap string Mailbox)
  : result MailboxSnapshot * gmap string Mailbox :=
  (Ok (mkMailboxSnapshot (N.of_nat (length (messages (mailbox mbx b))))
                         (next_uid (mailbox mbx b))), b).

(** Nobody else is there to set the update event: the wait times out. *)
#[export] Instance store_mailbox_set : MailboxSet Store string MailboxSnapshot := {|
  be_add_mailbox := fun name => on_boxes (add_mailbox name);
  be_delete_mailbox := fun name => on_boxes (delete_mailbox name);
  be_rename_mailbox := fun before_name after_name =>
                         on_boxes (rename_mailbox before_name after_name);
  be_set_subscribed := set_subscribed;
  be_permanent_flags := fun _ _ => {[Seen; Deleted]};
  be_session_flags := fun _ _ => {[Recent]};
  be_register := fun mbx selected s =>
                   mkStore (register mbx selected (boxes s)) (subscribed s);
  be_snapshot := fun mbx => on_boxes (snapshot mbx);
  be_messages := fun mbx s => (Ok (messages (mailbox mbx (boxes s))), s);
  be_cleanup := fun _ s => (Ok tt, s);
  be_wait := fun _ _ s => (Raise TimeoutError, s)
|}.

(** Modelled from the spec: the evaluator of section 4.7, for the keys on
    the flags [\Seen] and [\Deleted]: "[KEYSET] is the conjunction of
    children; [OR] is the disjunction of its two children; [inverse]
    negates the result of a node". *)
Fixpoint eval (k : SearchKey.t) (msg : Message.t) : bool :=
  let 'SearchKey.mk key filter inverse := k in
  xorb inverse
    match filter with
    | SearchKey.FKeyList keys => forallb (fun k => eval k msg) keys
    | SearchKey.FKeySet keys => forallb (fun k => eval k msg) keys
    | SearchKey.FKeyOr left_ right_ => eval left_ msg || eval right_ msg
    | SearchKey.FNone =>
        if bytes_eqb key "ALL"%bytes then true
        else if bytes_eqb key "SEEN"%bytes
        then bool_decide (Seen ∈ Message.permanent_flags msg)
        else if bytes_eqb key "UNSEEN"%bytes
        then negb (bool_decide (Seen ∈ Message.permanent_flags msg))
        else if bytes_eqb key "DELETED"%bytes
        then bool_decide (Deleted ∈ Message.permanent_flags msg)
        else false
    | _ => false
    end.

#[export] Instance search_engine : SearchEngine (list SearchKey.t) := {|
  snapshot_exists := fun v => Z.of_nat (length (SelectedMailbox.messages v));
  snapshot_next_uid := fun v => Z.of_N (SelectedMailbox.next_uid v);
  SearchCriteriaSet := fun keys _ => Ok keys;
  matches := fun keys _ msg => Ok (forallb (fun k => eval k msg) keys)
|}.

(** A writable [INBOX] whose last two messages are recent, selected by
    view 0, and a read-only [Archive] with a recent message. *)
Definition inbox : Mailbox :=
  mkMailbox false 7 4
    [Message.mk 1 {[Seen]} false "one"%bytes;
     Message.mk 2 ∅ true "two"%bytes;
     Message.mk 3 {[Deleted]} true "three"%bytes]
    (Some 0).

Definition archive : Mailbox :=
  mkMailbox true 9 2 [Message.mk 1 ∅ true "old"%bytes] None.

Definition store : Store :=
  mkStore (<["INBOX" := inbox]> (<["Archive" := archive]> ∅)) ∅.

Definition world : World Store string := mkWorld store [view0] [] [].

End DictMailboxSet.

(** * The Sieve runner: [pymap/sieve/filter/runner.py] *)

Set Warnings "-register-all".

Module SieveRunner.

(** What the runner raises or lets through: its own [StopRunning],
    [NotImplementedError], the [KeyError] of [cmd.arguments['test']], and
    whatever a test or the parser of the message raises. *)
Inductive raised :=
| StopRunning
| NotImplementedError (what : string)
| KeyError (what : string)
| Error (what : string).

Inductive ran (A : Type) :=
| Returns (a : A)
| Raises (e : raised).

Arguments Returns {A} a.
Arguments Raises {A} e.

Section runner.

(** The tests of [sievelib] and the parsed content of a message are left
    open, with [SieveTest.of(test).run(sender, recipient, append_msg,
    content)] and [MessageContent.parse(message)]. *)
Context {Test Content : Type}.
Context (SieveTest_run : Test -> string -> string -> AppendMessage -> Content -> ran bool).
Context (MessageContent_parse : bytes -> ran Content).

(** A command of [sievelib]: [get_type()], [name], [arguments['test']]
    when there is one, and [children]. *)
Inductive Command :=
| mkCommand (get_type name : string) (test : option Test) (children : list Command).

Definition get_type (cmd : Command) : string :=
  let 'mkCommand get_type _ _ _ := cmd in get_type.

Definition name (cmd : Command) : string :=
  let 'mkCommand _ name _ _ := cmd in name.

Definition test (cmd : Command) : option Test :=
  let 'mkCommand _ _ test _ := cmd in test.

Definition children (cmd : Command) : list Command :=
  let 'mkCommand _ _ _ children := cmd in children.

Context (sender recipient : string) (append_msg : AppendMessage) (content : Content).

(** One round of the loop of [SieveRunner._get_actions], on the command
    [cmd]: the [running_if] and the list [actions] it leaves.  The list is
    the caller's, so that what was appended before an exception stays
    appended.  The fixpoint inside is the loop of the runner made for
    [cmd.children]. *)
Fixpoint run_command (cmd : Command) (running_if : option Command)
  (actions : list Command) {struct cmd} : ran (option Command) * list Command :=
  match cmd with
  | mkCommand cmd_type cmd_name cmd_test cmd_children =>
    let first :=
      if bool_decide (cmd_type = "action"%string)
      then Returns (running_if, actions ++ [cmd])
      else if bool_decide (cmd_type = "control"%string)
      then
        if bool_decide (cmd_name = "if"%string) then Returns (Some cmd, actions)
        else if bool_decide (cmd_name ∈ ["elsif"; "else"]%string)
        then Returns (running_if, actions)
        else if bool_decide (cmd_name = "stop"%string) then Raises StopRunning
        else if bool_decide (cmd_name = "require"%string)
        then Returns (running_if, actions)
        else Raises (NotImplementedError cmd_name)
      else Raises (NotImplementedError cmd_type) in
    let run_children actions :=
      match (fix loop (commands : list Command) (running_if : option Command)
                      (actions : list Command) {struct commands}
               : ran (option Command) * list Command :=
               match commands with
               | [] => (Returns running_if, actions)
               | cmd :: commands =>
                   match run_command cmd running_if actions with
                   | (Returns running_if, actions) => loop commands running_if actions
                   | (Raises e, actions) => (Raises e, actions)
                   end
               end) cmd_children None actions with
      | (Returns _, actions) => (Returns None, actions)
      | (Raises e, actions) => (Raises e, actions)
      end in
    match first with
    | Raises e => (Raises e, actions)
    | Returns (running_if, actions) =>
        match running_if with
        | None => (Returns running_if, actions)
        | Some _ =>
            if bool_decide (cmd_name ∈ ["if"; "elsif"]%string)
            then
              match cmd_test with
              | None => (Raises (KeyError "test"), actions)
              | Some test =>
                  match SieveTest_run test sender recipient append_msg content with
                  | Raises e => (Raises e, actions)
                  | Returns test_result =>
                      if negb test_result then (Returns running_if, actions)
                      else run_children actions
                  end
              end
            else if bool_decide (cmd_name = "else"%string)
            then run_children actions
            else (Returns None, actions)
        end
    end
  end.

(** The loop of [SieveRunner._get_actions] from some command on. *)
Fixpoint run_commands (commands : list Command) (running_if : option Command)
  (actions : list Command) : ran (option Command) * list Command :=
  match commands with
  | [] => (Returns running_if, actions)
  | cmd :: commands =>
      match run_command cmd running_if actions with
      | (Returns running_if, actions) => run_commands commands running_if actions
      | (Raises e, actions) => (Raises e, actions)
      end
  end.

(** [SieveRunner._get_actions] of the runner of [commands]. *)
Definition _get_actions (commands actions : list Command) : ran unit * list Command :=
  match run_commands commands None actions with
  | (Returns _, actions) => (Returns tt, actions)
  | (Raises e, actions) => (Raises e, actions)
  end.

(** The commands of type [action] of a script, in the order of the text,
    blocks included. *)
Fixpoint actions_of (cmd : Command) : list Command :=
  match cmd with
  | mkCommand cmd_type _ _ cmd_children =>
      (if bool_decide (cmd_type = "action"%string) then [cmd] else [])
      ++ flat_map actions_of cmd_children
  end.

(** What a run appends, and how it ends, does not depend on what the list
    held: the list is only appended to, with commands taken from [among] in
    their order. *)
Definition appends {A} (f : list Command -> ran A * list Command)
  (among : list Command) : Prop :=
  exists r new,
    sublist new among /\ forall actions, f actions = (r, actions ++ new).

End runner.

(** [SieveRunner.get_actions] of the runner of [commands]. *)
Definition get_actions {Test Content : Type}
  (SieveTest_run : Test -> string -> string -> AppendMessage -> Content -> ran bool)
  (MessageContent_parse : bytes -> ran Content)
  (commands : list (@Command Test)) (sender recipient : string)
  (append_msg : AppendMessage) : ran (list (@Command Test)) :=
  let actions := [] in
  match
    match MessageContent_parse (message append_msg) with
    | Raises e => (Raises e, actions)
    | Returns content =>
        _get_actions SieveTest_run sender recipient append_msg content commands actions
    end
  with
  | (Returns _, actions) => Returns actions
  | (Raises StopRunning, actions) => Returns actions
  | (Raises e, _) => Raises e
  end.

(** Three actions, for scripts whose tests are their own results. *)
Definition keep : @Command bool := mkCommand "action" "keep" None [].
Definition discard : @Command bool := mkCommand "action" "discard" None [].
Definition fileinto : @Command bool := mkCommand "action" "fileinto" None [].

End SieveRunner.

(** * Properties of the SEARCH key *)

Module SearchKeyFacts.
Import SearchKey RequirementTable.

Lemma bytes_eqb_true a b : bytes_eqb a b = true <-> a = b.
Proof. unfold bytes_eqb. apply bool_decide_eq_true. Qed.

Lemma bytes_eqb_false a b : bytes_eqb a b = false <-> a <> b.
Proof. unfold bytes_eqb. apply bool_decide_eq_false. Qed.

Lemma key_in_true key keys : key_in key keys = true <-> key ∈ keys.
Proof.
  unfold key_in. rewrite existsb_exists. setoid_rewrite bytes_eqb_true.
  rewrite list_elem_of_In. split.
  - intros (x & Hx & ->). exact Hx.
  - intros Hin. eauto.
Qed.

Lemma key_in_false key keys : key_in key keys = false <-> key ∉ keys.
Proof.
  rewrite <- key_in_true. destruct (key_in key keys); split; congruence.
Qed.

(** Induction on a key and on the keys below it. *)
Lemma key_ind (Q : t -> Prop) :
  (forall key filter inverse,
     (forall keys, filter = FKeySet keys -> Forall Q keys) ->
     (forall l r, filter = FKeyOr l r -> Q l /\ Q r) ->
     Q (mk key filter inverse)) ->
  forall k, Q k.
Proof.
  intros Hmk. fix IH 1. intros [key filter inverse]. apply Hmk.
  - intros keys E. destruct filter as [| | |keys'| | | | | |]; try discriminate E.
    injection E as <-.
    induction keys' as [|k keys' IHkeys]; constructor; [apply IH|exact IHkeys].
  - intros l r E. destruct filter as [| | | |l' r'| | | | |]; try discriminate E.
    injection E as <- <-. split; apply IH.
Qed.

Lemma well_typed_keys key keys inverse :
  well_typed (mk key (FKeySet keys) inverse) <->
  key ≠ "OR"%bytes /\ Forall well_typed keys.
Proof.
  simpl. apply and_iff_compat_l.
  induction keys as [|k keys IH].
  - split; auto.
  - split.
    + intros [H1 H2]. constructor; [exact H1 | apply IH, H2].
    + intros H. inversion H; subst. split; [assumption | apply IH; assumption].
Qed.

(** [reduce] looks at its argument as a set. *)
Lemma level_req_max a b : level (req_max a b) = Nat.max (level a) (level b).
Proof. destruct a, b; reflexivity. Qed.

Lemma level_inj a b : level a = level b -> a = b.
Proof. destruct a, b; simpl; congruence. Qed.

Lemma level_reduce_ge r rs : r ∈ rs -> level r <= level (reduce rs).
Proof.
  induction 1 as [r rs|r r' rs _ IH]; simpl; rewrite level_req_max; lia.
Qed.

Lemma reduce_elem rs : reduce rs = NONE \/ reduce rs ∈ rs.
Proof.
  induction rs as [|r rs IH]; simpl; [left; reflexivity|].
  right. unfold req_max. destruct (level r <? level (reduce rs)) eqn:E.
  - destruct IH as [IH|IH].
    + rewrite IH in E. simpl in E. apply Nat.ltb_lt in E. lia.
    + apply list_elem_of_further, IH.
  - apply list_elem_of_here.
Qed.

Lemma reduce_set_like rs rs' :
  (forall r, r ∈ rs <-> r ∈ rs') -> reduce rs = reduce rs'.
Proof.
  intros Hset. apply level_inj. apply Nat.le_antisymm.
  - destruct (reduce_elem rs) as [->|Hin]; [simpl; lia|].
    apply level_reduce_ge, Hset, Hin.
  - destruct (reduce_elem rs') as [->|Hin]; [simpl; lia|].
    apply level_reduce_ge, Hset, Hin.
Qed.

Lemma rmap_Forall2 {A C} (f : A -> result C) (g : A -> C) l :
  Forall (fun a => f a = Ok (g a)) l -> rmap f l = Ok (map g l).
Proof.
  induction 1 as [|a l Ha _ IH]; simpl; [reflexivity|].
  rewrite Ha, IH. reflexivity.
Qed.

Ltac key_cases :=
  repeat match goal with
  | H : bytes_eqb _ _ = true |- _ => apply bytes_eqb_true in H
  | H : bytes_eqb _ _ = false |- _ => apply bytes_eqb_false in H
  | H : key_in _ _ = true |- _ => apply key_in_true in H
  | H : key_in _ _ = false |- _ => apply key_in_false in H
  end.

(** On a well-typed key [requirement] answers, and answers what the table
    says. *)
Lemma requirement_table k :
  well_typed k -> requirement k = Ok (table_requirement k).
Proof.
  induction k as [key filter inverse IHset IHor] using key_ind.
  intros Hwt. unfold table_requirement in *.
  cbn [requirement table].
  destruct (bytes_eqb key "ALL"%bytes) eqn:Eall; key_cases.
  { subst key. reflexivity. }
  destruct (bytes_eqb key "KEYSET"%bytes) eqn:Eset; key_cases.
  { subst key. destruct filter; try (simpl in Hwt; tauto).
    apply well_typed_keys in Hwt as [_ Hwt].
    rewrite (rmap_Forall2 _ (table METADATA)).
    - reflexivity.
    - specialize (IHset _ eq_refl).
      rewrite Forall_forall in *. intros k Hk. apply IHset; auto. }
  destruct (bytes_eqb key "OR"%bytes) eqn:Eor; key_cases.
  { subst key. destruct filter; try (simpl in Hwt; tauto).
    destruct (IHor _ _ eq_refl) as [IHl IHr].
    simpl in Hwt. destruct Hwt as (_ & Hl & Hr).
    rewrite (IHl Hl), (IHr Hr). reflexivity. }
  unfold row.
  rewrite (bool_decide_eq_false_2 _ Eall).
  destruct (key_in key _) eqn:Ehdr; key_cases.
  { repeat (apply elem_of_cons in Ehdr as [->|Ehdr]; [reflexivity|]).
    inversion Ehdr. }
  destruct (key_in key _) eqn:Ebody; key_cases.
  { repeat (apply elem_of_cons in Ebody as [->|Ebody]; [reflexivity|]).
    inversion Ebody. }
  case_bool_decide as Eseq; [subst key; reflexivity|].
  rewrite bool_decide_eq_false_2 by (rewrite !elem_of_cons, elem_of_nil; tauto).
  rewrite bool_decide_eq_false_2.
  2:{ intros Hin. apply Ehdr. revert Hin. rewrite !elem_of_cons, !elem_of_nil. tauto. }
  rewrite (bool_decide_eq_false_2 _ Ebody). reflexivity.
Qed.


(** A key the dispatch has recognised is none of the other keys. *)
Ltac key_neq :=
  let Heq := fresh "Heq" in
  intros Heq; rewrite Heq in *;
  match goal with
  | H : _ = true |- _ => vm_compute in H; discriminate H
  end.

Ltac parse_step :=
  match goal with
  | H : context [match ?x with _ => _ end] |- _ =>
      let E := fresh "E" in destruct x eqn:E; cbv beta iota in H; try discriminate H
  | H : Ok _ = Ok _ |- _ => inversion H; clear H; subst
  | H : (_, _) = (_, _) |- _ => inversion H; clear H; subst
  end.

(** What the parser builds is well typed, whatever the primitive parsers,
    unless it holds a parenthesised list. *)
Lemma parse_well_typed P depth buf params k rest :
  parse P depth buf params = Ok (k, rest) -> list_free k = true -> well_typed k.
Proof.
  revert buf params k rest.
  induction depth as [|depth IH]; intros buf params k rest H Hfree.
  { discriminate H. }
  simpl in H. unfold mbind, result_bind in H.
  repeat parse_step; simpl in Hfree; try discriminate Hfree; simpl;
    try (split; [discriminate|discriminate]);
    try (split; [key_neq|key_neq]).
  apply andb_true_iff in Hfree as [Hleft Hright].
  split; [key_neq|split; eapply IH; eassumption].
Qed.

(** A key the parser builds holds a list where [requirement] looks for a
    [frozenset]: it raises the [TypeError] of [filter_key_set]. *)
Lemma parse_list_TypeError P depth buf params k rest :
  parse P depth buf params = Ok (k, rest) -> list_free k = false ->
  requirement k = Raise TypeError.
Proof.
  revert buf params k rest.
  induction depth as [|depth IH]; intros buf params k rest H Hfree.
  { discriminate H. }
  simpl in H. unfold mbind, result_bind in H.
  repeat parse_step; simpl in Hfree; try discriminate Hfree.
  - reflexivity.
  - key_cases.
    match goal with
    | E : upper _ = "OR"%bytes |- _ => rewrite E
    end.
    cbn [requirement]. cbv beta iota.
    change (bytes_eqb "OR"%bytes "ALL"%bytes) with false.
    change (bytes_eqb "OR"%bytes "KEYSET"%bytes) with false.
    change (bytes_eqb "OR"%bytes "OR"%bytes) with true. cbv iota.
    unfold mbind, result_bind.
    match goal with
    | E1 : parse P depth _ _ = Ok (?l, _), E2 : parse P depth _ _ = Ok (?r, _)
      |- context [requirement ?l] =>
        destruct (list_free l) eqn:El;
        [ rewrite (requirement_table l (parse_well_typed _ _ _ _ _ _ E1 El));
          rewrite (IH _ _ _ _ E2 Hfree); reflexivity
        | rewrite (IH _ _ _ _ E1 El); reflexivity ]
    end.
Qed.


Lemma not_inverse_involutive k : not_inverse (not_inverse k) = k.
Proof. destruct k as [key filter []]; reflexivity. Qed.

(** The buffer after the optional spaces is the buffer without the spaces
    it starts with. *)
Lemma optional_space_drop P buf params :
  Space_consumes_spaces P ->
  optional_space P buf params = Ok (drop (spaces_length buf) buf).
Proof.
  intros HP. unfold optional_space. specialize (HP buf params).
  destruct (spaces_length buf) as [|n].
  - destruct HP as (e & -> & ->). reflexivity.
  - rewrite HP. reflexivity.
Qed.

Lemma spaces_length_drop buf : spaces_length (drop (spaces_length buf) buf) = 0.
Proof.
  induction buf as [|c buf IH]; simpl; [reflexivity|].
  destruct (is_space c) eqn:E; simpl; [exact IH | rewrite E; reflexivity].
Qed.

Lemma not_prefix_NOT buf :
  not_prefix ("NOT "%bytes ++ buf) = (true, drop (spaces_length buf) buf).
Proof.
  unfold not_prefix, _not_pattern_match. simpl. reflexivity.
Qed.

(** Parsing after a [NOT ] prefix. *)
Lemma parse_NOT P depth buf params k rest :
  Space_consumes_spaces P ->
  parse P depth buf params = Ok (k, rest) ->
  inverse k = false ->
  parse P depth ("NOT "%bytes ++ buf) params = Ok (not_inverse k, rest).
Proof.
  intros HP H Hinv. destruct depth as [|depth]; [discriminate H|].
  cbn [parse] in *. rewrite !optional_space_drop in * by exact HP.
  change (spaces_length ("NOT "%bytes ++ buf)) with 0.
  unfold mbind, result_bind in *. rewrite drop_0, not_prefix_NOT.
  set (buf1 := drop (spaces_length buf) buf) in *.
  unfold not_prefix in H.
  destruct (_not_pattern_match buf1) as [n|].
  - exfalso. repeat parse_step; simpl in Hinv; discriminate Hinv.
  - repeat parse_step; reflexivity.
Qed.


(** The reference primitives meet the two assumptions. *)
Lemma Imap_list_items_parsed elem n buf params keys rest :
  Imap.list_items elem n buf params = Ok (keys, rest) ->
  Forall (fun k => exists buf' params' rest', elem buf' params' = Ok (k, rest')) keys.
Proof.
  revert buf keys rest. induction n as [|n IH]; intros buf keys rest H; simpl in H.
  - repeat parse_step. constructor.
  - unfold mbind, result_bind, Imap.expected_item in H.
    repeat parse_step; constructor; eauto.
Qed.

Lemma Imap_ListP_items_parsed : ListP_items_parsed Imap.primitives.
Proof.
  intros elem buf params keys rest H. simpl in H. unfold Imap.ListP_parse in H.
  repeat parse_step. eapply Imap_list_items_parsed; eassumption.
Qed.

Lemma Imap_Space_consumes_spaces : Space_consumes_spaces Imap.primitives.
Proof.
  intros buf params. simpl. unfold Imap.Space_parse.
  destruct (spaces_length buf); [|reflexivity].
  eexists. split; reflexivity.
Qed.

End SearchKeyFacts.

Module SearchKeyClaims.
Import SearchKey RequirementTable SearchKeyFacts.

(** C1 (as amended).  For every key the parser builds that holds no
    parenthesised list, [requirement] follows the table with [SEQSET] in
    the row of the keys that need the metadata: [ALL] needs nothing; [OR]
    needs the maximum of what its two children need; the date-sent keys,
    [HEADER], the address keys and [SUBJECT] need the headers; [BODY] and
    [TEXT] need the body; every other key, [SEQSET] among them, needs the
    metadata. *)
Theorem requirement_follows_table P depth buf params k rest :
  parse P depth buf params = Ok (k, rest) ->
  list_free k = true ->
  requirement k = Ok (table_requirement k) /\
  (forall l r, filter k = FKeyOr l r ->
     exists rl rr,
       requirement l = Ok rl /\ requirement r = Ok rr /\
       table_requirement k = req_max rl (req_max rr NONE)) /\
  (key k = "SEQSET"%bytes -> table_requirement k = METADATA).
Proof.
  intros H Hfree.
  pose proof (parse_well_typed _ _ _ _ _ _ H Hfree) as Hwt.
  split; [apply requirement_table, Hwt|]. split.
  - intros l r Hfilter. destruct k as [key filter inverse]. cbn in Hfilter. subst filter.
    cbn in Hwt. destruct Hwt as (Hkey & Hl & Hr).
    exists (table_requirement l), (table_requirement r).
    split; [apply requirement_table, Hl|]. split; [apply requirement_table, Hr|].
    assert (Hor : key = "OR"%bytes).
    { destruct depth as [|depth]; [discriminate H|].
      simpl in H. unfold mbind, result_bind in H.
      repeat parse_step; key_cases; assumption. }
    subst key. reflexivity.
  - destruct k as [key filter inverse]. cbn. intros ->. reflexivity.
Qed.

Lemma requirement_follows_table_witness :
  Imap.parse "OR 1:* OR NOT SUBJECT z BODY x"%bytes =
    Ok (mk "OR"%bytes
          (FKeyOr (mk "SEQSET"%bytes (FSeqSet (SequenceSet_all false)) false)
                  (mk "OR"%bytes
                      (FKeyOr (mk "SUBJECT"%bytes (FStr "z") true)
                              (mk "BODY"%bytes (FStr "x") false))
                      false))
          false, []) /\
  requirement
    (mk "OR"%bytes
        (FKeyOr (mk "SEQSET"%bytes (FSeqSet (SequenceSet_all false)) false)
                (mk "OR"%bytes
                    (FKeyOr (mk "SUBJECT"%bytes (FStr "z") true)
                            (mk "BODY"%bytes (FStr "x") false))
                    false))
        false) = Ok BODY /\
  requirement (mk "SEQSET"%bytes (FSeqSet (SequenceSet_all false)) false) = Ok METADATA /\
  requirement (mk "SUBJECT"%bytes (FStr "z") true) = Ok HEADERS.
Proof.
  split; [vm_compute; reflexivity|].
  destruct (requirement_follows_table Imap.primitives 16
              "OR 1:* OR NOT SUBJECT z BODY x"%bytes Imap.params _ []
              ltac:(vm_compute; reflexivity) eq_refl) as (Hreq & _ & _).
  split; [exact Hreq|].
  split.
  - exact (proj1 (requirement_follows_table Imap.primitives 16 "1:*"%bytes Imap.params
                    _ [] ltac:(vm_compute; reflexivity) eq_refl)).
  - exact (proj1 (requirement_follows_table Imap.primitives 16 "NOT SUBJECT z"%bytes
                    Imap.params _ [] ltac:(vm_compute; reflexivity) eq_refl)).
Defined.

(** C1 as the specification words it fails: the parser makes a [SEQSET]
    key of [1:*], [requirement] answers METADATA for it, and the table of
    the specification says NONE. *)
Lemma requirement_of_SEQSET_is_not_NONE :
  Imap.parse "1:*"%bytes =
    Ok (mk "SEQSET"%bytes (FSeqSet (SequenceSet_all false)) false, []) /\
  requirement (mk "SEQSET"%bytes (FSeqSet (SequenceSet_all false)) false) = Ok METADATA /\
  claimed_requirement (mk "SEQSET"%bytes (FSeqSet (SequenceSet_all false)) false) = NONE /\
  ~ (forall depth buf params k rest,
       parse Imap.primitives depth buf params = Ok (k, rest) ->
       requirement k = Ok (claimed_requirement k)).
Proof.
  split; [vm_compute; reflexivity|].
  split; [reflexivity|]. split; [reflexivity|].
  intros Hclaim.
  specialize (Hclaim 16 "1:*"%bytes Imap.params _ [] eq_refl).
  discriminate Hclaim.
Qed.

(** C6 (as amended).  For every buffer on which the parser succeeds with
    a key [k] whose inverse bit is unset, parsing the buffer prefixed with
    [NOT ] yields [k.not_inverse], that is [k] with the inverse bit set,
    and leaves the same rest; [not_inverse] applied twice yields a key
    equal to the original. *)
Theorem NOT_prefix_sets_inverse P depth buf params k rest :
  Space_consumes_spaces P ->
  parse P depth buf params = Ok (k, rest) ->
  inverse k = false ->
  parse P depth ("NOT "%bytes ++ buf) params = Ok (not_inverse k, rest) /\
  not_inverse k = mk (key k) (filter k) true /\
  not_inverse (not_inverse k) = k.
Proof.
  intros HP H Hinv. split; [|split].
  - apply parse_NOT; assumption.
  - unfold not_inverse, value. rewrite Hinv. reflexivity.
  - apply not_inverse_involutive.
Qed.

Lemma NOT_prefix_sets_inverse_witness :
  Space_consumes_spaces Imap.primitives /\
  Imap.parse "  (SEEN LARGER 10) x"%bytes =
    Ok (mk "KEYSET"%bytes
           (FKeyList [mk "SEEN"%bytes FNone false; mk "LARGER"%bytes (FInt 10) false])
           false, " x"%bytes) /\
  Imap.parse ("NOT "%bytes ++ "  (SEEN LARGER 10) x"%bytes) =
    Ok (not_inverse
          (mk "KEYSET"%bytes
              (FKeyList [mk "SEEN"%bytes FNone false; mk "LARGER"%bytes (FInt 10) false])
              false), " x"%bytes).
Proof.
  split; [exact Imap_Space_consumes_spaces|].
  split; [vm_compute; reflexivity|].
  apply (NOT_prefix_sets_inverse Imap.primitives 16
           "  (SEEN LARGER 10) x"%bytes Imap.params).
  - exact Imap_Space_consumes_spaces.
  - vm_compute. reflexivity.
  - reflexivity.
Defined.

(** C6 as the specification words it fails: [NOT ALL] parses to [ALL] with
    the inverse bit set, and the same buffer prefixed with [NOT ] does not
    parse at all, so that a double [NOT] does not give back [ALL]. *)
Lemma double_NOT_is_not_parseable :
  Imap.parse "NOT ALL"%bytes = Ok (mk "ALL"%bytes FNone true, []) /\
  Imap.parse ("NOT "%bytes ++ "NOT ALL"%bytes) = Raise (NotParseable "NOT ALL"%bytes) /\
  ~ (forall depth buf params k rest,
       parse Imap.primitives depth buf params = Ok (k, rest) ->
       parse Imap.primitives depth ("NOT "%bytes ++ buf) params = Ok (not_inverse k, rest)).
Proof.
  split; [vm_compute; reflexivity|].
  split; [vm_compute; reflexivity|].
  intros Hclaim.
  specialize (Hclaim 16 "NOT ALL"%bytes Imap.params _ [] eq_refl).
  vm_compute in Hclaim. discriminate Hclaim.
Qed.

(** C9.  When the buffer, after the optional spaces and the optional
    [NOT], is neither a sequence set nor a list and starts with the atom
    [KEYWORD] or [UNKEYWORD] (in any case) followed by spaces and a flag,
    the parse fails with [NotParseable] if the flag is a system flag, and
    otherwise yields the key with the flag as its filter. *)
Theorem KEYWORD_refuses_system_flags
  P depth buf params buf1 inverse buf2 e1 e2 atom after buf3 flag after_buf :
  optional_space P buf params = Ok buf1 ->
  not_prefix buf1 = (inverse, buf2) ->
  SequenceSet_parse P buf2 params = Raise e1 ->
  is_NotParseable e1 = true ->
  ListP_parse P (parse P depth) buf2 params = Raise e2 ->
  is_NotParseable e2 = true ->
  is_UnexpectedType e2 = false ->
  Atom_parse P buf2 params = Ok (atom, after) ->
  key_in (upper atom) ["KEYWORD"; "UNKEYWORD"]%bytes = true ->
  Space_parse P after params = Ok (tt, buf3) ->
  Flag_parse P buf3 params = Ok (flag, after_buf) ->
  parse P (S depth) buf params =
    if is_system flag then Raise (NotParseable buf3)
    else Ok (mk (upper atom) (FFlag flag) inverse, after_buf).
Proof.
  intros Hsp Hnot Hseq He1 Hlist He2 He2' Hatom Hkey Hspace Hflag.
  cbn [parse]. rewrite Hsp. unfold mbind, result_bind.
  rewrite Hnot, Hseq, He1. cbn [negb]. rewrite Hlist, He2, He2'. cbn [negb].
  rewrite Hatom.
  replace (key_in (upper atom) _) with false.
  2:{ symmetry. apply key_in_false. intros Hin. apply key_in_true in Hkey.
      revert Hkey Hin. generalize (upper atom). intros key.
      rewrite !elem_of_cons, !elem_of_nil.
      intros [->|[->|[]]]; intuition discriminate. }
  replace (key_in (upper atom) _) with false.
  2:{ symmetry. apply key_in_false. intros Hin. apply key_in_true in Hkey.
      revert Hkey Hin. generalize (upper atom). intros key.
      rewrite !elem_of_cons, !elem_of_nil.
      intros [->|[->|[]]]; intuition discriminate. }
  replace (key_in (upper atom) _) with false.
  2:{ symmetry. apply key_in_false. intros Hin. apply key_in_true in Hkey.
      revert Hkey Hin. generalize (upper atom). intros key.
      rewrite !elem_of_cons, !elem_of_nil.
      intros [->|[->|[]]]; intuition discriminate. }
  rewrite Hkey, Hspace, Hflag. reflexivity.
Qed.

Lemma KEYWORD_refuses_system_flags_witness :
  Imap.parse "not keyword \Seen"%bytes = Raise (NotParseable "\Seen"%bytes) /\
  Imap.parse "UNKEYWORD $Junk (x)"%bytes =
    Ok (mk "UNKEYWORD"%bytes (FFlag "$Junk"%bytes) false, " (x)"%bytes).
Proof.
  split.
  - apply (KEYWORD_refuses_system_flags Imap.primitives 15
             "not keyword \Seen"%bytes Imap.params "not keyword \Seen"%bytes
             true "keyword \Seen"%bytes
             (NotParseable "keyword \Seen"%bytes) (NotParseable "keyword \Seen"%bytes)
             "keyword"%bytes " \Seen"%bytes "\Seen"%bytes "\Seen"%bytes []);
      reflexivity.
  - apply (KEYWORD_refuses_system_flags Imap.primitives 15
             "UNKEYWORD $Junk (x)"%bytes Imap.params "UNKEYWORD $Junk (x)"%bytes
             false "UNKEYWORD $Junk (x)"%bytes
             (NotParseable "UNKEYWORD $Junk (x)"%bytes)
             (NotParseable "UNKEYWORD $Junk (x)"%bytes)
             "UNKEYWORD"%bytes " $Junk (x)"%bytes "$Junk (x)"%bytes "$Junk"%bytes
             " (x)"%bytes);
      reflexivity.
Defined.

End SearchKeyClaims.

(** * Properties of the session engine *)

Ltac splits := repeat match goal with |- _ /\ _ => split end.

Module SessionFacts.
Import BaseSession.

Section facts.
Context {B Mbx : Type} `{!Backend B Mbx}.

Implicit Types (w : World B Mbx) (evs : list (Event Mbx)).

#[local] Existing Instances M_bind M_ret.

(** *** Inverting the steps of a command *)

Lemma bind_Ok {A C} (m : M A) (k : A -> M C) w c w' :
  M_bind _ _ k m w = (Ok c, w') ->
  exists a w1, m w = (Ok a, w1) /\ k a w1 = (Ok c, w').
Proof.
  unfold M_bind. destruct (m w) as [[a|e] w1]; [eauto|discriminate].
Qed.

Lemma view_Ok selected w v w' :
  view selected w = (Ok v, w') -> w' = w /\ views w !! selected = Some v.
Proof.
  unfold view. destruct (views w !! selected); intros [= <- <-]; auto.
Qed.

Lemma view_lookup selected w v :
  views w !! selected = Some v -> view selected w = (Ok v, w).
Proof. unfold view. intros ->. reflexivity. Qed.

Lemma msg_Ok r w m w' :
  msg_ r w = (Ok m, w') -> w' = w /\ loaded w !! r = Some m.
Proof.
  unfold msg_. destruct (loaded w !! r); intros [= <- <-]; auto.
Qed.

Lemma msg_lookup r w m :
  loaded w !! r = Some m -> msg_ r w = (Ok m, w).
Proof. unfold msg_. intros ->. reflexivity. Qed.

Lemma attr_Ok {A} (f : B -> A) w a w' :
  attr f w = (Ok a, w') -> w' = w /\ a = f (backend w).
Proof. unfold attr. intros [= <- <-]; auto. Qed.

Lemma call_inv {A} (f : B -> result A * B) ev w r w' :
  call f ev w = (r, w') ->
  exists b, f (backend w) = (r, b) /\
            w' = mkWorld b (views w) (loaded w) (trace w ++ [ev r]).
Proof.
  unfold call. destruct (f (backend w)) as [r' b]. intros [= <- <-]. eauto.
Qed.

Lemma insert_alter {A} (f : A -> A) (l : list A) i x :
  l !! i = Some x -> <[i := f x]> l = alter f i l.
Proof.
  revert i. induction l as [|y l IH]; intros [|i] Hl; simpl in *;
    try discriminate.
  - injection Hl as ->. reflexivity.
  - f_equal. apply IH, Hl.
Qed.

Lemma update_view_Ok selected f w u w' :
  update_view selected f w = (Ok u, w') ->
  is_Some (views w !! selected) /\
  w' = mkWorld (backend w) (alter f selected (views w)) (loaded w) (trace w).
Proof.
  unfold update_view. intros H.
  apply bind_Ok in H as (v & w1 & Hv & H).
  apply view_Ok in Hv as [-> Hv]. unfold store_views in H.
  injection H as _ <-. split; [eauto|].
  rewrite (insert_alter _ _ _ _ Hv). reflexivity.
Qed.

Lemma update_view_lookup selected f w v :
  views w !! selected = Some v ->
  update_view selected f w =
    (Ok tt, mkWorld (backend w) (alter f selected (views w)) (loaded w) (trace w)).
Proof.
  intros Hv. unfold update_view, mbind, M_bind. rewrite (view_lookup _ _ _ Hv).
  unfold store_views. rewrite (insert_alter _ _ _ _ Hv). reflexivity.
Qed.

Lemma update_msg_Ok r f w u w' :
  update_msg r f w = (Ok u, w') ->
  is_Some (loaded w !! r) /\
  w' = mkWorld (backend w) (views w) (alter f r (loaded w)) (trace w).
Proof.
  unfold update_msg. intros H.
  apply bind_Ok in H as (v & w1 & Hv & H).
  apply msg_Ok in Hv as [-> Hv]. unfold store_loaded in H.
  injection H as _ <-. split; [eauto|].
  rewrite (insert_alter _ _ _ _ Hv). reflexivity.
Qed.


Lemma ret_Ok {A} (a : A) w a' w' :
  M_ret _ a w = (Ok a', w') -> a' = a /\ w' = w.
Proof. unfold M_ret. intros [= <- <-]; auto. Qed.

Lemma updated_set_inv mbx w r w' :
  updated_set mbx w = (r, w') ->
  r = Ok tt /\
  w' = mkWorld (backend w) (views w) (loaded w) (trace w ++ [EvUpdatedSet mbx]).
Proof. unfold updated_set. intros [= <- <-]; auto. Qed.

Lemma world_eta w : mkWorld (backend w) (views w) (loaded w) (trace w) = w.
Proof. destruct w; reflexivity. Qed.

(** *** The refresh *)

Lemma keeps_session_foldl its v :
  let v' := foldl add_pair v its in
  SelectedMailbox.name v' = SelectedMailbox.name v /\
  SelectedMailbox.readonly v' = SelectedMailbox.readonly v /\
  SelectedMailbox.permanent_flags v' = SelectedMailbox.permanent_flags v /\
  SelectedMailbox.session_flags v' = SelectedMailbox.session_flags v.
Proof.
  revert v. induction its as [|[uid msg] its IH]; intros v; simpl; [auto|].
  destruct (IH (SelectedMailbox.add_messages (uid, Message.permanent_flags msg) v))
    as (-> & -> & -> & ->). auto.
Qed.

Lemma keeps_session_refreshed uid_validity next_uid its :
  keeps_session (refreshed uid_validity next_uid its).
Proof.
  intros v. unfold refreshed.
  destruct (keeps_session_foldl its
              (SelectedMailbox.set_next_uid next_uid
                 (SelectedMailbox.set_uid_validity uid_validity v)))
    as (-> & -> & -> & ->).
  auto.
Qed.

Lemma keeps_session_set_deleted : keeps_session SelectedMailbox.set_deleted.
Proof. intros v. auto. Qed.

(** The loop of the refresh hands every pair to [add_messages]. *)
Lemma add_messages_loop sel its w :
  is_Some (views w !! sel) ->
  for_each (fun '(uid, msg) =>
              update_view sel
                (SelectedMailbox.add_messages (uid, Message.permanent_flags msg)))
           its w =
  (Ok (map (fun _ => tt) its),
   mkWorld (backend w) (alter (fun v => foldl add_pair v its) sel (views w))
           (loaded w) (trace w)).
Proof.
  revert w. induction its as [|[uid msg] its IH]; intros w [v Hv].
  - simpl. rewrite list_alter_id by reflexivity. rewrite world_eta. reflexivity.
  - cbn [for_each]. unfold mbind, M_bind.
    rewrite (update_view_lookup _ _ _ _ Hv).
    rewrite IH.
    2:{ cbn [views]. rewrite list_lookup_alter_eq, Hv. eauto. }
    cbn [views backend loaded trace]. rewrite list_alter_alter_eq. reflexivity.
Qed.

(** A refresh from a mailbox that is at hand. *)
Lemma refresh_from_eq sel v mbx w :
  views w !! sel = Some v ->
  (uid_validity ← attr (be_uid_validity mbx);
   update_view sel (SelectedMailbox.set_uid_validity uid_validity);;
   next_uid ← attr (be_next_uid mbx);
   update_view sel (SelectedMailbox.set_next_uid next_uid);;
   its ← items mbx;
   for_each (fun '(uid, msg) =>
               update_view sel
                 (SelectedMailbox.add_messages (uid, Message.permanent_flags msg)))
            its;;
   mret (Some sel)) w = refresh_from sel mbx w.
Proof.
  intros Hv. unfold mbind, M_bind, attr, refresh_from.
  rewrite (update_view_lookup _ _ _ _ Hv). cbn [views backend loaded trace].
  erewrite update_view_lookup.
  2:{ cbn [views]. rewrite list_lookup_alter_eq, Hv. reflexivity. }
  cbn [views backend loaded trace]. rewrite list_alter_alter_eq.
  unfold items, call. cbn [views backend loaded trace].
  destruct (be_items mbx (backend w)) as [[its|e] b] eqn:Eit.
  - rewrite add_messages_loop.
    2:{ cbn [views]. rewrite list_lookup_alter_eq, Hv. eauto. }
    cbn [views backend loaded trace]. rewrite list_alter_alter_eq. reflexivity.
  - reflexivity.
Qed.

(** The refresh of a view, case by case: the mailbox at hand is the
    view's; or the mailbox is resolved again, and is found, or is not. *)
Lemma load_updates_known sel v mbx w :
  views w !! sel = Some v ->
  SelectedMailbox.name v = be_name mbx (backend w) ->
  _load_updates (Some sel) (Some mbx) w = refresh_from sel mbx w.
Proof.
  intros Hv Hname. unfold _load_updates.
  unfold mbind at 1. unfold M_bind at 1. rewrite (view_lookup _ _ _ Hv).
  unfold mbind at 1. unfold M_bind at 1. unfold attr at 1.
  rewrite bool_decide_eq_true_2 by exact Hname. cbn [negb].
  unfold mbind at 1. unfold M_bind at 1. unfold mret at 1, M_ret at 1.
  apply (refresh_from_eq _ _ _ _ Hv).
Qed.

Lemma load_updates_unknown_start sel v mbx w (k : option Mbx -> M (option view_ref)) :
  views w !! sel = Some v ->
  unknown v mbx (backend w) ->
  (same ← match mbx with
          | Some m => attr (fun b => bool_decide (SelectedMailbox.name v = be_name m b))
          | None => mret false
          end;
   mbx ← (if negb same
          then try_except
                 (mbx ← get_mailbox (SelectedMailbox.name v) false; mret (Some mbx))
                 is_MailboxNotFound
                 (update_view sel SelectedMailbox.set_deleted;; mret None)
          else mret mbx);
   k mbx) w =
  (let '(r, b) := be_get_mailbox (SelectedMailbox.name v) false (backend w) in
   let w1 := mkWorld b (views w) (loaded w)
                     (trace w ++ [EvGetMailbox (SelectedMailbox.name v) false r]) in
   match r with
   | Ok m => k (Some m) w1
   | Raise e =>
       if is_MailboxNotFound e
       then k None (mkWorld b (alter SelectedMailbox.set_deleted sel (views w))
                            (loaded w) (trace w1))
       else (Raise e, w1)
   end).
Proof.
  intros Hv Hunk.
  assert (Hsame : (match mbx with
          | Some m => attr (fun b => bool_decide (SelectedMailbox.name v = be_name m b))
          | None => mret false
          end) w = (Ok false, w)).
  { destruct mbx as [m|]; [|reflexivity]. unfold attr.
    rewrite bool_decide_eq_false_2 by exact Hunk. reflexivity. }
  unfold mbind at 1. unfold M_bind at 1. rewrite Hsame. cbn [negb].
  unfold mbind at 1. unfold M_bind at 1. unfold try_except.
  unfold mbind at 1. unfold M_bind at 1. unfold get_mailbox, call.
  destruct (be_get_mailbox (SelectedMailbox.name v) false (backend w)) as [[m|e] b].
  - reflexivity.
  - destruct (is_MailboxNotFound e); [|reflexivity].
    unfold mbind at 1. unfold M_bind at 1.
    erewrite update_view_lookup by exact Hv. reflexivity.
Qed.

Lemma load_updates_unknown sel v mbx w :
  views w !! sel = Some v ->
  unknown v mbx (backend w) ->
  _load_updates (Some sel) mbx w =
  (let '(r, b) := be_get_mailbox (SelectedMailbox.name v) false (backend w) in
   let w1 := mkWorld b (views w) (loaded w)
                     (trace w ++ [EvGetMailbox (SelectedMailbox.name v) false r]) in
   match r with
   | Ok m => refresh_from sel m w1
   | Raise e =>
       if is_MailboxNotFound e
       then (Ok (Some sel),
             mkWorld b (alter SelectedMailbox.set_deleted sel (views w))
                     (loaded w) (trace w1))
       else (Raise e, w1)
   end).
Proof.
  intros Hv Hunk. unfold _load_updates.
  unfold mbind at 1. unfold M_bind at 1. rewrite (view_lookup _ _ _ Hv).
  rewrite (load_updates_unknown_start sel v mbx w _ Hv Hunk).
  destruct (be_get_mailbox (SelectedMailbox.name v) false (backend w)) as [[m|e] b].
  - apply (refresh_from_eq sel v). exact Hv.
  - reflexivity.
Qed.


Lemma replay_app evs1 evs2 (b : B) :
  replay (evs1 ++ evs2) b = replay evs2 (replay evs1 b).
Proof. unfold replay. apply foldl_app. Qed.

Lemma keeps_session_id : keeps_session (fun v => v).
Proof. intros v. auto. Qed.

Lemma keeps_session_compose f g :
  keeps_session f -> keeps_session g -> keeps_session (f ∘ g).
Proof.
  intros Hf Hg v. unfold compose.
  destruct (Hf (g v)) as (-> & -> & -> & ->). apply Hg.
Qed.

(** What [refresh_from] leaves. *)
Lemma refresh_from_Ok sel mbx w r w' :
  refresh_from sel mbx w = (Ok r, w') ->
  r = Some sel /\
  exists its f,
    be_items mbx (backend w) = (Ok its, backend w') /\
    trace w' = trace w ++ [EvItems mbx (Ok its)] /\
    loaded w' = loaded w /\
    keeps_session f /\
    views w' = alter f sel (views w).
Proof.
  unfold refresh_from.
  destruct (be_items mbx (backend w)) as [[its|e] b]; [|discriminate].
  intros [= <- <-]. split; [reflexivity|].
  exists its, (refreshed (be_uid_validity mbx (backend w))
                         (be_next_uid mbx (backend w)) its).
  splits; try reflexivity. apply keeps_session_refreshed.
Qed.

(** What a successful refresh leaves: it returns the view it was given,
    calls nothing but [get_mailbox] and [items], leaves the loaded
    messages alone, and in the views changes nothing but the refreshed one,
    and there neither the name nor the flags of the session. *)
Lemma load_updates_Ok selected mbx w r w' :
  _load_updates selected mbx w = (Ok r, w') ->
  r = selected /\
  exists evs f,
    trace w' = trace w ++ evs /\
    Forall (fun ev => is_refresh ev = true) evs /\
    backend w' = replay evs (backend w) /\
    loaded w' = loaded w /\
    keeps_session f /\
    views w' = match selected with
               | Some sel => alter f sel (views w)
               | None => views w
               end.
Proof.
  destruct selected as [sel|].
  2:{ intros [= <- <-]. split; [reflexivity|]. exists [], (fun v => v).
      rewrite app_nil_r. splits; auto using keeps_session_id. }
  destruct (views w !! sel) as [v|] eqn:Hv.
  2:{ unfold _load_updates, mbind, M_bind, view. rewrite Hv. discriminate. }
  assert (Hcases : (exists m, mbx = Some m /\
                      SelectedMailbox.name v = be_name m (backend w)) \/
                   unknown v mbx (backend w)).
  { destruct mbx as [m|]; [|right; exact I].
    destruct (decide (SelectedMailbox.name v = be_name m (backend w))); eauto. }
  destruct Hcases as [(m & -> & Hname)|Hunk].
  - rewrite (load_updates_known _ _ _ _ Hv Hname). intros H.
    apply refresh_from_Ok in H as (-> & its & f & Hit & Htr & Hl & Hf & Hvs).
    split; [reflexivity|]. exists [EvItems m (Ok its)], f.
    splits; auto.
    unfold replay. simpl. rewrite Hit. reflexivity.
  - rewrite (load_updates_unknown _ _ _ _ Hv Hunk).
    destruct (be_get_mailbox (SelectedMailbox.name v) false (backend w))
      as [[m|e] b] eqn:Eget.
    + intros H.
      apply refresh_from_Ok in H as (-> & its & f & Hit & Htr & Hl & Hf & Hvs).
      split; [reflexivity|].
      exists [EvGetMailbox (SelectedMailbox.name v) false (Ok m); EvItems m (Ok its)], f.
      cbn [trace backend views loaded] in *.
      rewrite Htr, <- app_assoc. splits; auto.
      unfold replay. simpl. rewrite Eget. simpl. rewrite Hit. reflexivity.
    + destruct (is_MailboxNotFound e); [|discriminate].
      intros [= <- <-]. split; [reflexivity|].
      exists [EvGetMailbox (SelectedMailbox.name v) false (Raise e)],
             SelectedMailbox.set_deleted.
      splits; auto using keeps_session_set_deleted.
      unfold replay. simpl. rewrite Eget. reflexivity.
Qed.


(** *** Who owns the recent bit *)

Lemma find_selected_Ok selected mbx w d w' :
  _find_selected selected mbx w = (Ok d, w') ->
  w' = w /\ d = live_view selected mbx (views w) (backend w).
Proof.
  unfold _find_selected, live_view. intros H.
  destruct selected as [sel|]; cbn [mbind option_bind].
  - apply bind_Ok in H as (same & w1 & Hsame & H).
    apply bind_Ok in Hsame as (v & w2 & Hv & Hsame).
    apply view_Ok in Hv as [-> Hv]. apply attr_Ok in Hsame as [-> ->].
    rewrite Hv.
    destruct (bool_decide _);
      [apply ret_Ok in H as [-> ->] | apply attr_Ok in H as [-> ->]]; auto.
  - apply bind_Ok in H as (same & w1 & Hsame & H).
    apply ret_Ok in Hsame as [-> ->]. apply attr_Ok in H as [-> ->]. auto.
Qed.

Lemma with_recent_nil v : with_recent [] v = v.
Proof. destruct v. reflexivity. Qed.

Lemma with_recent_cons uid uids v :
  with_recent (uid :: uids) v =
  with_recent uids
    (SelectedMailbox.with_session_flags (SessionFlags.add_recent uid) v).
Proof. destruct v. reflexivity. Qed.

Lemma with_recent_app uids1 uids2 v :
  with_recent (uids1 ++ uids2) v = with_recent uids2 (with_recent uids1 v).
Proof.
  unfold with_recent, SelectedMailbox.with_session_flags.
  destruct v; cbn -[foldl]. rewrite foldl_app. reflexivity.
Qed.

Lemma recent_with_recent uids v :
  SessionFlags.recent (SelectedMailbox.session_flags (with_recent uids v)) =
  SessionFlags.recent (SelectedMailbox.session_flags v) ∪ list_to_set uids.
Proof.
  revert v. induction uids as [|uid uids IH]; intros v.
  - rewrite with_recent_nil. simpl. set_solver.
  - rewrite with_recent_cons, IH. simpl. set_solver.
Qed.

Lemma claimed_nil dest vs : claimed dest [] vs = vs.
Proof.
  destruct dest as [d|]; [|reflexivity]. simpl.
  apply list_alter_id, with_recent_nil.
Qed.

Lemma claimed_app dest uids1 uids2 vs :
  claimed dest (uids1 ++ uids2) vs = claimed dest uids2 (claimed dest uids1 vs).
Proof.
  destruct dest as [d|]; [|reflexivity]. simpl.
  rewrite list_alter_alter_eq. apply list_alter_ext; [|reflexivity].
  intros v _. apply with_recent_app.
Qed.

Lemma claim_one dest (uid : N) w u w' :
  match dest with
  | Some d =>
      update_view d (SelectedMailbox.with_session_flags (SessionFlags.add_recent uid))
  | None => mret tt
  end w = (Ok u, w') ->
  w' = mkWorld (backend w) (claimed dest [uid] (views w)) (loaded w) (trace w).
Proof.
  destruct dest as [d|]; intros H.
  - apply update_view_Ok in H as [_ ->]. reflexivity.
  - apply ret_Ok in H as [_ ->]. destruct w; reflexivity.
Qed.


(** *** APPEND *)

Lemma replay_cons ev evs (b : B) : replay (ev :: evs) b = replay evs (replay1 b ev).
Proof. reflexivity. Qed.

(** The loop of [append_messages]. *)
Lemma append_loop_Ok mbx dest recent ams w uids w' :
  for_each (fun append_msg =>
              msg ← parse_message mbx append_msg;
              msg ← add mbx msg recent;
              match dest with
              | Some dest =>
                  update_view dest
                    (SelectedMailbox.with_session_flags
                       (SessionFlags.add_recent (Message.uid msg)))
              | None => mret tt
              end;;
              mret (Message.uid msg)) ams w = (Ok uids, w') ->
  exists evs,
    w' = mkWorld (replay evs (backend w)) (claimed dest uids (views w))
                 (loaded w) (trace w ++ evs) /\
    added_uids evs = uids /\
    signals evs = [] /\
    saves evs = [] /\
    Forall (fun a => a.1.1.1 = mbx /\ a.1.2 = recent) (adds evs) /\
    length (adds evs) = length ams /\
    length uids = length ams.
Proof.
  revert w uids w'. induction ams as [|am ams IH]; intros w uids w' H.
  - cbn [for_each] in H. apply ret_Ok in H as [-> ->].
    exists []. rewrite app_nil_r, claimed_nil.
    splits; auto. destruct w; reflexivity.
  - cbn [for_each] in H.
    apply bind_Ok in H as (uid & w3 & Hbody & H).
    apply bind_Ok in H as (uids' & w4 & Hrest & H).
    apply ret_Ok in H as [-> ->].
    apply bind_Ok in Hbody as (msg & w1 & Hparse & Hbody).
    apply bind_Ok in Hbody as (msg' & w2 & Hadd & Hbody).
    apply bind_Ok in Hbody as (u & w2' & Hclaim & Hbody).
    apply ret_Ok in Hbody as [-> ->].
    apply call_inv in Hparse as (b1 & Hparse & ->).
    apply call_inv in Hadd as (b2 & Hadd & ->).
    apply claim_one in Hclaim as ->.
    cbn [backend views loaded trace] in *.
    apply IH in Hrest as (evs & -> & <- & Hsig & Hsav & Hadds & Hlen & Hlen').
    cbn [backend views loaded trace].
    exists (EvParseMessage mbx am (Ok msg) :: EvAdd mbx msg recent (Ok msg') :: evs).
    splits.
    + rewrite !replay_cons. cbn [replay1]. rewrite Hparse. cbn [snd].
      rewrite Hadd. cbn [snd].
      rewrite <- !app_assoc. cbn [app].
      rewrite <- (claimed_app dest [Message.uid msg']). reflexivity.
    + reflexivity.
    + exact Hsig.
    + exact Hsav.
    + unfold adds in *. simpl. constructor; auto.
    + unfold adds in *. simpl. f_equal. exact Hlen.
    + simpl. f_equal. exact Hlen'.
Qed.


Lemma signals_app evs1 evs2 : signals (evs1 ++ evs2) = signals evs1 ++ signals evs2.
Proof. apply omap_app. Qed.

Lemma adds_app evs1 evs2 : adds (evs1 ++ evs2) = adds evs1 ++ adds evs2.
Proof. apply omap_app. Qed.

Lemma added_uids_app evs1 evs2 :
  added_uids (evs1 ++ evs2) = added_uids evs1 ++ added_uids evs2.
Proof. apply omap_app. Qed.

Lemma saves_app evs1 evs2 : saves (evs1 ++ evs2) = saves evs1 ++ saves evs2.
Proof. apply omap_app. Qed.

(** A refresh signals nothing, adds nothing, saves nothing. *)
Lemma refresh_quiet evs :
  Forall (fun ev => is_refresh ev = true) evs ->
  signals evs = [] /\ adds evs = [] /\ added_uids evs = [] /\ saves evs = [] /\
  Forall (fun ev => is_mutation ev = false) evs.
Proof.
  induction 1 as [|ev evs Hev _ (IH1 & IH2 & IH3 & IH4 & IH5)].
  - splits; auto.
  - destruct ev; try discriminate Hev; cbn; splits; auto.
Qed.

(** What APPEND does when it succeeds. *)
Lemma append_messages_Ok name ams selected w au sel' w' :
  append_messages name ams selected w = (Ok (au, sel'), w') ->
  exists mbx b1 evs,
    be_get_mailbox name true (backend w) = (Ok mbx, b1) /\
    be_readonly mbx b1 = false /\
    let dest := live_view selected mbx (views w) b1 in
    let pre := EvGetMailbox name true (Ok mbx) :: evs in
    au = mkAppendUid (be_uid_validity mbx (replay pre (backend w))) (added_uids evs) /\
    signals evs = [] /\
    saves evs = [] /\
    Forall (fun a => a.1.1.1 = mbx /\ a.1.2 = negb (bool_decide (is_Some dest)))
           (adds evs) /\
    length (adds evs) = length ams /\
    length (added_uids evs) = length ams /\
    _load_updates selected (Some mbx)
      (mkWorld (replay pre (backend w)) (claimed dest (added_uids evs) (views w))
               (loaded w) (trace w ++ pre ++ [EvUpdatedSet mbx])) = (Ok sel', w').
Proof.
  unfold append_messages. intros H.
  apply bind_Ok in H as (mbx & w1 & Hget & H).
  apply call_inv in Hget as (b1 & Hget & ->).
  apply bind_Ok in H as (ro & w1 & Hro & H). apply attr_Ok in Hro as [-> ->].
  cbn [backend] in H.
  destruct (be_readonly mbx b1) eqn:Ero; [discriminate H|].
  apply bind_Ok in H as (dest & w1 & Hdest & H).
  apply find_selected_Ok in Hdest as [-> ->].
  apply bind_Ok in H as (uids & w2 & Hloop & H).
  apply append_loop_Ok in Hloop as (evs & -> & <- & Hsig & Hsav & Hadds & Hlen & Hlen').
  apply bind_Ok in H as (u & w3 & Hset & H).
  apply updated_set_inv in Hset as [_ ->].
  apply bind_Ok in H as (uv & w3 & Huv & H). apply attr_Ok in Huv as [-> ->].
  apply bind_Ok in H as (s' & w3 & Hload & H). apply ret_Ok in H as [[= -> ->] ->].
  cbn [backend views loaded trace] in *.
  exists mbx, b1, evs. cbn zeta.
  rewrite replay_cons. cbn [replay1]. rewrite Hget. cbn [snd].
  splits; auto.
  rewrite <- Hload. f_equal. f_equal. rewrite <- !app_assoc. reflexivity.
Qed.


(** *** What [find] yields *)

Lemma load_eq hits w :
  load hits w =
  (Ok (number (length (loaded w)) hits),
   mkWorld (backend w) (views w) (loaded w ++ found hits) (trace w)).
Proof.
  revert w. induction hits as [|[[seq uid] [m|]] hits IH]; intros w.
  - cbn. rewrite app_nil_r, world_eta. reflexivity.
  - cbn [load number]. unfold mbind, M_bind, new_loaded. rewrite IH.
    cbn [backend views loaded trace]. rewrite length_app, Nat.add_1_r.
    rewrite <- app_assoc. reflexivity.
  - cbn [load number]. unfold mbind, M_bind. rewrite IH. reflexivity.
Qed.

Lemma find_Ok mbx sequence_set sel w refs w' :
  find mbx sequence_set sel w = (Ok refs, w') ->
  exists v hits b,
    views w !! sel = Some v /\
    be_find mbx sequence_set v (backend w) = (Ok hits, b) /\
    refs = number (length (loaded w)) hits /\
    w' = mkWorld b (views w) (loaded w ++ found hits)
                 (trace w ++ [EvFind mbx sequence_set v (Ok hits)]).
Proof.
  unfold find. intros H.
  apply bind_Ok in H as (v & w1 & Hv & H). apply view_Ok in Hv as [-> Hv].
  apply bind_Ok in H as (hits & w1 & Hfind & H).
  apply call_inv in Hfind as (b & Hfind & ->).
  rewrite load_eq in H. injection H as <- <-.
  exists v, hits, b. splits; auto.
Qed.

Lemma stored_at_app pre msgs : stored_at (length pre) msgs (pre ++ msgs).
Proof.
  intros i m Hm. rewrite lookup_app_r by lia.
  replace (length pre + i - length pre) with i by lia. exact Hm.
Qed.

Lemma stored_at_cons n m msgs ms :
  stored_at n (m :: msgs) ms -> ms !! n = Some m /\ stored_at (S n) msgs ms.
Proof.
  intros H. split.
  - rewrite <- (Nat.add_0_r n). apply H. reflexivity.
  - intros i m' Hm'. replace (S n + i) with (n + S i) by lia. apply H. exact Hm'.
Qed.

(** *** COPY *)

(** The loop of [copy_messages]. *)
Lemma copy_loop_Ok dest_mbx dest recent hits n w pairs w' :
  stored_at n (found hits) (loaded w) ->
  for_each (fun '(_, source_uid, msg) =>
      match msg with
      | Some msg =>
          m ← msg_ msg;
          msg ← add dest_mbx m recent;
          match dest with
          | Some dest_sel =>
              update_view dest_sel
                (SelectedMailbox.with_session_flags
                   (SessionFlags.add_recent (Message.uid msg)))
          | None => mret tt
          end;;
          mret [(source_uid, Message.uid msg)]
      | None => mret []
      end) (number n hits) w = (Ok pairs, w') ->
  exists evs,
    w' = mkWorld (replay evs (backend w)) (claimed dest (added_uids evs) (views w))
                 (loaded w) (trace w ++ evs) /\
    concat pairs = zip (found_uids hits) (added_uids evs) /\
    length (added_uids evs) = length (found hits) /\
    signals evs = [] /\
    saves evs = [] /\
    Forall (fun a => a.1.1.1 = dest_mbx /\ a.1.2 = recent) (adds evs) /\
    map (fun a => a.1.1.2) (adds evs) = found hits.
Proof.
  revert n w pairs w'.
  induction hits as [|[[seq uid] [m|]] hits IH]; intros n w pairs w' Hst H.
  - cbn [number for_each] in H. apply ret_Ok in H as [-> ->].
    exists []. rewrite app_nil_r, claimed_nil. splits; auto.
    destruct w; reflexivity.
  - cbn [number for_each] in H.
    change (found ((seq, uid, Some m) :: hits)) with (m :: found hits) in *.
    apply stored_at_cons in Hst as [Hm Hst].
    apply bind_Ok in H as (p & w3 & Hbody & H).
    apply bind_Ok in H as (ps & w4 & Hrest & H).
    apply ret_Ok in H as [-> ->].
    apply bind_Ok in Hbody as (m0 & w1 & Hread & Hbody).
    apply msg_Ok in Hread as [-> Hread].
    rewrite Hm in Hread. injection Hread as <-.
    apply bind_Ok in Hbody as (msg' & w2 & Hadd & Hbody).
    apply bind_Ok in Hbody as (u & w2' & Hclaim & Hbody).
    apply ret_Ok in Hbody as [-> ->].
    apply call_inv in Hadd as (b2 & Hadd & ->).
    apply claim_one in Hclaim as ->.
    cbn [backend views loaded trace] in *.
    apply IH in Hrest as (evs & -> & Hpairs & Hlen & Hsig & Hsav & Hadds & Hmsgs);
      [|exact Hst].
    cbn [backend views loaded trace].
    exists (EvAdd dest_mbx m recent (Ok msg') :: evs).
    splits.
    + rewrite replay_cons. cbn [replay1]. rewrite Hadd. cbn [snd].
      rewrite <- !app_assoc. cbn [app].
      rewrite <- (claimed_app dest [Message.uid msg']). reflexivity.
    + cbn [concat]. rewrite Hpairs. reflexivity.
    + cbn. f_equal. exact Hlen.
    + exact Hsig.
    + exact Hsav.
    + unfold adds in *. simpl. constructor; auto.
    + unfold adds in *. simpl. f_equal. exact Hmsgs.
  - cbn [number for_each] in H.
    apply bind_Ok in H as (p & w3 & Hbody & H).
    apply bind_Ok in H as (ps & w4 & Hrest & H).
    apply ret_Ok in H as [-> ->]. apply ret_Ok in Hbody as [-> ->].
    apply IH in Hrest as (evs & -> & Hpairs & Hlen & Hsig & Hsav & Hadds & Hmsgs);
      [|exact Hst].
    exists evs. splits; auto.
Qed.

(** What COPY does when it succeeds. *)
Lemma copy_messages_Ok sel sequence_set mailbox w cu sel' w' :
  copy_messages sel sequence_set mailbox w = (Ok (cu, sel'), w') ->
  exists v mbx b1 dest_mbx b2 hits b3 evs,
    views w !! sel = Some v /\
    be_get_mailbox (SelectedMailbox.name v) false (backend w) = (Ok mbx, b1) /\
    be_get_mailbox mailbox true b1 = (Ok dest_mbx, b2) /\
    be_readonly dest_mbx b2 = false /\
    be_find mbx sequence_set v b2 = (Ok hits, b3) /\
    let dest := live_view (Some sel) dest_mbx (views w) b2 in
    let pre := EvGetMailbox (SelectedMailbox.name v) false (Ok mbx)
               :: EvGetMailbox mailbox true (Ok dest_mbx)
               :: EvFind mbx sequence_set v (Ok hits) :: evs in
    cu = mkCopyUid (be_uid_validity dest_mbx (replay pre (backend w)))
                   (zip (found_uids hits) (added_uids evs)) /\
    length (added_uids evs) = length (found hits) /\
    signals evs = [] /\
    saves evs = [] /\
    Forall (fun a => a.1.1.1 = dest_mbx /\ a.1.2 = negb (bool_decide (is_Some dest)))
           (adds evs) /\
    map (fun a => a.1.1.2) (adds evs) = found hits /\
    _load_updates (Some sel) (Some mbx)
      (mkWorld (replay pre (backend w)) (claimed dest (added_uids evs) (views w))
               (loaded w ++ found hits) (trace w ++ pre ++ [EvUpdatedSet dest_mbx]))
      = (Ok sel', w').
Proof.
  unfold copy_messages. intros H.
  apply bind_Ok in H as (v & w1 & Hv & H). apply view_Ok in Hv as [-> Hv].
  apply bind_Ok in H as (mbx & w1 & Hget & H).
  apply call_inv in Hget as (b1 & Hget & ->).
  apply bind_Ok in H as (dest_mbx & w1 & Hget2 & H).
  apply call_inv in Hget2 as (b2 & Hget2 & ->).
  apply bind_Ok in H as (ro & w1 & Hro & H). apply attr_Ok in Hro as [-> ->].
  cbn [backend views loaded trace] in *.
  destruct (be_readonly dest_mbx b2) eqn:Ero; [discriminate H|].
  apply bind_Ok in H as (dest & w1 & Hdest & H).
  apply find_selected_Ok in Hdest as [-> ->].
  apply bind_Ok in H as (refs & w2 & Hfind & H).
  apply find_Ok in Hfind as (v' & hits & b3 & Hv' & Hfind & -> & ->).
  cbn [backend views loaded trace] in *.
  rewrite Hv in Hv'. injection Hv' as <-.
  apply bind_Ok in H as (pairs & w3 & Hloop & H).
  apply copy_loop_Ok in Hloop as (evs & -> & Hpairs & Hlen & Hsig & Hsav & Hadds & Hmsgs);
    [|apply stored_at_app].
  apply bind_Ok in H as (u & w3 & Hset & H).
  apply updated_set_inv in Hset as [_ ->].
  apply bind_Ok in H as (uv & w3 & Huv & H). apply attr_Ok in Huv as [-> ->].
  apply bind_Ok in H as (s' & w3 & Hload & H). apply ret_Ok in H as [[= -> ->] ->].
  cbn [backend views loaded trace] in *.
  exists v, mbx, b1, dest_mbx, b2, hits, b3, evs. cbn zeta.
  rewrite !replay_cons. cbn [replay1]. rewrite Hget. cbn [snd].
  rewrite Hget2. cbn [snd]. rewrite Hfind. cbn [snd].
  rewrite Hpairs.
  splits; auto.
  rewrite <- Hload. f_equal. f_equal. rewrite <- !app_assoc. reflexivity.
Qed.


(** *** EXPUNGE *)

(** The loop of [expunge_mailbox] only reads. *)
Lemma expunge_loop_Ok hits n w uidss w' :
  stored_at n (found hits) (loaded w) ->
  for_each (fun '(_, uid, msg) =>
      match msg with
      | Some msg =>
          m ← msg_ msg;
          mret (if bool_decide (Deleted ∈ Message.permanent_flags m)
                then [uid] else [])
      | None => mret []
      end) (number n hits) w = (Ok uidss, w') ->
  w' = w /\ concat uidss = deleted_uids hits.
Proof.
  revert n w uidss w'.
  induction hits as [|[[seq uid] [m|]] hits IH]; intros n w uidss w' Hst H.
  - cbn [number for_each] in H. apply ret_Ok in H as [-> ->]. auto.
  - cbn [number for_each] in H.
    change (found ((seq, uid, Some m) :: hits)) with (m :: found hits) in *.
    apply stored_at_cons in Hst as [Hm Hst].
    apply bind_Ok in H as (p & w3 & Hbody & H).
    apply bind_Ok in H as (ps & w4 & Hrest & H).
    apply ret_Ok in H as [-> ->].
    apply bind_Ok in Hbody as (m0 & w1 & Hread & Hbody).
    apply msg_Ok in Hread as [-> Hread].
    rewrite Hm in Hread. injection Hread as <-.
    apply ret_Ok in Hbody as [-> ->].
    apply IH in Hrest as [-> Hrest]; [|exact Hst].
    split; [reflexivity|]. cbn [concat]. rewrite Hrest.
    unfold deleted_uids. cbn. destruct (bool_decide _); reflexivity.
  - cbn [number for_each] in H.
    apply bind_Ok in H as (p & w3 & Hbody & H).
    apply bind_Ok in H as (ps & w4 & Hrest & H).
    apply ret_Ok in H as [-> ->]. apply ret_Ok in Hbody as [-> ->].
    apply IH in Hrest as [-> Hrest]; [|exact Hst].
    split; [reflexivity|]. exact Hrest.
Qed.

(** What EXPUNGE does when it succeeds. *)
Lemma expunge_mailbox_Ok sel uid_set w sel' w' :
  expunge_mailbox sel uid_set w = (Ok sel', w') ->
  exists v mbx b1 hits b2 b3,
    views w !! sel = Some v /\
    SelectedMailbox.readonly v = false /\
    be_get_mailbox (SelectedMailbox.name v) false (backend w) = (Ok mbx, b1) /\
    let uids := default (SequenceSet_all true) uid_set in
    be_find mbx uids v b1 = (Ok hits, b2) /\
    be_delete mbx (deleted_uids hits) b2 = (Ok tt, b3) /\
    let pre := [EvGetMailbox (SelectedMailbox.name v) false (Ok mbx);
                EvFind mbx uids v (Ok hits);
                EvDelete mbx (deleted_uids hits) (Ok tt)] in
    _load_updates (Some sel) (Some mbx)
      (mkWorld b3 (views w) (loaded w ++ found hits)
               (trace w ++ pre ++ [EvUpdatedSet mbx])) = (Ok sel', w').
Proof.
  unfold expunge_mailbox. intros H.
  apply bind_Ok in H as (v & w1 & Hv & H). apply view_Ok in Hv as [-> Hv].
  destruct (SelectedMailbox.readonly v) eqn:Ero; [discriminate H|].
  apply bind_Ok in H as (mbx & w1 & Hget & H).
  apply call_inv in Hget as (b1 & Hget & ->).
  apply bind_Ok in H as (refs & w2 & Hfind & H).
  apply find_Ok in Hfind as (v' & hits & b2 & Hv' & Hfind & -> & ->).
  cbn [backend views loaded trace] in *.
  rewrite Hv in Hv'. injection Hv' as <-.
  apply bind_Ok in H as (uidss & w3 & Hloop & H).
  apply expunge_loop_Ok in Hloop as [-> Huids]; [|apply stored_at_app].
  rewrite Huids in H.
  apply bind_Ok in H as (u & w3 & Hdel & H).
  apply call_inv in Hdel as (b3 & Hdel & ->).
  apply bind_Ok in H as (u' & w3 & Hset & H).
  apply updated_set_inv in Hset as [_ ->].
  cbn [backend views loaded trace] in *. destruct u.
  exists v, mbx, b1, hits, b2, b3. cbn zeta. splits; auto.
  rewrite <- H. f_equal. f_equal. rewrite <- !app_assoc. reflexivity.
Qed.

(** *** FETCH *)

Lemma number_refs n hits :
  omap (fun '(seq, _, msg) => pair seq <$> msg) (number n hits) =
  zip (found_seqs hits) (seq n (length (found hits))).
Proof.
  revert n. induction hits as [|[[s uid] [m|]] hits IH]; intros n.
  - reflexivity.
  - cbn. f_equal. apply IH.
  - cbn. apply IH.
Qed.

Lemma found_seqs_length hits : length (found_seqs hits) = length (found hits).
Proof.
  induction hits as [|[[s uid] [m|]] hits IH]; cbn; auto.
Qed.

Lemma found_uids_length hits : length (found_uids hits) = length (found hits).
Proof.
  induction hits as [|[[s uid] [m|]] hits IH]; cbn; auto.
Qed.

Lemma update_msg_lookup r f w m :
  loaded w !! r = Some m ->
  update_msg r f w =
    (Ok tt, mkWorld (backend w) (views w) (<[r := f m]> (loaded w)) (trace w)).
Proof.
  intros Hm. unfold update_msg, mbind, M_bind. rewrite (msg_lookup _ _ _ Hm).
  reflexivity.
Qed.

(** Marking the objects numbered from [length pre] on, one after the
    other. *)
Lemma mark_loop f (seqs : list N) pre msgs w :
  loaded w = pre ++ msgs ->
  length seqs = length msgs ->
  for_each (fun '(_, msg) => update_msg msg f)
           (zip seqs (seq (length pre) (length msgs))) w =
  (Ok (map (fun _ => tt) msgs),
   mkWorld (backend w) (views w) (pre ++ map f msgs) (trace w)).
Proof.
  revert seqs pre w. induction msgs as [|m msgs IH]; intros seqs pre w Hl Hlen.
  - destruct seqs; [|discriminate Hlen]. cbn. rewrite <- Hl, world_eta. reflexivity.
  - destruct seqs as [|s seqs]; [discriminate Hlen|].
    cbn [length seq zip zip_with for_each]. unfold mbind, M_bind.
    rewrite (update_msg_lookup _ _ _ m).
    2:{ rewrite Hl. apply list_lookup_middle. reflexivity. }
    specialize (IH seqs (pre ++ [f m])
      (mkWorld (backend w) (views w) (<[length pre := f m]> (loaded w)) (trace w))).
    rewrite length_app, Nat.add_1_r in IH. rewrite IH.
    + cbn [backend views loaded trace map]. rewrite <- app_assoc. reflexivity.
    + cbn [loaded]. rewrite Hl. rewrite insert_app_r_alt by lia.
      rewrite Nat.sub_diag. cbn. rewrite <- app_assoc. reflexivity.
    + injection Hlen as Hlen. exact Hlen.
Qed.

(** Reading the objects numbered from [length pre] on. *)
Lemma read_loop (seqs : list N) pre msgs post k w :
  loaded w = pre ++ msgs ++ post ->
  length seqs = length msgs ->
  k = length msgs ->
  for_each (fun '(_, msg) => msg_ msg)
           (zip seqs (seq (length pre) k)) w = (Ok msgs, w).
Proof.
  intros Hl Hlen ->.
  revert seqs pre Hl Hlen. induction msgs as [|m msgs IH]; intros seqs pre Hl Hlen.
  - destruct seqs; [|discriminate Hlen]. reflexivity.
  - destruct seqs as [|s seqs]; [discriminate Hlen|].
    cbn [length seq zip zip_with for_each]. unfold mbind, M_bind.
    unfold msg_ at 1. rewrite Hl. rewrite lookup_app_r by lia.
    rewrite Nat.sub_diag. cbn [lookup list_lookup app].
    specialize (IH seqs (pre ++ [m])).
    rewrite length_app, Nat.add_1_r in IH. rewrite IH.
    + reflexivity.
    + rewrite Hl, <- app_assoc. reflexivity.
    + injection Hlen as Hlen. exact Hlen.
Qed.

(** What FETCH does when it succeeds. *)
Lemma fetch_messages_Ok sel sequence_set attributes w ret sel' w' :
  fetch_messages sel sequence_set attributes w = (Ok (ret, sel'), w') ->
  exists v mbx b1 hits b2,
    views w !! sel = Some v /\
    be_get_mailbox (SelectedMailbox.name v) false (backend w) = (Ok mbx, b1) /\
    be_find mbx sequence_set v b1 = (Ok hits, b2) /\
    ret = zip (found_seqs hits) (seq (length (loaded w)) (length (found hits))) /\
    let pre := [EvGetMailbox (SelectedMailbox.name v) false (Ok mbx);
                EvFind mbx sequence_set v (Ok hits)] in
    if negb (SelectedMailbox.readonly v) && existsb set_seen attributes
    then
      let seen := map (Message.add_flag Seen) (found hits) in
      exists b3,
        be_save_flags mbx [SaveGenerator seen] b2 = (Ok tt, b3) /\
        _load_updates (Some sel) (Some mbx)
          (mkWorld b3 (views w) (loaded w ++ seen)
                   (trace w ++ pre ++ [EvSaveFlags mbx [SaveGenerator seen] (Ok tt)]))
          = (Ok sel', w')
    else
      _load_updates (Some sel) (Some mbx)
        (mkWorld b2 (views w) (loaded w ++ found hits) (trace w ++ pre))
        = (Ok sel', w').
Proof.
  unfold fetch_messages. intros H.
  apply bind_Ok in H as (v & w1 & Hv & H). apply view_Ok in Hv as [-> Hv].
  apply bind_Ok in H as (mbx & w1 & Hget & H).
  apply call_inv in Hget as (b1 & Hget & ->).
  apply bind_Ok in H as (refs & w2 & Hfind & H).
  apply find_Ok in Hfind as (v' & hits & b2 & Hv' & Hfind & -> & ->).
  cbn [backend views loaded trace] in *.
  rewrite Hv in Hv'. injection Hv' as <-.
  cbv zeta in H. rewrite !number_refs in H.
  apply bind_Ok in H as (v' & w1 & Hv' & H). apply view_Ok in Hv' as [-> Hv'].
  cbn [backend views loaded trace] in *.
  rewrite Hv in Hv'. injection Hv' as <-.
  apply bind_Ok in H as (u & w3 & Hseen & H).
  apply bind_Ok in H as (s' & w4 & Hload & H). apply ret_Ok in H as [[= Hret Hs] ->].
  subst ret s'.
  exists v, mbx, b1, hits, b2. cbn zeta. splits; auto.
  destruct (negb (SelectedMailbox.readonly v) && existsb set_seen attributes).
  - apply bind_Ok in Hseen as (us & w5 & Hmark & Hseen).
    rewrite (mark_loop _ _ (loaded w) (found hits)) in Hmark;
      [|reflexivity|apply found_seqs_length].
    injection Hmark as <- <-.
    apply bind_Ok in Hseen as (msgs & w5 & Hread & Hseen).
    cbn [backend views loaded trace] in *.
    rewrite (read_loop (found_seqs hits) (loaded w)
               (map (Message.add_flag Seen) (found hits)) []) in Hread.
    2:{ cbn [loaded]. rewrite app_nil_r. reflexivity. }
    2:{ rewrite length_map. apply found_seqs_length. }
    2:{ rewrite length_map. reflexivity. }
    injection Hread as <- <-.
    apply call_inv in Hseen as (b3 & Hsave & ->).
    cbn [backend views loaded trace] in *. destruct u.
    exists b3. split; [exact Hsave|].
    rewrite <- Hload. f_equal. f_equal. rewrite <- !app_assoc. reflexivity.
  - apply ret_Ok in Hseen as [-> ->].
    rewrite <- Hload. f_equal. f_equal. rewrite <- !app_assoc. reflexivity.
Qed.


(** *** STORE *)

Lemma FlagOp_apply_idempotent (mode : FlagOp) (flags flag_set : gset Flag) :
  FlagOp_apply mode (FlagOp_apply mode flags flag_set) flag_set =
  FlagOp_apply mode flags flag_set.
Proof. destruct mode; simpl; set_solver. Qed.

(** Once a UID has been through the update, further rounds with the same
    flags and mode leave its session flags as they are. *)
Lemma session_stored_stable (flag_set : gset Flag) (mode : FlagOp) msgs sf uid e :
  SessionFlags.flags sf !! uid = Some (FlagOp_apply mode e flag_set) ->
  SessionFlags.get uid (session_stored flag_set mode msgs sf) = SessionFlags.get uid sf.
Proof.
  revert sf. induction msgs as [|m msgs IH]; intros sf Hsf; [reflexivity|].
  unfold session_stored in *. cbn [foldl]. rewrite IH.
  - unfold SessionFlags.get, SessionFlags.update. cbn [SessionFlags.flags SessionFlags.recent].
    destruct (decide (Message.uid m = uid)) as [->|Hne].
    + rewrite lookup_insert_eq, Hsf. cbn [from_option id].
      rewrite FlagOp_apply_idempotent. reflexivity.
    + rewrite lookup_insert_ne by exact Hne. reflexivity.
  - unfold SessionFlags.update. cbn [SessionFlags.flags].
    destruct (decide (Message.uid m = uid)) as [->|Hne].
    + rewrite lookup_insert_eq, Hsf. cbn [from_option id].
      rewrite FlagOp_apply_idempotent. reflexivity.
    + rewrite lookup_insert_ne by exact Hne. exact Hsf.
Qed.

Lemma uid_update_flags flag_set mode m :
  Message.uid (Message.update_flags flag_set mode m) = Message.uid m.
Proof. unfold Message.update_flags. case_bool_decide; reflexivity. Qed.

(** The flags of every triple are the message's permanent flags and the
    session flags the view ends up with for it. *)
Lemma store_results_final (permitted flag_set : gset Flag) (mode : FlagOp) sf hits :
  store_results permitted flag_set mode sf hits =
  map (fun '(seq, uid, msg) =>
         (seq, uid,
          match msg with
          | Some m =>
              Message.permanent_flags (Message.update_flags permitted mode m) ∪
              SessionFlags.get (Message.uid m)
                (session_stored flag_set mode (found hits) sf)
          | None => ∅
          end)) hits.
Proof.
  revert sf. induction hits as [|[[seq uid] [m|]] hits IH]; intros sf.
  - reflexivity.
  - cbn [store_results map]. f_equal.
    + f_equal. unfold get_flags. f_equal.
      change (found ((seq, uid, Some m) :: hits)) with (m :: found hits).
      unfold session_stored at 1. cbn [foldl].
      rewrite uid_update_flags.
      symmetry.
      apply (session_stored_stable flag_set mode (found hits) _ _
               (default ∅ (SessionFlags.flags sf !! Message.uid m))).
      unfold SessionFlags.update. cbn [SessionFlags.flags].
      apply lookup_insert_eq.
    + rewrite IH, uid_update_flags. reflexivity.
  - cbn [store_results map]. f_equal. apply IH.
Qed.

Lemma with_session_flags_compose f g v :
  SelectedMailbox.with_session_flags f (SelectedMailbox.with_session_flags g v) =
  SelectedMailbox.with_session_flags (f ∘ g) v.
Proof. destruct v; reflexivity. Qed.

(** The loop of [update_flags]. *)
Lemma store_loop_Ok (sel : nat) (permitted flag_set : gset Flag) (mode : FlagOp)
  hits pre w v triples w' :
  loaded w = pre ++ found hits ->
  views w !! sel = Some v ->
  for_each (fun '(msg_seq, uid, msg) =>
      flags ← match msg with
              | Some msg =>
                  update_msg msg (Message.update_flags permitted mode);;
                  m ← msg_ msg;
                  update_view sel
                    (SelectedMailbox.with_session_flags
                       (SessionFlags.update (Message.uid m) flag_set mode));;
                  m ← msg_ msg;
                  v ← view sel;
                  mret (get_flags m (SelectedMailbox.session_flags v))
              | None => mret ∅
              end;
      mret (msg_seq, uid, flags)) (number (length pre) hits) w = (Ok triples, w') ->
  w' = mkWorld (backend w)
         (alter (SelectedMailbox.with_session_flags
                   (session_stored flag_set mode (found hits))) sel (views w))
         (pre ++ map (Message.update_flags permitted mode) (found hits))
         (trace w) /\
  triples = store_results permitted flag_set mode (SelectedMailbox.session_flags v) hits.
Proof.
  revert pre w v triples w'.
  induction hits as [|[[seq uid] [m|]] hits IH]; intros pre w v triples w' Hl Hv H.
  - cbn [number for_each] in H. apply ret_Ok in H as [-> ->].
    cbn [found omap list_omap map] in *. rewrite <- Hl.
    rewrite list_alter_id by (intros []; reflexivity).
    rewrite world_eta. auto.
  - cbn [number for_each] in H.
    change (found ((seq, uid, Some m) :: hits)) with (m :: found hits) in *.
    apply bind_Ok in H as (t & w3 & Hbody & H).
    apply bind_Ok in H as (ts & w4 & Hrest & H).
    apply ret_Ok in H as [-> ->].
    apply bind_Ok in Hbody as (flags & w5 & Hbody & Hret).
    apply ret_Ok in Hret as [-> ->].
    apply bind_Ok in Hbody as (u1 & w1 & Hupd & Hbody).
    rewrite (update_msg_lookup _ _ _ m) in Hupd.
    2:{ rewrite Hl. apply list_lookup_middle. reflexivity. }
    injection Hupd as _ <-.
    assert (Hins : <[length pre := Message.update_flags permitted mode m]> (loaded w) =
                   (pre ++ [Message.update_flags permitted mode m]) ++ found hits).
    { rewrite Hl. rewrite insert_app_r_alt by lia. rewrite Nat.sub_diag.
      cbn. rewrite <- app_assoc. reflexivity. }
    rewrite Hins in Hbody.
    apply bind_Ok in Hbody as (m1 & w1 & Hread & Hbody).
    apply msg_Ok in Hread as [-> Hread]. cbn [loaded] in Hread.
    rewrite <- app_assoc in Hread. cbn [app] in Hread.
    rewrite list_lookup_middle in Hread by reflexivity. injection Hread as <-.
    apply bind_Ok in Hbody as (u2 & w1 & Hview & Hbody).
    rewrite (update_view_lookup _ _ _ v) in Hview by exact Hv.
    injection Hview as _ <-. cbn [backend views loaded trace] in Hbody.
    apply bind_Ok in Hbody as (m2 & w1 & Hread & Hbody).
    apply msg_Ok in Hread as [-> Hread]. cbn [loaded] in Hread.
    rewrite <- app_assoc in Hread. cbn [app] in Hread.
    rewrite list_lookup_middle in Hread by reflexivity. injection Hread as <-.
    apply bind_Ok in Hbody as (v2 & w1 & Hv2 & Hbody).
    apply view_Ok in Hv2 as [-> Hv2]. cbn [views] in Hv2.
    rewrite list_lookup_alter_eq, Hv in Hv2. injection Hv2 as <-.
    apply ret_Ok in Hbody as [-> ->].
    replace (S (length pre))
      with (length (pre ++ [Message.update_flags permitted mode m])) in Hrest
      by (rewrite length_app; cbn; lia).
    eapply IH in Hrest as [-> ->].
    2:{ reflexivity. }
    2:{ cbn [views]. rewrite list_lookup_alter_eq, Hv. reflexivity. }
    cbn [backend views loaded trace]. split.
    + f_equal.
      * rewrite list_alter_alter_eq. apply list_alter_ext; [|reflexivity].
        intros x _. unfold compose.
        rewrite with_session_flags_compose, uid_update_flags. reflexivity.
      * rewrite <- app_assoc. reflexivity.
    + cbn [store_results]. rewrite uid_update_flags. reflexivity.
  - cbn [number for_each] in H.
    change (found ((seq, uid, None) :: hits)) with (found hits) in *.
    apply bind_Ok in H as (t & w3 & Hbody & H).
    apply bind_Ok in H as (ts & w4 & Hrest & H).
    apply ret_Ok in H as [-> ->].
    apply bind_Ok in Hbody as (flags & w5 & Hbody & Hret).
    apply ret_Ok in Hret as [-> ->]. apply ret_Ok in Hbody as [-> ->].
    eapply IH in Hrest as [-> ->]; [|exact Hl|exact Hv].
    split; reflexivity.
Qed.

(** What STORE does when it succeeds. *)
Lemma update_flags_Ok sel sequence_set flag_set mode w messages sel' w' :
  update_flags sel sequence_set flag_set mode w = (Ok (messages, sel'), w') ->
  exists v mbx b1 hits b2 b3,
    views w !! sel = Some v /\
    SelectedMailbox.readonly v = false /\
    be_get_mailbox (SelectedMailbox.name v) false (backend w) = (Ok mbx, b1) /\
    be_find mbx sequence_set v b1 = (Ok hits, b2) /\
    let permitted := SelectedMailbox.permanent_flags v ∩ flag_set in
    let args := map (fun '(seq, uid, flags) => SaveTuple seq uid flags) messages in
    messages = store_results permitted flag_set mode
                 (SelectedMailbox.session_flags v) hits /\
    be_save_flags mbx args b2 = (Ok tt, b3) /\
    let pre := [EvGetMailbox (SelectedMailbox.name v) false (Ok mbx);
                EvFind mbx sequence_set v (Ok hits);
                EvSaveFlags mbx args (Ok tt)] in
    _load_updates (Some sel) (Some mbx)
      (mkWorld b3
         (alter (SelectedMailbox.with_session_flags
                   (session_stored flag_set mode (found hits))) sel (views w))
         (loaded w ++ map (Message.update_flags permitted mode) (found hits))
         (trace w ++ pre ++ [EvUpdatedSet mbx])) = (Ok sel', w').
Proof.
  unfold update_flags. intros H.
  apply bind_Ok in H as (v & w1 & Hv & H). apply view_Ok in Hv as [-> Hv].
  destruct (SelectedMailbox.readonly v) eqn:Ero; [discriminate H|].
  apply bind_Ok in H as (mbx & w1 & Hget & H).
  apply call_inv in Hget as (b1 & Hget & ->).
  apply bind_Ok in H as (v' & w1 & Hv' & H). apply view_Ok in Hv' as [-> Hv'].
  cbn [backend views loaded trace] in *.
  rewrite Hv in Hv'. injection Hv' as <-. cbv zeta in H.
  apply bind_Ok in H as (refs & w2 & Hfind & H).
  apply find_Ok in Hfind as (v' & hits & b2 & Hv' & Hfind & -> & ->).
  cbn [backend views loaded trace] in *.
  rewrite Hv in Hv'. injection Hv' as <-.
  apply bind_Ok in H as (triples & w3 & Hloop & H).
  eapply store_loop_Ok in Hloop as [Hw3 Htriples]; [|reflexivity|exact Hv].
  subst w3 triples.
  apply bind_Ok in H as (u & w3 & Hsave & H).
  apply call_inv in Hsave as (b3 & Hsave & ->).
  apply bind_Ok in H as (u' & w3 & Hset & H).
  apply updated_set_inv in Hset as [_ ->].
  apply bind_Ok in H as (s' & w3 & Hload & H). apply ret_Ok in H as [[= Hm Hs] ->].
  subst messages s'. destruct u.
  cbn [backend views loaded trace] in *.
  exists v, mbx, b1, hits, b2, b3. cbn zeta. splits; auto.
  rewrite <- Hload. f_equal. f_equal. rewrite <- !app_assoc. reflexivity.
Qed.


(** *** After the refresh *)

(** The view that claimed the UIDs still holds them after the refresh. *)
Lemma final_view_recent selected f d uids vs v :
  keeps_session f ->
  vs !! d = Some v ->
  exists v',
    match selected with
    | Some sel => alter f sel (claimed (Some d) uids vs)
    | None => claimed (Some d) uids vs
    end !! d = Some v' /\
    SessionFlags.recent (SelectedMailbox.session_flags v') =
    SessionFlags.recent (SelectedMailbox.session_flags v) ∪ list_to_set uids.
Proof.
  intros Hf Hv.
  assert (Hd : claimed (Some d) uids vs !! d = Some (with_recent uids v)).
  { cbn [claimed]. rewrite list_lookup_alter_eq, Hv. reflexivity. }
  destruct selected as [sel|].
  - destruct (decide (sel = d)) as [->|Hne].
    + exists (f (with_recent uids v)). split.
      * rewrite list_lookup_alter_eq, Hd. reflexivity.
      * destruct (Hf (with_recent uids v)) as (_ & _ & _ & ->).
        apply recent_with_recent.
    + exists (with_recent uids v). split.
      * rewrite list_lookup_alter_ne by exact Hne. exact Hd.
      * apply recent_with_recent.
  - exists (with_recent uids v). split; [exact Hd|apply recent_with_recent].
Qed.

(** The view STORE worked on keeps its session flags through the
    refresh. *)
Lemma final_view_session f g (sel : nat) (vs : list SelectedMailbox.t) v :
  keeps_session f ->
  vs !! sel = Some v ->
  exists v',
    alter f sel (alter (SelectedMailbox.with_session_flags g) sel vs) !! sel = Some v' /\
    SelectedMailbox.session_flags v' = g (SelectedMailbox.session_flags v).
Proof.
  intros Hf Hv. exists (f (SelectedMailbox.with_session_flags g v)). split.
  - rewrite !list_lookup_alter_eq, Hv. reflexivity.
  - destruct (Hf (SelectedMailbox.with_session_flags g v)) as (_ & _ & _ & ->).
    destruct v; reflexivity.
Qed.

End facts.
End SessionFacts.

Module SessionClaims.
Import BaseSession SessionFacts.

Section claims.
Context {B Mbx : Type} `{!Backend B Mbx}.

Implicit Types (w : World B Mbx).

(** C3.  The refresh step.  With no view it returns no view and does
    nothing.  With a view whose mailbox the command did not identify, the
    mailbox is resolved again by the name of the view, and when that raises
    [MailboxNotFound] the view is marked deleted and returned, otherwise
    unchanged, and nothing is raised.  With the mailbox at hand, or found
    by name, [uid_validity] and [next_uid] are copied from it into the view
    and [add_messages] gets the pair (UID, permanent flags) of every item
    of [items()]. *)
Theorem load_updates_refreshes sel v mbx w :
  views w !! sel = Some v ->
  _load_updates None mbx w = (Ok None, w) /\
  (forall name b,
     unknown v mbx (backend w) ->
     be_get_mailbox (SelectedMailbox.name v) false (backend w) =
       (Raise (MailboxNotFound name), b) ->
     _load_updates (Some sel) mbx w =
       (Ok (Some sel),
        mkWorld b (alter SelectedMailbox.set_deleted sel (views w)) (loaded w)
                (trace w ++ [EvGetMailbox (SelectedMailbox.name v) false
                                          (Raise (MailboxNotFound name))]))) /\
  (forall m b its b',
     unknown v mbx (backend w) ->
     be_get_mailbox (SelectedMailbox.name v) false (backend w) = (Ok m, b) ->
     be_items m b = (Ok its, b') ->
     _load_updates (Some sel) mbx w =
       (Ok (Some sel),
        mkWorld b'
                (alter (refreshed (be_uid_validity m b) (be_next_uid m b) its)
                       sel (views w))
                (loaded w)
                (trace w ++ [EvGetMailbox (SelectedMailbox.name v) false (Ok m);
                             EvItems m (Ok its)]))) /\
  (forall m its b',
     mbx = Some m ->
     SelectedMailbox.name v = be_name m (backend w) ->
     be_items m (backend w) = (Ok its, b') ->
     _load_updates (Some sel) mbx w =
       (Ok (Some sel),
        mkWorld b'
                (alter (refreshed (be_uid_validity m (backend w))
                                  (be_next_uid m (backend w)) its)
                       sel (views w))
                (loaded w)
                (trace w ++ [EvItems m (Ok its)]))).
Proof.
  intros Hv. split; [reflexivity|]. split; [|split].
  - intros name b Hunk Hget.
    rewrite (load_updates_unknown _ _ _ _ Hv Hunk), Hget. reflexivity.
  - intros m b its b' Hunk Hget Hit.
    rewrite (load_updates_unknown _ _ _ _ Hv Hunk), Hget.
    unfold refresh_from. cbn [backend views loaded trace]. rewrite Hit.
    rewrite <- app_assoc. reflexivity.
  - intros m its b' -> Hname Hit.
    rewrite (load_updates_known _ _ _ _ Hv Hname).
    unfold refresh_from. rewrite Hit. reflexivity.
Qed.


(** C4.  A write on what is read-only raises [MailboxReadOnly] before
    anything is changed.  APPEND to a mailbox that resolves to a read-only
    one makes no call but the resolution and leaves the views and the
    loaded messages alone; EXPUNGE and STORE on a read-only view leave the
    world as it was: no [add], no [delete], no [save_flags], no change of a
    session flag. *)
Theorem readonly_raises_before_any_change w :
  (forall name messages selected mbx b,
     be_get_mailbox name true (backend w) = (Ok mbx, b) ->
     be_readonly mbx b = true ->
     append_messages name messages selected w =
       (Raise (MailboxReadOnly name),
        mkWorld b (views w) (loaded w)
                (trace w ++ [EvGetMailbox name true (Ok mbx)]))) /\
  (forall sel v uid_set,
     views w !! sel = Some v ->
     SelectedMailbox.readonly v = true ->
     expunge_mailbox sel uid_set w =
       (Raise (MailboxReadOnly (SelectedMailbox.name v)), w)) /\
  (forall sel v sequence_set flag_set mode,
     views w !! sel = Some v ->
     SelectedMailbox.readonly v = true ->
     update_flags sel sequence_set flag_set mode w =
       (Raise (MailboxReadOnly (SelectedMailbox.name v)), w)).
Proof.
  split; [|split].
  - intros name messages selected mbx b Hget Hro.
    unfold append_messages, mbind, M_bind, get_mailbox, call, attr.
    rewrite Hget. cbn [backend]. rewrite Hro. reflexivity.
  - intros sel v uid_set Hv Hro.
    unfold expunge_mailbox, mbind, M_bind. rewrite (view_lookup _ _ _ Hv), Hro.
    reflexivity.
  - intros sel v sequence_set flag_set mode Hv Hro.
    unfold update_flags, mbind, M_bind. rewrite (view_lookup _ _ _ Hv), Hro.
    reflexivity.
Qed.


(** C5.  Who gets the recent bit of a message that APPEND or COPY adds.
    The live view of the destination is the one [_find_selected] finds once
    the destination is resolved.  With no live view every [add] is called
    with [recent] set.  With a live view every [add] is called with
    [recent] unset, and the recent set of that view has gained the UIDs of
    the added messages when the command returns. *)
Theorem recent_bit_ownership w :
  (forall name ams selected au sel' w',
     append_messages name ams selected w = (Ok (au, sel'), w') ->
     exists mbx b1 evs,
       be_get_mailbox name true (backend w) = (Ok mbx, b1) /\
       trace w' = trace w ++ evs /\
       length (adds evs) = length ams /\
       added_uids evs = append_uids au /\
       match live_view selected mbx (views w) b1 with
       | None => Forall (fun a => a.1.1.1 = mbx /\ a.1.2 = true) (adds evs)
       | Some d =>
           Forall (fun a => a.1.1.1 = mbx /\ a.1.2 = false) (adds evs) /\
           forall v, views w !! d = Some v ->
             exists v',
               views w' !! d = Some v' /\
               SessionFlags.recent (SelectedMailbox.session_flags v') =
               SessionFlags.recent (SelectedMailbox.session_flags v) ∪
               list_to_set (added_uids evs)
       end) /\
  (forall sel sequence_set mailbox cu sel' w',
     copy_messages sel sequence_set mailbox w = (Ok (cu, sel'), w') ->
     exists v mbx b1 dest_mbx b2 hits evs,
       views w !! sel = Some v /\
       be_get_mailbox (SelectedMailbox.name v) false (backend w) = (Ok mbx, b1) /\
       be_get_mailbox mailbox true b1 = (Ok dest_mbx, b2) /\
       trace w' = trace w ++ evs /\
       EvFind mbx sequence_set v (Ok hits) ∈ evs /\
       map (fun a => a.1.1.2) (adds evs) = found hits /\
       added_uids evs = (copy_uids cu).*2 /\
       match live_view (Some sel) dest_mbx (views w) b2 with
       | None => Forall (fun a => a.1.1.1 = dest_mbx /\ a.1.2 = true) (adds evs)
       | Some d =>
           Forall (fun a => a.1.1.1 = dest_mbx /\ a.1.2 = false) (adds evs) /\
           forall v, views w !! d = Some v ->
             exists v',
               views w' !! d = Some v' /\
               SessionFlags.recent (SelectedMailbox.session_flags v') =
               SessionFlags.recent (SelectedMailbox.session_flags v) ∪
               list_to_set (added_uids evs)
       end).
Proof.
  split.
  - intros name ams selected au sel' w' H.
    apply append_messages_Ok in H
      as (mbx & b1 & evs & Hget & Hro & Hau & Hsig & Hsav & Hadds & Hlen & Hlen' & Hload).
    apply load_updates_Ok in Hload
      as (-> & post & f & Htr & Hpost & Hb & Hl & Hf & Hvs).
    apply refresh_quiet in Hpost as (Hs1 & Hs2 & Hs3 & Hs4 & Hs5).
    cbn [backend views loaded trace] in *.
    exists mbx, b1, (EvGetMailbox name true (Ok mbx) :: evs ++ [EvUpdatedSet mbx] ++ post).
    assert (Hadds' : adds (EvGetMailbox name true (Ok mbx) :: evs ++ [EvUpdatedSet mbx] ++ post)
                     = adds evs).
    { change (adds (EvGetMailbox name true (Ok mbx) :: evs ++ [EvUpdatedSet mbx] ++ post))
        with (adds (evs ++ [EvUpdatedSet mbx] ++ post)).
      rewrite !adds_app, Hs2. cbn. apply app_nil_r. }
    assert (Huids' : added_uids (EvGetMailbox name true (Ok mbx) :: evs ++ [EvUpdatedSet mbx] ++ post)
                     = added_uids evs).
    { change (added_uids (EvGetMailbox name true (Ok mbx) :: evs ++ [EvUpdatedSet mbx] ++ post))
        with (added_uids (evs ++ [EvUpdatedSet mbx] ++ post)).
      rewrite !added_uids_app, Hs3. cbn. apply app_nil_r. }
    rewrite Hadds', Huids'. splits; auto.
    + rewrite Htr. rewrite <- !app_assoc. reflexivity.
    + rewrite Hau. reflexivity.
    + destruct (live_view selected mbx (views w) b1) as [d|] eqn:Elive.
      * split; [exact Hadds|]. intros v Hv. rewrite Hvs.
        apply final_view_recent; assumption.
      * exact Hadds.
  - intros sel sequence_set mailbox cu sel' w' H.
    apply copy_messages_Ok in H
      as (v & mbx & b1 & dest_mbx & b2 & hits & b3 & evs & Hv & Hget & Hget2 & Hro
          & Hfind & Hcu & Hlen & Hsig & Hsav & Hadds & Hmsgs & Hload).
    apply load_updates_Ok in Hload
      as (-> & post & f & Htr & Hpost & Hb & Hl & Hf & Hvs).
    apply refresh_quiet in Hpost as (Hs1 & Hs2 & Hs3 & Hs4 & Hs5).
    cbn [backend views loaded trace] in *.
    set (all := EvGetMailbox (SelectedMailbox.name v) false (Ok mbx)
                :: EvGetMailbox mailbox true (Ok dest_mbx)
                :: EvFind mbx sequence_set v (Ok hits)
                :: evs ++ [EvUpdatedSet dest_mbx] ++ post).
    exists v, mbx, b1, dest_mbx, b2, hits, all.
    assert (Hadds' : adds all = adds evs).
    { change (adds all) with (adds (evs ++ [EvUpdatedSet dest_mbx] ++ post)).
      rewrite !adds_app, Hs2. cbn. apply app_nil_r. }
    assert (Huids' : added_uids all = added_uids evs).
    { change (added_uids all) with (added_uids (evs ++ [EvUpdatedSet dest_mbx] ++ post)).
      rewrite !added_uids_app, Hs3. cbn. apply app_nil_r. }
    rewrite Hadds', Huids'. splits; auto.
    + rewrite Htr. unfold all. rewrite <- !app_assoc. reflexivity.
    + unfold all. rewrite !elem_of_cons. auto.
    + rewrite Hcu. cbn [copy_uids]. rewrite snd_zip; [reflexivity|].
      rewrite Hlen, found_uids_length. reflexivity.
    + destruct (live_view (Some sel) dest_mbx (views w) b2) as [d|] eqn:Elive.
      * split; [exact Hadds|]. intros v0 Hv0. rewrite Hvs.
        apply (final_view_recent (Some sel)); assumption.
      * exact Hadds.
Qed.


(** C8.  The codes of UIDPLUS.  A successful APPEND returns the
    [uid_validity] the destination mailbox has once the messages are added
    (the state the calls before the update event leave), and the UIDs of
    the messages [add] returned, one per appended message, in order.  A
    successful COPY returns the [uid_validity] of the destination likewise,
    and the pairs of the UID of each found message and the UID [add] gave
    its copy. *)
Theorem uidplus_codes w :
  (forall name ams selected au sel' w',
     append_messages name ams selected w = (Ok (au, sel'), w') ->
     exists mbx pre post,
       trace w' = trace w ++ pre ++ [EvUpdatedSet mbx] ++ post /\
       head pre = Some (EvGetMailbox name true (Ok mbx)) /\
       append_validity au = be_uid_validity mbx (replay pre (backend w)) /\
       append_uids au = added_uids pre /\
       length (append_uids au) = length ams) /\
  (forall sel sequence_set mailbox cu sel' w',
     copy_messages sel sequence_set mailbox w = (Ok (cu, sel'), w') ->
     exists v mbx dest_mbx hits pre post,
       views w !! sel = Some v /\
       trace w' = trace w ++ pre ++ [EvUpdatedSet dest_mbx] ++ post /\
       take 3 pre = [EvGetMailbox (SelectedMailbox.name v) false (Ok mbx);
                     EvGetMailbox mailbox true (Ok dest_mbx);
                     EvFind mbx sequence_set v (Ok hits)] /\
       copy_validity cu = be_uid_validity dest_mbx (replay pre (backend w)) /\
       copy_uids cu = zip (found_uids hits) (added_uids pre) /\
       length (copy_uids cu) = length (found hits)).
Proof.
  split.
  - intros name ams selected au sel' w' H.
    apply append_messages_Ok in H
      as (mbx & b1 & evs & Hget & Hro & Hau & Hsig & Hsav & Hadds & Hlen & Hlen' & Hload).
    apply load_updates_Ok in Hload
      as (-> & post & f & Htr & Hpost & Hb & Hl & Hf & Hvs).
    cbn [backend views loaded trace] in *.
    exists mbx, (EvGetMailbox name true (Ok mbx) :: evs), post.
    rewrite Hau. cbn [append_validity append_uids]. splits; auto.
    rewrite Htr, <- !app_assoc. reflexivity.
  - intros sel sequence_set mailbox cu sel' w' H.
    apply copy_messages_Ok in H
      as (v & mbx & b1 & dest_mbx & b2 & hits & b3 & evs & Hv & Hget & Hget2 & Hro
          & Hfind & Hcu & Hlen & Hsig & Hsav & Hadds & Hmsgs & Hload).
    apply load_updates_Ok in Hload
      as (-> & post & f & Htr & Hpost & Hb & Hl & Hf & Hvs).
    cbn [backend views loaded trace] in *.
    exists v, mbx, dest_mbx, hits,
      (EvGetMailbox (SelectedMailbox.name v) false (Ok mbx)
       :: EvGetMailbox mailbox true (Ok dest_mbx)
       :: EvFind mbx sequence_set v (Ok hits) :: evs), post.
    rewrite Hcu. cbn [copy_validity copy_uids]. splits; auto.
    + rewrite Htr, <- !app_assoc. reflexivity.
    + rewrite length_zip, Hlen, found_uids_length. lia.
Qed.

(** C10.  A successful APPEND, EXPUNGE, COPY or STORE sets the update
    event of its destination mailbox exactly once, after its own calls and
    before the refresh, whatever the number of messages it touched.  The
    destination is the mailbox the command resolved: by the name given to
    APPEND, by the name given to COPY (its second resolution), by the name
    of the view for EXPUNGE and STORE. *)
Theorem update_event_set_once w :
  (forall name ams selected au sel' w',
     append_messages name ams selected w = (Ok (au, sel'), w') ->
     exists mbx pre,
       head pre = Some (EvGetMailbox name true (Ok mbx)) /\
       signals_once_before_refresh w w' mbx pre
         (_load_updates selected (Some mbx)) sel') /\
  (forall sel uid_set sel' w',
     expunge_mailbox sel uid_set w = (Ok sel', w') ->
     exists v mbx pre,
       views w !! sel = Some v /\
       head pre = Some (EvGetMailbox (SelectedMailbox.name v) false (Ok mbx)) /\
       signals_once_before_refresh w w' mbx pre
         (_load_updates (Some sel) (Some mbx)) sel') /\
  (forall sel sequence_set mailbox cu sel' w',
     copy_messages sel sequence_set mailbox w = (Ok (cu, sel'), w') ->
     exists v mbx dest_mbx pre,
       views w !! sel = Some v /\
       head pre = Some (EvGetMailbox (SelectedMailbox.name v) false (Ok mbx)) /\
       pre !! 1 = Some (EvGetMailbox mailbox true (Ok dest_mbx)) /\
       signals_once_before_refresh w w' dest_mbx pre
         (_load_updates (Some sel) (Some mbx)) sel') /\
  (forall sel sequence_set flag_set mode messages sel' w',
     update_flags sel sequence_set flag_set mode w = (Ok (messages, sel'), w') ->
     exists v mbx pre,
       views w !! sel = Some v /\
       head pre = Some (EvGetMailbox (SelectedMailbox.name v) false (Ok mbx)) /\
       signals_once_before_refresh w w' mbx pre
         (_load_updates (Some sel) (Some mbx)) sel').
Proof.
  assert (Honce : forall w' dest pre selected mbx sel' b vs ls,
    signals pre = [] ->
    _load_updates selected (Some mbx)
      (mkWorld b vs ls (trace w ++ pre ++ [EvUpdatedSet dest])) = (Ok sel', w') ->
    signals_once_before_refresh w w' dest pre (_load_updates selected (Some mbx)) sel').
  { intros w' dest pre selected mbx sel' b vs ls Hpre Hload.
    split; [exact Hpre|].
    pose proof Hload as Hload'.
    apply load_updates_Ok in Hload'
      as (_ & post & f & Htr & Hpost & _).
    apply refresh_quiet in Hpost as (Hs1 & _).
    eexists _, post. splits; [| exact Hload | exact Htr | exact Hs1 |].
    - reflexivity.
    - rewrite !signals_app, Hpre, Hs1. reflexivity. }
  splits.
  - intros name ams selected au sel' w' H.
    apply append_messages_Ok in H
      as (mbx & b1 & evs & Hget & Hro & Hau & Hsig & Hsav & Hadds & Hlen & Hlen' & Hload).
    cbv zeta in Hload.
    exists mbx, (EvGetMailbox name true (Ok mbx) :: evs).
    split; [reflexivity|]. eapply Honce; [exact Hsig|exact Hload].
  - intros sel uid_set sel' w' H.
    apply expunge_mailbox_Ok in H
      as (v & mbx & b1 & hits & b2 & b3 & Hv & Hro & Hget & Hfind & Hdel & Hload).
    cbv zeta in Hload.
    exists v, mbx, [EvGetMailbox (SelectedMailbox.name v) false (Ok mbx);
                    EvFind mbx (default (SequenceSet_all true) uid_set) v (Ok hits);
                    EvDelete mbx (deleted_uids hits) (Ok tt)].
    split; [exact Hv|]. split; [reflexivity|].
    eapply Honce; [reflexivity|exact Hload].
  - intros sel sequence_set mailbox cu sel' w' H.
    apply copy_messages_Ok in H
      as (v & mbx & b1 & dest_mbx & b2 & hits & b3 & evs & Hv & Hget & Hget2 & Hro
          & Hfind & Hcu & Hlen & Hsig & Hsav & Hadds & Hmsgs & Hload).
    cbv zeta in Hload.
    exists v, mbx, dest_mbx,
      (EvGetMailbox (SelectedMailbox.name v) false (Ok mbx)
       :: EvGetMailbox mailbox true (Ok dest_mbx)
       :: EvFind mbx sequence_set v (Ok hits) :: evs).
    split; [exact Hv|]. split; [reflexivity|]. split; [reflexivity|].
    eapply Honce; [exact Hsig|exact Hload].
  - intros sel sequence_set flag_set mode messages sel' w' H.
    apply update_flags_Ok in H
      as (v & mbx & b1 & hits & b2 & b3 & Hv & Hro & Hget & Hfind & Hmsgs & Hsave & Hload).
    cbv zeta in Hload.
    exists v, mbx,
      [EvGetMailbox (SelectedMailbox.name v) false (Ok mbx);
       EvFind mbx sequence_set v (Ok hits);
       EvSaveFlags mbx (map (fun '(seq, uid, flags) => SaveTuple seq uid flags) messages)
                   (Ok tt)].
    split; [exact Hv|]. split; [reflexivity|].
    eapply Honce; [reflexivity|exact Hload].
Qed.

End claims.
End SessionClaims.

(** ** The claims on the reference backend *)

Module SessionExamples.
Import BaseSession SessionReading SessionFacts SessionClaims DictBackend.

Lemma outcome_eq {A W : Type} (run : A * W) (a : A) : run.1 = a -> run = (a, run.2).
Proof. destruct run. simpl. intros ->. reflexivity. Qed.

Lemma load_updates_refreshes_witness :
  views world !! 2 = Some view2 /\
  (exists w',
     _load_updates (Some 2) None world = (Ok (Some 2), w') /\
     SelectedMailbox.deleted <$> views w' !! 2 = Some true /\
     trace w' = [EvGetMailbox "Gone" false (Raise (MailboxNotFound "Gone"))]) /\
  (exists w',
     _load_updates (Some 0) None world = (Ok (Some 0), w') /\
     SelectedMailbox.messages <$> views w' !! 0 =
       Some [(1%N, {[Seen]}); (2%N, {[Deleted]}); (3%N, ∅)]).
Proof.
  split; [reflexivity|]. split.
  - destruct (load_updates_refreshes 2 view2 None world eq_refl) as (_ & Hgone & _).
    eexists. split; [apply (Hgone "Gone" (backend world) I); reflexivity|].
    split; reflexivity.
  - destruct (load_updates_refreshes 0 view0 None world eq_refl) as (_ & _ & Hfound & _).
    eexists. split.
    + apply (Hfound "INBOX" (backend world)
               (map (fun m => (Message.uid m, m)) (messages inbox)) (backend world) I);
        reflexivity.
    + reflexivity.
Defined.

Lemma readonly_raises_before_any_change_witness :
  append_messages "Archive" [note] (Some 0) world =
    (Raise (MailboxReadOnly "Archive"),
     mkWorld (backend world) (views world) (loaded world)
             [EvGetMailbox "Archive" true (Ok "Archive")]) /\
  expunge_mailbox 1 None world = (Raise (MailboxReadOnly "Archive"), world) /\
  update_flags 1 uid_1 {[Seen]} ADD world = (Raise (MailboxReadOnly "Archive"), world).
Proof.
  destruct (readonly_raises_before_any_change world) as (Happend & Hexpunge & Hstore).
  split; [|split].
  - apply (Happend "Archive" [note] (Some 0) "Archive" (backend world)); reflexivity.
  - apply (Hexpunge 1 view1 None); reflexivity.
  - apply (Hstore 1 view1 uid_1 {[Seen]} ADD); reflexivity.
Defined.

(** The runs of the witness of C5: an APPEND into [INBOX] by the session
    that has selected it, one into [Work], which nobody has selected, one
    into [INBOX] by a session with no view, whose messages go to the view
    another session holds; a COPY into [Work], and one into [INBOX]
    itself. *)
Lemma recent_bit_ownership_witness :
  ((append_messages "INBOX" [note; memo] (Some 0) world).1 =
     Ok (mkAppendUid 7 [4%N; 5%N], Some 0) /\
   exists evs v',
     trace (append_messages "INBOX" [note; memo] (Some 0) world).2 = trace world ++ evs /\
     length (adds evs) = 2 /\
     added_uids evs = [4%N; 5%N] /\
     Forall (fun a => a.1.1.1 = "INBOX"%string /\ a.1.2 = false) (adds evs) /\
     views (append_messages "INBOX" [note; memo] (Some 0) world).2 !! 0 = Some v' /\
     SessionFlags.recent (SelectedMailbox.session_flags v') =
       SessionFlags.recent (SelectedMailbox.session_flags view0) ∪
       list_to_set [4%N; 5%N]) /\
  ((append_messages "Work" [note] (Some 0) world).1 = Ok (mkAppendUid 5 [1%N], Some 0) /\
   exists evs,
     trace (append_messages "Work" [note] (Some 0) world).2 = trace world ++ evs /\
     length (adds evs) = 1 /\
     added_uids evs = [1%N] /\
     Forall (fun a => a.1.1.1 = "Work"%string /\ a.1.2 = true) (adds evs)) /\
  ((append_messages "INBOX" [note] None world).1 = Ok (mkAppendUid 7 [4%N], None) /\
   exists evs v',
     trace (append_messages "INBOX" [note] None world).2 = trace world ++ evs /\
     length (adds evs) = 1 /\
     added_uids evs = [4%N] /\
     Forall (fun a => a.1.1.1 = "INBOX"%string /\ a.1.2 = false) (adds evs) /\
     views (append_messages "INBOX" [note] None world).2 !! 0 = Some v' /\
     SessionFlags.recent (SelectedMailbox.session_flags v') =
       SessionFlags.recent (SelectedMailbox.session_flags view0) ∪ list_to_set [4%N]) /\
  ((copy_messages 0 uid_2_3 "Work" world).1 =
     Ok (mkCopyUid 5 [(2%N, 1%N); (3%N, 2%N)], Some 0) /\
   exists hits evs,
     trace (copy_messages 0 uid_2_3 "Work" world).2 = trace world ++ evs /\
     EvFind "INBOX" uid_2_3 view0 (Ok hits) ∈ evs /\
     map (fun a => a.1.1.2) (adds evs) = found hits /\
     added_uids evs = [1%N; 2%N] /\
     Forall (fun a => a.1.1.1 = "Work"%string /\ a.1.2 = true) (adds evs)) /\
  ((copy_messages 0 uid_2_3 "INBOX" world).1 =
     Ok (mkCopyUid 7 [(2%N, 4%N); (3%N, 5%N)], Some 0) /\
   exists hits evs v',
     trace (copy_messages 0 uid_2_3 "INBOX" world).2 = trace world ++ evs /\
     EvFind "INBOX" uid_2_3 view0 (Ok hits) ∈ evs /\
     map (fun a => a.1.1.2) (adds evs) = found hits /\
     added_uids evs = [4%N; 5%N] /\
     Forall (fun a => a.1.1.1 = "INBOX"%string /\ a.1.2 = false) (adds evs) /\
     views (copy_messages 0 uid_2_3 "INBOX" world).2 !! 0 = Some v' /\
     SessionFlags.recent (SelectedMailbox.session_flags v') =
       SessionFlags.recent (SelectedMailbox.session_flags view0) ∪
       list_to_set [4%N; 5%N]).
Proof.
  destruct (recent_bit_ownership world) as [Happend Hcopy].
  assert (Hinbox : be_get_mailbox "INBOX" true (backend world) =
                   (Ok "INBOX"%string, backend world)) by reflexivity.
  assert (Hinbox' : be_get_mailbox "INBOX" false (backend world) =
                    (Ok "INBOX"%string, backend world)) by reflexivity.
  assert (Hwork : be_get_mailbox "Work" true (backend world) =
                  (Ok "Work"%string, backend world)) by reflexivity.
  assert (Hview0 : views world !! 0 = Some view0) by reflexivity.
  assert (Hlive0 : live_view (Some 0) "INBOX"%string (views world) (backend world) = Some 0)
    by reflexivity.
  assert (Hlive1 : live_view (Some 0) "Work"%string (views world) (backend world) = None)
    by reflexivity.
  assert (Hlive2 : live_view None "INBOX"%string (views world) (backend world) = Some 0)
    by reflexivity.
  split; [|split; [|split; [|split]]].
  - assert (Hrun : (append_messages "INBOX" [note; memo] (Some 0) world).1 =
                   Ok (mkAppendUid 7 [4%N; 5%N], Some 0)).
    { vm_cast_no_check (eq_refl (Ok (mkAppendUid 7 [4%N; 5%N], Some 0))). }
    split; [exact Hrun|].
    destruct (Happend "INBOX" [note; memo] (Some 0) _ _ _ (outcome_eq _ _ Hrun))
      as (mbx & b1 & evs & Hget & Htr & Hlen & Huids & Hlive).
    assert (mbx = "INBOX"%string /\ b1 = backend world) as [-> ->]
      by (split; congruence).
    rewrite Hlive0 in Hlive. destruct Hlive as [Hadds Hview].
    destruct (Hview view0 eq_refl) as (v' & Hv' & Hrecent).
    rewrite Huids in Hrecent.
    exists evs, v'. splits; assumption.
  - assert (Hrun : (append_messages "Work" [note] (Some 0) world).1 =
                   Ok (mkAppendUid 5 [1%N], Some 0)).
    { vm_cast_no_check (eq_refl (Ok (mkAppendUid 5 [1%N], Some 0))). }
    split; [exact Hrun|].
    destruct (Happend "Work" [note] (Some 0) _ _ _ (outcome_eq _ _ Hrun))
      as (mbx & b1 & evs & Hget & Htr & Hlen & Huids & Hlive).
    assert (mbx = "Work"%string /\ b1 = backend world) as [-> ->]
      by (split; congruence).
    rewrite Hlive1 in Hlive.
    exists evs. splits; assumption.
  - assert (Hrun : (append_messages "INBOX" [note] None world).1 =
                   Ok (mkAppendUid 7 [4%N], None)).
    { vm_cast_no_check (eq_refl (Ok (mkAppendUid 7 [4%N], None (A:=nat)))). }
    split; [exact Hrun|].
    destruct (Happend "INBOX" [note] None _ _ _ (outcome_eq _ _ Hrun))
      as (mbx & b1 & evs & Hget & Htr & Hlen & Huids & Hlive).
    assert (mbx = "INBOX"%string /\ b1 = backend world) as [-> ->]
      by (split; congruence).
    rewrite Hlive2 in Hlive. destruct Hlive as [Hadds Hview].
    destruct (Hview view0 eq_refl) as (v' & Hv' & Hrecent).
    rewrite Huids in Hrecent.
    exists evs, v'. splits; assumption.
  - assert (Hrun : (copy_messages 0 uid_2_3 "Work" world).1 =
                   Ok (mkCopyUid 5 [(2%N, 1%N); (3%N, 2%N)], Some 0)).
    { vm_cast_no_check (eq_refl (Ok (mkCopyUid 5 [(2%N, 1%N); (3%N, 2%N)], Some 0))). }
    split; [exact Hrun|].
    destruct (Hcopy 0 uid_2_3 "Work" _ _ _ (outcome_eq _ _ Hrun))
      as (v & mbx & b1 & dest & b2 & hits & evs & Hv & Hget & Hget2 & Htr & Hfind
          & Hmsgs & Huids & Hlive).
    assert (v = view0) as -> by congruence.
    change (SelectedMailbox.name view0) with "INBOX"%string in Hget.
    assert (mbx = "INBOX"%string /\ b1 = backend world) as [-> ->]
      by (split; congruence).
    assert (dest = "Work"%string /\ b2 = backend world) as [-> ->]
      by (split; congruence).
    rewrite Hlive1 in Hlive.
    exists hits, evs. splits; assumption.
  - assert (Hrun : (copy_messages 0 uid_2_3 "INBOX" world).1 =
                   Ok (mkCopyUid 7 [(2%N, 4%N); (3%N, 5%N)], Some 0)).
    { vm_cast_no_check (eq_refl (Ok (mkCopyUid 7 [(2%N, 4%N); (3%N, 5%N)], Some 0))). }
    split; [exact Hrun|].
    destruct (Hcopy 0 uid_2_3 "INBOX" _ _ _ (outcome_eq _ _ Hrun))
      as (v & mbx & b1 & dest & b2 & hits & evs & Hv & Hget & Hget2 & Htr & Hfind
          & Hmsgs & Huids & Hlive).
    assert (v = view0) as -> by congruence.
    change (SelectedMailbox.name view0) with "INBOX"%string in Hget.
    assert (mbx = "INBOX"%string /\ b1 = backend world) as [-> ->]
      by (split; congruence).
    assert (dest = "INBOX"%string /\ b2 = backend world) as [-> ->]
      by (split; congruence).
    rewrite Hlive0 in Hlive. destruct Hlive as [Hadds Hview].
    destruct (Hview view0 eq_refl) as (v' & Hv' & Hrecent).
    rewrite Huids in Hrecent.
    exists hits, evs, v'. splits; assumption.
Defined.

(** The runs of the witness of C8: an APPEND of two messages into
    [INBOX], whose next UID is 4, and a COPY of the messages 2 and 3 of
    [INBOX] into [Work], whose next UID is 1. *)
Lemma uidplus_codes_witness :
  ((append_messages "INBOX" [note; memo] (Some 0) world).1 =
     Ok (mkAppendUid 7 [4%N; 5%N], Some 0) /\
   exists mbx pre post,
     trace (append_messages "INBOX" [note; memo] (Some 0) world).2 =
       trace world ++ pre ++ [EvUpdatedSet mbx] ++ post /\
     head pre = Some (EvGetMailbox "INBOX" true (Ok mbx)) /\
     7%N = be_uid_validity mbx (replay pre (backend world)) /\
     [4%N; 5%N] = added_uids pre /\
     2 = length [note; memo]) /\
  ((copy_messages 0 uid_2_3 "Work" world).1 =
     Ok (mkCopyUid 5 [(2%N, 1%N); (3%N, 2%N)], Some 0) /\
   exists v mbx dest_mbx hits pre post,
     views world !! 0 = Some v /\
     trace (copy_messages 0 uid_2_3 "Work" world).2 =
       trace world ++ pre ++ [EvUpdatedSet dest_mbx] ++ post /\
     take 3 pre = [EvGetMailbox (SelectedMailbox.name v) false (Ok mbx);
                   EvGetMailbox "Work" true (Ok dest_mbx);
                   EvFind mbx uid_2_3 v (Ok hits)] /\
     5%N = be_uid_validity dest_mbx (replay pre (backend world)) /\
     [(2%N, 1%N); (3%N, 2%N)] = zip (found_uids hits) (added_uids pre) /\
     2 = length (found hits)).
Proof.
  destruct (uidplus_codes world) as [Happend Hcopy].
  split.
  - assert (Hrun : (append_messages "INBOX" [note; memo] (Some 0) world).1 =
                   Ok (mkAppendUid 7 [4%N; 5%N], Some 0)).
    { vm_cast_no_check (eq_refl (Ok (mkAppendUid 7 [4%N; 5%N], Some 0))). }
    split; [exact Hrun|].
    exact (Happend "INBOX" [note; memo] (Some 0) _ _ _ (outcome_eq _ _ Hrun)).
  - assert (Hrun : (copy_messages 0 uid_2_3 "Work" world).1 =
                   Ok (mkCopyUid 5 [(2%N, 1%N); (3%N, 2%N)], Some 0)).
    { vm_cast_no_check (eq_refl (Ok (mkCopyUid 5 [(2%N, 1%N); (3%N, 2%N)], Some 0))). }
    split; [exact Hrun|].
    exact (Hcopy 0 uid_2_3 "Work" _ _ _ (outcome_eq _ _ Hrun)).
Defined.

(** The runs of the witness of C10, each of which touches no message: an
    APPEND of no message, an EXPUNGE of message 1, which is not flagged
    [\Deleted], a COPY and a STORE of the UID 9, which [INBOX] does not
    hold; and an EXPUNGE that removes message 2. *)
Lemma update_event_set_once_witness :
  ((append_messages "INBOX" [] (Some 0) world).1 = Ok (mkAppendUid 7 [], Some 0) /\
   signals (trace (append_messages "INBOX" [] (Some 0) world).2) = ["INBOX"%string] /\
   exists mbx pre,
     head pre = Some (EvGetMailbox "INBOX" true (Ok mbx)) /\
     signals_once_before_refresh world (append_messages "INBOX" [] (Some 0) world).2
       mbx pre (_load_updates (Some 0) (Some mbx)) (Some 0)) /\
  ((expunge_mailbox 0 (Some uid_1) world).1 = Ok (Some 0) /\
   signals (trace (expunge_mailbox 0 (Some uid_1) world).2) = ["INBOX"%string] /\
   deletes (trace (expunge_mailbox 0 (Some uid_1) world).2) = [("INBOX"%string, [])] /\
   exists v mbx pre,
     views world !! 0 = Some v /\
     head pre = Some (EvGetMailbox (SelectedMailbox.name v) false (Ok mbx)) /\
     signals_once_before_refresh world (expunge_mailbox 0 (Some uid_1) world).2
       mbx pre (_load_updates (Some 0) (Some mbx)) (Some 0)) /\
  ((expunge_mailbox 0 None world).1 = Ok (Some 0) /\
   signals (trace (expunge_mailbox 0 None world).2) = ["INBOX"%string] /\
   deletes (trace (expunge_mailbox 0 None world).2) = [("INBOX"%string, [2%N])] /\
   exists v mbx pre,
     views world !! 0 = Some v /\
     head pre = Some (EvGetMailbox (SelectedMailbox.name v) false (Ok mbx)) /\
     signals_once_before_refresh world (expunge_mailbox 0 None world).2
       mbx pre (_load_updates (Some 0) (Some mbx)) (Some 0)) /\
  ((copy_messages 0 uid_9 "Work" world).1 = Ok (mkCopyUid 5 [], Some 0) /\
   signals (trace (copy_messages 0 uid_9 "Work" world).2) = ["Work"%string] /\
   adds (trace (copy_messages 0 uid_9 "Work" world).2) = [] /\
   exists v mbx dest_mbx pre,
     views world !! 0 = Some v /\
     head pre = Some (EvGetMailbox (SelectedMailbox.name v) false (Ok mbx)) /\
     pre !! 1 = Some (EvGetMailbox "Work" true (Ok dest_mbx)) /\
     signals_once_before_refresh world (copy_messages 0 uid_9 "Work" world).2
       dest_mbx pre (_load_updates (Some 0) (Some mbx)) (Some 0)) /\
  ((update_flags 0 uid_9 {[Seen]} ADD world).1 = Ok ([(0%N, 9%N, ∅)], Some 0) /\
   signals (trace (update_flags 0 uid_9 {[Seen]} ADD world).2) = ["INBOX"%string] /\
   loaded (update_flags 0 uid_9 {[Seen]} ADD world).2 = [] /\
   exists v mbx pre,
     views world !! 0 = Some v /\
     head pre = Some (EvGetMailbox (SelectedMailbox.name v) false (Ok mbx)) /\
     signals_once_before_refresh world (update_flags 0 uid_9 {[Seen]} ADD world).2
       mbx pre (_load_updates (Some 0) (Some mbx)) (Some 0)).
Proof.
  destruct (update_event_set_once world) as (Happend & Hexpunge & Hcopy & Hstore).
  split; [|split; [|split; [|split]]].
  - assert (Hrun : (append_messages "INBOX" [] (Some 0) world).1 =
                   Ok (mkAppendUid 7 [], Some 0)).
    { vm_cast_no_check (eq_refl (Ok (mkAppendUid 7 [], Some 0))). }
    split; [exact Hrun|]. split.
    { vm_cast_no_check (eq_refl ["INBOX"%string]). }
    exact (Happend "INBOX" [] (Some 0) _ _ _ (outcome_eq _ _ Hrun)).
  - assert (Hrun : (expunge_mailbox 0 (Some uid_1) world).1 = Ok (Some 0)).
    { vm_cast_no_check (eq_refl (Ok (Some 0) : result (option nat))). }
    split; [exact Hrun|]. split.
    { vm_cast_no_check (eq_refl ["INBOX"%string]). }
    split.
    { vm_cast_no_check (eq_refl [("INBOX"%string, @nil N)]). }
    exact (Hexpunge 0 (Some uid_1) _ _ (outcome_eq _ _ Hrun)).
  - assert (Hrun : (expunge_mailbox 0 None world).1 = Ok (Some 0)).
    { vm_cast_no_check (eq_refl (Ok (Some 0) : result (option nat))). }
    split; [exact Hrun|]. split.
    { vm_cast_no_check (eq_refl ["INBOX"%string]). }
    split.
    { vm_cast_no_check (eq_refl [("INBOX"%string, [2%N])]). }
    exact (Hexpunge 0 None _ _ (outcome_eq _ _ Hrun)).
  - assert (Hrun : (copy_messages 0 uid_9 "Work" world).1 = Ok (mkCopyUid 5 [], Some 0)).
    { vm_cast_no_check (eq_refl (Ok (mkCopyUid 5 [], Some 0))). }
    split; [exact Hrun|]. split.
    { vm_cast_no_check (eq_refl ["Work"%string]). }
    split.
    { vm_cast_no_check (eq_refl (@nil (string * Message.t * bool * result Message.t))). }
    exact (Hcopy 0 uid_9 "Work" _ _ _ (outcome_eq _ _ Hrun)).
  - assert (Hrun : (update_flags 0 uid_9 {[Seen]} ADD world).1 =
                   Ok ([(0%N, 9%N, ∅)], Some 0)).
    { vm_cast_no_check (eq_refl (Ok ([(0%N, 9%N, (∅ : gset Flag))], Some 0))). }
    split; [exact Hrun|]. split.
    { vm_cast_no_check (eq_refl ["INBOX"%string]). }
    split.
    { vm_cast_no_check (eq_refl (@nil Message.t)). }
    exact (Hstore 0 uid_9 {[Seen]} ADD _ _ _ (outcome_eq _ _ Hrun)).
Defined.

(** C7 on the reference backend.  Message 3 of [INBOX] has no flag; a FETCH
    of it with an attribute that sets [\Seen] adds the flag to the loaded
    message object, and hands [save_flags] one argument, a generator, where
    it takes the messages to save as its arguments: the message the
    mailbox holds is left without the flag. *)
Lemma fetch_hands_save_flags_a_generator :
  (fetch_messages 0 uid_3 [mkFetchAttribute "BODY[]"%bytes true] world).1 =
    Ok ([(3%N, 0)], Some 0) /\
  trace (fetch_messages 0 uid_3 [mkFetchAttribute "BODY[]"%bytes true] world).2 !! 1 =
    Some (EvFind "INBOX" uid_3 view0
            (Ok [(3%N, 3%N, Some (Message.mk 3 ∅ false "three"%bytes))])) /\
  loaded (fetch_messages 0 uid_3 [mkFetchAttribute "BODY[]"%bytes true] world).2 =
    [Message.mk 3 {[Seen]} false "three"%bytes] /\
  saves (trace (fetch_messages 0 uid_3 [mkFetchAttribute "BODY[]"%bytes true] world).2) =
    [("INBOX"%string, [SaveGenerator [Message.mk 3 {[Seen]} false "three"%bytes]])] /\
  (SaveMessage (Message.mk 3 {[Seen]} false "three"%bytes) ∉
     [SaveGenerator [Message.mk 3 {[Seen]} false "three"%bytes]]) /\
  messages (mailbox "INBOX"
              (backend (fetch_messages 0 uid_3 [mkFetchAttribute "BODY[]"%bytes true]
                          world).2)) !! 2 =
    Some (Message.mk 3 ∅ false "three"%bytes).
Proof.
  split.
  { vm_cast_no_check (eq_refl (Ok ([(3%N, 0)], Some 0))). }
  split.
  { vm_cast_no_check
      (eq_refl (Some (EvFind "INBOX" uid_3 view0
                        (Ok [(3%N, 3%N, Some (Message.mk 3 ∅ false "three"%bytes))])))). }
  split.
  { vm_cast_no_check (eq_refl [Message.mk 3 {[Seen]} false "three"%bytes]). }
  split.
  { vm_cast_no_check
      (eq_refl [("INBOX"%string,
                 [SaveGenerator [Message.mk 3 {[Seen]} false "three"%bytes]])]). }
  split.
  { intros Hin. apply list_elem_of_singleton in Hin. discriminate Hin. }
  vm_cast_no_check (eq_refl (Some (Message.mk 3 ∅ false "three"%bytes))).
Qed.

(** C2 on the reference backend.  A STORE that adds [\Deleted] to the
    messages 1 and 9 of [INBOX], of which it holds the first: the flag is
    added to the loaded message object, and [save_flags] is handed the two
    triples the command returns, the one of the miss included, and no
    message: the message the mailbox holds is left without the flag. *)
Lemma store_hands_save_flags_the_result_tuples :
  (update_flags 0 uid_1_9 {[Deleted]} ADD world).1 =
    Ok ([(1%N, 1%N, {[Seen; Deleted]}); (0%N, 9%N, ∅)], Some 0) /\
  loaded (update_flags 0 uid_1_9 {[Deleted]} ADD world).2 =
    [Message.mk 1 {[Seen; Deleted]} false "one"%bytes] /\
  saves (trace (update_flags 0 uid_1_9 {[Deleted]} ADD world).2) =
    [("INBOX"%string, [SaveTuple 1 1 {[Seen; Deleted]}; SaveTuple 0 9 ∅])] /\
  (SaveMessage (Message.mk 1 {[Seen; Deleted]} false "one"%bytes) ∉
     [SaveTuple 1 1 {[Seen; Deleted]}; SaveTuple 0 9 ∅]) /\
  messages (mailbox "INBOX"
              (backend (update_flags 0 uid_1_9 {[Deleted]} ADD world).2)) !! 0 =
    Some (Message.mk 1 {[Seen]} false "one"%bytes).
Proof.
  split.
  { vm_cast_no_check
      (eq_refl (Ok ([(1%N, 1%N, ({[Seen; Deleted]} : gset Flag)); (0%N, 9%N, ∅)],
                    Some 0))). }
  split.
  { vm_cast_no_check (eq_refl [Message.mk 1 {[Seen; Deleted]} false "one"%bytes]). }
  split.
  { vm_cast_no_check
      (eq_refl [("INBOX"%string,
                 [SaveTuple 1 1 ({[Seen; Deleted]} : gset Flag); SaveTuple 0 9 ∅])]). }
  split.
  { rewrite !elem_of_cons, elem_of_nil. intros [H|[H|[]]]; discriminate H. }
  vm_cast_no_check (eq_refl (Some (Message.mk 1 {[Seen]} false "one"%bytes))).
Qed.

End SessionExamples.

(** * More properties of the SEARCH key *)

Module SearchKeyExtraFacts.
Import SearchKey RequirementTable SearchKeyFacts FilterTypes.

Lemma spaces_length_replicate n buf :
  drop (spaces_length (replicate n " "%byte ++ buf)) (replicate n " "%byte ++ buf) =
  drop (spaces_length buf) buf.
Proof. induction n as [|n IH]; [reflexivity|exact IH]. Qed.

Lemma key_in_app key l1 l2 : key_in key (l1 ++ l2) = key_in key l1 || key_in key l2.
Proof. apply existsb_app. Qed.

Lemma upper_NOT a b c : upper [a; b; c] = "NOT"%bytes -> is_space a = false.
Proof.
  intros H. destruct (is_space a) eqn:E; [|reflexivity].
  apply bool_decide_eq_true in E. subst a. discriminate H.
Qed.

(** The parse from the keyword on: what the rest of the dispatch makes of
    the atom. *)
Ltac to_keyword H :=
  destruct H as (buf1 & e1 & e2 & Hsp & Hnot & Hseq & He1 & Hlist & He2 & He2' & Hatom);
  cbn [parse]; rewrite Hsp; unfold mbind, result_bind;
  rewrite Hnot, Hseq, He1; cbn [negb]; rewrite Hlist, He2, He2'; cbn [negb];
  rewrite Hatom.

Lemma parse_from_keyword P depth buf params inverse buf2 atom after :
  reaches_keyword P depth buf params inverse buf2 atom after ->
  forall key, upper atom = key ->
  parse P (S depth) buf params =
    (let key := key in
     if key_in key ["ALL"; "ANSWERED"; "DELETED"; "FLAGGED"; "NEW"; "OLD";
                    "RECENT"; "SEEN"; "UNANSWERED"; "UNDELETED";
                    "UNFLAGGED"; "UNSEEN"; "DRAFT"; "UNDRAFT"]%bytes
     then Ok (mk key FNone inverse, after)
     else if key_in key ["BCC"; "BODY"; "CC"; "FROM"; "SUBJECT"; "TEXT";
                         "TO"]%bytes
     then
       '(_, buf) ← Space_parse P after params;
       '(filter_, buf) ← _parse_astring_filter P buf params;
       Ok (mk key (FStr filter_) inverse, buf)
     else if key_in key ["BEFORE"; "ON"; "SINCE"; "SENTBEFORE"; "SENTON";
                         "SENTSINCE"]%bytes
     then
       '(_, buf) ← Space_parse P after params;
       '(filter_, buf) ← _parse_date_filter P buf params;
       Ok (mk key (FDate filter_) inverse, buf)
     else if key_in key ["KEYWORD"; "UNKEYWORD"]%bytes
     then
       '(_, buf) ← Space_parse P after params;
       '(flag, after_buf) ← Flag_parse P buf params;
       if is_system flag then Raise (NotParseable buf)
       else Ok (mk key (FFlag flag) inverse, after_buf)
     else if key_in key ["LARGER"; "SMALLER"]%bytes
     then
       '(_, buf) ← Space_parse P after params;
       '(num, buf) ← Number_parse P buf params;
       Ok (mk key (FInt num) inverse, buf)
     else if bytes_eqb key "UID"%bytes
     then
       '(_, buf) ← Space_parse P after params;
       '(seq_set, buf) ← SequenceSet_parse P buf (copy_uid params);
       Ok (mk "SEQSET"%bytes (FSeqSet seq_set) inverse, buf)
     else if bytes_eqb key "HEADER"%bytes
     then
       '(_, buf) ← Space_parse P after params;
       '(header_field, buf) ← _parse_astring_filter P buf params;
       '(_, buf) ← Space_parse P buf params;
       '(header_value, buf) ← _parse_astring_filter P buf params;
       Ok (mk key (FHeader header_field header_value) inverse, buf)
     else if bytes_eqb key "OR"%bytes
     then
       '(_, buf) ← Space_parse P after params;
       '(or1, buf) ← parse P depth buf params;
       '(_, buf) ← Space_parse P buf params;
       '(or2, buf) ← parse P depth buf params;
       Ok (mk key (FKeyOr or1 or2) inverse, buf)
     else Raise (NotParseable buf2)).
Proof.
  intros H key <-. to_keyword H. reflexivity.
Qed.

End SearchKeyExtraFacts.

Module SearchKeyExtras.
Import SearchKey RequirementTable SearchKeyFacts FilterTypes SearchKeyExtraFacts.

(** X1.  Every key the parser builds holds the kind of filter its keyword
    calls for, and so does every key nested in it: nothing under the keys
    that stand alone, a string under [BCC], [BODY], [CC], [FROM], [SUBJECT],
    [TEXT] and [TO], a date under the six date keys, a flag that is no
    system flag under [KEYWORD] and [UNKEYWORD], a number under [LARGER] and
    [SMALLER], a sequence set under [SEQSET], two strings under [HEADER],
    two keys under [OR] and a list of keys under [KEYSET].  The items of a
    list are taken to come from the item parser. *)
Theorem parse_filter_typed P depth buf params k rest :
  ListP_items_parsed P ->
  parse P depth buf params = Ok (k, rest) ->
  filter_typed k = true.
Proof.
  intros HP. revert buf params k rest.
  induction depth as [|depth IH]; intros buf params k rest H.
  { discriminate H. }
  simpl in H. unfold mbind, result_bind in H.
  repeat parse_step; cbn [filter_typed];
    try assumption; try reflexivity.
  all: try (rewrite ?andb_true_iff; splits;
            first [assumption | reflexivity | eapply IH; eassumption
                  | apply negb_true_iff; assumption]).
  all: rewrite andb_true_iff; split; [reflexivity|];
       match goal with
       | E : ListP_parse _ _ _ _ = Ok _ |- _ => apply HP in E; revert E
       end;
    rewrite forallb_forall, List.Forall_forall; intros Hitems k' Hk';
    destruct (Hitems k' Hk') as (b' & p' & r' & Hk); eapply IH, Hk.
Qed.

(** X2.  With a [Space] parser that consumes a run of spaces, any number of
    leading spaces leaves the result of the parse as it is, and the [NOT]
    prefix is read in any case and with any positive number of spaces after
    it: such a buffer parses as the one with [NOT] and a single space in
    its place. *)
Theorem spaces_and_case_of_NOT P depth buf params :
  Space_consumes_spaces P ->
  (forall n, parse P depth (replicate n " "%byte ++ buf) params = parse P depth buf params) /\
  (forall a b c n,
     upper [a; b; c] = "NOT"%bytes ->
     parse P depth ([a; b; c] ++ replicate (S n) " "%byte ++ buf) params =
     parse P depth ("NOT "%bytes ++ buf) params).
Proof.
  intros HP. split.
  - intros n. destruct depth as [|depth]; [reflexivity|].
    cbn [parse]. rewrite !optional_space_drop by exact HP.
    rewrite spaces_length_replicate. reflexivity.
  - intros a b c n Hnot. destruct depth as [|depth]; [reflexivity|].
    cbn [parse]. rewrite !optional_space_drop by exact HP.
    change (spaces_length ("NOT "%bytes ++ buf)) with 0.
    assert (Hsp : spaces_length ([a; b; c] ++ replicate (S n) " "%byte ++ buf) = 0).
    { cbn. rewrite (upper_NOT a b c Hnot). reflexivity. }
    rewrite Hsp, !drop_0. unfold mbind, result_bind.
    rewrite not_prefix_NOT.
    assert (Hpre : not_prefix ([a; b; c] ++ replicate (S n) " "%byte ++ buf) =
                   (true, drop (spaces_length buf) buf)).
    { unfold not_prefix, _not_pattern_match.
      change (take 3 ([a; b; c] ++ replicate (S n) " "%byte ++ buf)) with [a; b; c].
      rewrite Hnot.
      change (drop 3 ([a; b; c] ++ replicate (S n) " "%byte ++ buf))
        with (" "%byte :: replicate n " "%byte ++ buf).
      change (bytes_eqb "NOT"%bytes "NOT"%bytes) with true. cbv iota.
      change (spaces_length (" "%byte :: replicate n " "%byte ++ buf))
        with (S (spaces_length (replicate n " "%byte ++ buf))).
      cbv iota beta.
      change (drop (3 + S (spaces_length (replicate n " "%byte ++ buf)))
                ([a; b; c] ++ replicate (S n) " "%byte ++ buf))
        with (drop (spaces_length (replicate n " "%byte ++ buf))
                (replicate n " "%byte ++ buf)).
      rewrite spaces_length_replicate. reflexivity. }
    rewrite Hpre. reflexivity.
Qed.

(** X3.  The inverse bit of a parsed key is set exactly when the buffer,
    after its optional leading spaces, matches the pattern [NOT +]: nothing
    else in the parser sets it, whatever the key holds. *)
Theorem inverse_iff_NOT_prefix P depth buf params k rest :
  parse P depth buf params = Ok (k, rest) ->
  exists buf1,
    optional_space P buf params = Ok buf1 /\
    inverse k = (not_prefix buf1).1 /\
    (inverse k = true <-> is_Some (_not_pattern_match buf1)).
Proof.
  intros H. destruct depth as [|depth]; [discriminate H|].
  cbn [parse] in H. unfold mbind, result_bind in H.
  destruct (optional_space P buf params) as [buf1|e] eqn:Esp; [|discriminate H].
  exists buf1. split; [reflexivity|].
  assert (Hinv : inverse k = (not_prefix buf1).1).
  { destruct (not_prefix buf1) as [inv buf2]. repeat parse_step; reflexivity. }
  split; [exact Hinv|]. rewrite Hinv. unfold not_prefix.
  destruct (_not_pattern_match buf1) as [n|]; cbn; split.
  - eauto.
  - reflexivity.
  - discriminate.
  - intros [x Hx]. discriminate Hx.
Qed.

(** X4.  When the buffer is no sequence set and no list and its atom,
    upper-cased, is none of the keywords of the dispatch, the parse raises
    [NotParseable] on the buffer as it stood before the atom: after the
    spaces and the [NOT], with the atom still in it. *)
Theorem unknown_atom_is_not_parseable P depth buf params inverse buf2 atom after :
  reaches_keyword P depth buf params inverse buf2 atom after ->
  key_in (upper atom) keywords = false ->
  parse P (S depth) buf params = Raise (NotParseable buf2).
Proof.
  intros H Hkey. rewrite (parse_from_keyword _ _ _ _ _ _ _ _ H _ eq_refl). cbv zeta.
  change keywords
    with (["ALL"; "ANSWERED"; "DELETED"; "FLAGGED"; "NEW"; "OLD"; "RECENT"; "SEEN";
           "UNANSWERED"; "UNDELETED"; "UNFLAGGED"; "UNSEEN"; "DRAFT"; "UNDRAFT"]%bytes
          ++ ["BCC"; "BODY"; "CC"; "FROM"; "SUBJECT"; "TEXT"; "TO"]%bytes
          ++ ["BEFORE"; "ON"; "SINCE"; "SENTBEFORE"; "SENTON"; "SENTSINCE"]%bytes
          ++ ["KEYWORD"; "UNKEYWORD"]%bytes ++ ["LARGER"; "SMALLER"]%bytes
          ++ ["UID"; "HEADER"; "OR"]%bytes) in Hkey.
  rewrite !key_in_app, !orb_false_iff in Hkey.
  destruct Hkey as (H1 & H2 & H3 & H4 & H5 & H6).
  cbn [key_in existsb] in H6. rewrite !orb_false_iff in H6.
  destruct H6 as (H6 & H7 & H8 & _).
  rewrite H1, H2, H3, H4, H5, H6, H7, H8. reflexivity.
Qed.

(** X5.  An [UnexpectedType] from the list parser is raised again as it
    is, although it is a [NotParseable]: of the errors of the list parser
    only the other [NotParseable] ones send the parse on to the keywords. *)
Theorem UnexpectedType_escapes_from_the_list P depth buf params buf1 inverse buf2 e1 e2 :
  optional_space P buf params = Ok buf1 ->
  not_prefix buf1 = (inverse, buf2) ->
  SequenceSet_parse P buf2 params = Raise e1 ->
  is_NotParseable e1 = true ->
  ListP_parse P (parse P depth) buf2 params = Raise e2 ->
  is_UnexpectedType e2 = true ->
  parse P (S depth) buf params = Raise e2 /\
  is_NotParseable e2 = true.
Proof.
  intros Hsp Hnot Hseq He1 Hlist He2. split.
  - cbn [parse]. rewrite Hsp. unfold mbind, result_bind.
    rewrite Hnot, Hseq, He1. cbn [negb]. rewrite Hlist, He2. reflexivity.
  - destruct e2; try discriminate He2. reflexivity.
Qed.

(** X6.  The keys [BCC], [BODY], [CC], [FROM], [SUBJECT], [TEXT] and [TO]
    read a space and an astring and decode its bytes with the charset of
    the parameters, or with ascii when there is none or it is empty.  The
    decoded string is the filter; what decoding raises is what the parse
    raises. *)
Theorem string_keys_decode_with_charset_or_ascii
  P depth buf params inverse buf2 atom after buf3 value rest :
  reaches_keyword P depth buf params inverse buf2 atom after ->
  key_in (upper atom) ["BCC"; "BODY"; "CC"; "FROM"; "SUBJECT"; "TEXT"; "TO"]%bytes = true ->
  Space_parse P after params = Ok (tt, buf3) ->
  AString_parse P buf3 params = Ok (value, rest) ->
  parse P (S depth) buf params =
    match decode P value (charset_or_ascii params) with
    | Ok filter_ => Ok (mk (upper atom) (FStr filter_) inverse, rest)
    | Raise e => Raise e
    end.
Proof.
  intros H Hkey Hspace Hastring.
  rewrite (parse_from_keyword _ _ _ _ _ _ _ _ H _ eq_refl). cbv zeta.
  replace (key_in (upper atom) _) with false.
  2:{ symmetry. apply key_in_false. intros Hin. apply key_in_true in Hkey.
      revert Hkey Hin. generalize (upper atom). intros key.
      rewrite !elem_of_cons, !elem_of_nil. intuition (subst; discriminate). }
  rewrite Hkey. unfold mbind, result_bind. rewrite Hspace.
  unfold _parse_astring_filter, mbind, result_bind. rewrite Hastring.
  unfold charset_or_ascii.
  destruct (decode P value _); reflexivity.
Qed.

(** X7.  The six date keys read a space and an atom or quoted string, drop
    the bytes of it that are not ASCII and read the rest as a date in the
    format [%d-%b-%Y], which is the filter.  When it is no such date the
    parse raises [NotParseable] on the buffer that starts at the date. *)
Theorem date_keys_read_the_date P depth buf params inverse buf2 atom after buf3 value rest :
  reaches_keyword P depth buf params inverse buf2 atom after ->
  key_in (upper atom) ["BEFORE"; "ON"; "SINCE"; "SENTBEFORE"; "SENTON";
                       "SENTSINCE"]%bytes = true ->
  Space_parse P after params = Ok (tt, buf3) ->
  ExpectedParseable_parse P buf3 params = Ok (value, rest) ->
  parse P (S depth) buf params =
    match strptime P (str_ascii_ignore value) with
    | Some date => Ok (mk (upper atom) (FDate date) inverse, rest)
    | None => Raise (NotParseable buf3)
    end.
Proof.
  intros H Hkey Hspace Hvalue.
  rewrite (parse_from_keyword _ _ _ _ _ _ _ _ H _ eq_refl). cbv zeta.
  replace (key_in (upper atom) _) with false.
  2:{ symmetry. apply key_in_false. intros Hin. apply key_in_true in Hkey.
      revert Hkey Hin. generalize (upper atom). intros key.
      rewrite !elem_of_cons, !elem_of_nil. intuition (subst; discriminate). }
  replace (key_in (upper atom) _) with false.
  2:{ symmetry. apply key_in_false. intros Hin. apply key_in_true in Hkey.
      revert Hkey Hin. generalize (upper atom). intros key.
      rewrite !elem_of_cons, !elem_of_nil. intuition (subst; discriminate). }
  rewrite Hkey. unfold mbind, result_bind. rewrite Hspace.
  unfold _parse_date_filter, mbind, result_bind. rewrite Hvalue.
  destruct (strptime P _); reflexivity.
Qed.

(** X8.  Sequence sets come first: a buffer that, after the spaces and the
    [NOT], starts with a sequence set gives a [SEQSET] key, before a list
    or a keyword is looked for.  The keyword [UID] followed by a space
    reads a sequence set with [uid=True] and gives a [SEQSET] key as well;
    what the sequence-set parser raises there is what the parse raises. *)
Theorem sequence_sets_first_and_UID_sets P depth buf params :
  (forall buf1 inverse buf2 seq_set rest,
     optional_space P buf params = Ok buf1 ->
     not_prefix buf1 = (inverse, buf2) ->
     SequenceSet_parse P buf2 params = Ok (seq_set, rest) ->
     parse P (S depth) buf params =
       Ok (mk "SEQSET"%bytes (FSeqSet seq_set) inverse, rest)) /\
  (forall inverse buf2 atom after buf3,
     reaches_keyword P depth buf params inverse buf2 atom after ->
     upper atom = "UID"%bytes ->
     Space_parse P after params = Ok (tt, buf3) ->
     parse P (S depth) buf params =
       match SequenceSet_parse P buf3 (copy_uid params) with
       | Ok (seq_set, rest) => Ok (mk "SEQSET"%bytes (FSeqSet seq_set) inverse, rest)
       | Raise e => Raise e
       end).
Proof.
  split.
  - intros buf1 inverse buf2 seq_set rest Hsp Hnot Hseq.
    cbn [parse]. rewrite Hsp. unfold mbind, result_bind. rewrite Hnot, Hseq.
    reflexivity.
  - intros inverse buf2 atom after buf3 H Hkey Hspace.
    rewrite (parse_from_keyword _ _ _ _ _ _ _ _ H _ Hkey). cbv zeta.
    change (key_in "UID"%bytes _) with false. cbv iota.
    change (bytes_eqb "UID"%bytes "UID"%bytes) with true. cbv iota.
    unfold mbind, result_bind. rewrite Hspace.
    destruct (SequenceSet_parse P buf3 (copy_uid params)) as [[seq_set rest]|e];
      reflexivity.
Qed.

Lemma parse_filter_typed_witness :
  Imap.parse "(UID 2:4 NOT KEYWORD $Junk) x"%bytes =
    Ok (mk "KEYSET"%bytes
           (FKeyList [mk "SEQSET"%bytes
                        (FSeqSet (mkSequenceSet [SeqRange (SeqN 2) (SeqN 4)] true)) false;
                     mk "KEYWORD"%bytes (FFlag "$Junk"%bytes) true])
           false, " x"%bytes) /\
  filter_typed
    (mk "KEYSET"%bytes
        (FKeyList [mk "SEQSET"%bytes
                     (FSeqSet (mkSequenceSet [SeqRange (SeqN 2) (SeqN 4)] true)) false;
                  mk "KEYWORD"%bytes (FFlag "$Junk"%bytes) true])
        false) = true.
Proof.
  split; [vm_compute; reflexivity|].
  apply (parse_filter_typed Imap.primitives 16 "(UID 2:4 NOT KEYWORD $Junk) x"%bytes
           Imap.params _ " x"%bytes).
  - exact Imap_ListP_items_parsed.
  - vm_compute. reflexivity.
Defined.

Lemma spaces_and_case_of_NOT_witness :
  Imap.parse ("   "%bytes ++ "Larger 10 rest"%bytes) = Imap.parse "Larger 10 rest"%bytes /\
  Imap.parse ("nOt"%bytes ++ "   "%bytes ++ "Larger 10 rest"%bytes) =
    Imap.parse ("NOT "%bytes ++ "Larger 10 rest"%bytes) /\
  Imap.parse ("NOT "%bytes ++ "Larger 10 rest"%bytes) =
    Ok (mk "LARGER"%bytes (FInt 10) true, " rest"%bytes).
Proof.
  destruct (spaces_and_case_of_NOT Imap.primitives 16 "Larger 10 rest"%bytes Imap.params
              Imap_Space_consumes_spaces) as [Hspaces Hcase].
  split; [exact (Hspaces 3)|].
  split; [exact (Hcase "n"%byte "O"%byte "t"%byte 2 eq_refl)|].
  vm_compute. reflexivity.
Defined.

Lemma inverse_iff_NOT_prefix_witness :
  exists buf1,
    optional_space Imap.primitives "  (NOT SEEN) x"%bytes Imap.params = Ok buf1 /\
    inverse (mk "KEYSET"%bytes (FKeyList [mk "SEEN"%bytes FNone true]) false) =
      (not_prefix buf1).1 /\
    (inverse (mk "KEYSET"%bytes (FKeyList [mk "SEEN"%bytes FNone true]) false) = true <->
     is_Some (_not_pattern_match buf1)).
Proof.
  apply (inverse_iff_NOT_prefix Imap.primitives 16 "  (NOT SEEN) x"%bytes Imap.params
           _ " x"%bytes).
  vm_compute. reflexivity.
Defined.

Lemma unknown_atom_is_not_parseable_witness :
  Imap.parse " NOT FOO bar"%bytes = Raise (NotParseable "FOO bar"%bytes).
Proof.
  apply (unknown_atom_is_not_parseable Imap.primitives 15 " NOT FOO bar"%bytes
           Imap.params true "FOO bar"%bytes "FOO"%bytes " bar"%bytes).
  - exists "NOT FOO bar"%bytes, (NotParseable "FOO bar"%bytes),
      (NotParseable "FOO bar"%bytes).
    splits; reflexivity.
  - reflexivity.
Defined.

Lemma UnexpectedType_escapes_from_the_list_witness :
  Imap.parse "NOT (SEEN FOO) x"%bytes = Raise (UnexpectedType " FOO) x"%bytes) /\
  is_NotParseable (UnexpectedType " FOO) x"%bytes) = true.
Proof.
  apply (UnexpectedType_escapes_from_the_list Imap.primitives 15
           "NOT (SEEN FOO) x"%bytes Imap.params
           "NOT (SEEN FOO) x"%bytes true "(SEEN FOO) x"%bytes
           (NotParseable "(SEEN FOO) x"%bytes) (UnexpectedType " FOO) x"%bytes));
    reflexivity.
Defined.

Lemma string_keys_decode_with_charset_or_ascii_witness :
  Imap.parse ("subject "%bytes ++ [dquote; xe9; dquote]) = Raise UnicodeDecodeError /\
  parse Imap.primitives 16 "FROM bob x"%bytes (mkParams (Some "utf-8"%string) false) =
    Ok (mk "FROM"%bytes (FStr "bob") false, " x"%bytes) /\
  parse Imap.primitives 16 "FROM bob x"%bytes (mkParams (Some EmptyString) false) =
    Ok (mk "FROM"%bytes (FStr "bob") false, " x"%bytes) /\
  parse Imap.primitives 16 "FROM bob x"%bytes
        (mkParams (Some "no-such-codec"%string) false) = Raise LookupError.
Proof.
  assert (Hbob : forall params,
    reaches_keyword Imap.primitives 15 "FROM bob x"%bytes params false
      "FROM bob x"%bytes "FROM"%bytes " bob x"%bytes).
  { intros params.
    exists "FROM bob x"%bytes, (NotParseable "FROM bob x"%bytes),
      (NotParseable "FROM bob x"%bytes).
    splits; reflexivity. }
  split; [|split; [|split]].
  - apply (string_keys_decode_with_charset_or_ascii Imap.primitives 15
             ("subject "%bytes ++ [dquote; xe9; dquote]) Imap.params false
             ("subject "%bytes ++ [dquote; xe9; dquote]) "subject"%bytes
             (" "%bytes ++ [dquote; xe9; dquote]) [dquote; xe9; dquote] [xe9] []).
    + exists ("subject "%bytes ++ [dquote; xe9; dquote]),
        (NotParseable ("subject "%bytes ++ [dquote; xe9; dquote])),
        (NotParseable ("subject "%bytes ++ [dquote; xe9; dquote])).
      splits; reflexivity.
    + reflexivity.
    + reflexivity.
    + reflexivity.
  - apply (string_keys_decode_with_charset_or_ascii Imap.primitives 15
             "FROM bob x"%bytes (mkParams (Some "utf-8"%string) false) false
             "FROM bob x"%bytes "FROM"%bytes " bob x"%bytes "bob x"%bytes "bob"%bytes
             " x"%bytes (Hbob _)); reflexivity.
  - apply (string_keys_decode_with_charset_or_ascii Imap.primitives 15
             "FROM bob x"%bytes (mkParams (Some EmptyString) false) false
             "FROM bob x"%bytes "FROM"%bytes " bob x"%bytes "bob x"%bytes "bob"%bytes
             " x"%bytes (Hbob _)); reflexivity.
  - apply (string_keys_decode_with_charset_or_ascii Imap.primitives 15
             "FROM bob x"%bytes (mkParams (Some "no-such-codec"%string) false) false
             "FROM bob x"%bytes "FROM"%bytes " bob x"%bytes "bob x"%bytes "bob"%bytes
             " x"%bytes (Hbob _)); reflexivity.
Defined.

Lemma date_keys_read_the_date_witness :
  Imap.parse "SINCE 31-Feb-2020"%bytes = Raise (NotParseable "31-Feb-2020"%bytes) /\
  Imap.parse "not before 1-jan-2020 x"%bytes =
    Ok (mk "BEFORE"%bytes (FDate (mkDate 2020 1 1)) true, " x"%bytes).
Proof.
  split.
  - apply (date_keys_read_the_date Imap.primitives 15 "SINCE 31-Feb-2020"%bytes
             Imap.params false "SINCE 31-Feb-2020"%bytes "SINCE"%bytes
             " 31-Feb-2020"%bytes "31-Feb-2020"%bytes "31-Feb-2020"%bytes []).
    + exists "SINCE 31-Feb-2020"%bytes, (NotParseable "SINCE 31-Feb-2020"%bytes),
        (NotParseable "SINCE 31-Feb-2020"%bytes).
      splits; reflexivity.
    + reflexivity.
    + reflexivity.
    + reflexivity.
  - apply (date_keys_read_the_date Imap.primitives 15 "not before 1-jan-2020 x"%bytes
             Imap.params true "before 1-jan-2020 x"%bytes "before"%bytes
             " 1-jan-2020 x"%bytes "1-jan-2020 x"%bytes "1-jan-2020"%bytes " x"%bytes).
    + exists "not before 1-jan-2020 x"%bytes, (NotParseable "before 1-jan-2020 x"%bytes),
        (NotParseable "before 1-jan-2020 x"%bytes).
      splits; reflexivity.
    + reflexivity.
    + reflexivity.
    + reflexivity.
Defined.

Lemma sequence_sets_first_and_UID_sets_witness :
  Imap.parse "2:4 ALL"%bytes =
    Ok (mk "SEQSET"%bytes (FSeqSet (mkSequenceSet [SeqRange (SeqN 2) (SeqN 4)] false)) false,
        " ALL"%bytes) /\
  Imap.parse "uid 2:4 ALL"%bytes =
    Ok (mk "SEQSET"%bytes (FSeqSet (mkSequenceSet [SeqRange (SeqN 2) (SeqN 4)] true)) false,
        " ALL"%bytes).
Proof.
  split.
  - apply (proj1 (sequence_sets_first_and_UID_sets Imap.primitives 15 "2:4 ALL"%bytes
                    Imap.params) "2:4 ALL"%bytes false "2:4 ALL"%bytes);
      reflexivity.
  - apply (proj2 (sequence_sets_first_and_UID_sets Imap.primitives 15 "uid 2:4 ALL"%bytes
                    Imap.params) false "uid 2:4 ALL"%bytes "uid"%bytes " 2:4 ALL"%bytes
                   "2:4 ALL"%bytes).
    + exists "uid 2:4 ALL"%bytes, (NotParseable "uid 2:4 ALL"%bytes),
        (NotParseable "uid 2:4 ALL"%bytes).
      splits; reflexivity.
    + reflexivity.
    + reflexivity.
Defined.

(** X25.  A key the parser builds from a parenthesised list cannot be
    asked for its requirement.  The parser stores the sub-keys as the
    sequence [ListP.get_as] returns, [filter_key_set] accepts a [frozenset]
    only, and so [requirement] raises [TypeError] for every parsed
    [KEYSET] key and for every parsed [OR] key with one below it; for the
    other parsed keys it returns. *)
Theorem requirement_of_a_parsed_list_raises P depth buf params k rest :
  parse P depth buf params = Ok (k, rest) ->
  (key k = "KEYSET"%bytes ->
   exists keys, filter k = FKeyList keys /\ filter_key_set k = Raise TypeError) /\
  (requirement k = Raise TypeError <-> list_free k = false) /\
  ((exists r, requirement k = Ok r) <-> list_free k = true).
Proof.
  intros H. split; [|split].
  - destruct depth as [|depth]; [discriminate H|].
    simpl in H. unfold mbind, result_bind in H.
    repeat parse_step; cbn [key]; try discriminate; try key_neq.
    intros _. eexists. split; reflexivity.
  - split.
    + intros Hreq. destruct (list_free k) eqn:Hfree; [|reflexivity].
      rewrite (requirement_table k (parse_well_typed _ _ _ _ _ _ H Hfree)) in Hreq.
      discriminate Hreq.
    + apply (parse_list_TypeError _ _ _ _ _ _ H).
  - destruct (list_free k) eqn:Hfree.
    + rewrite (requirement_table k (parse_well_typed _ _ _ _ _ _ H Hfree)).
      split; eauto.
    + rewrite (parse_list_TypeError _ _ _ _ _ _ H Hfree).
      split; [intros [r Hr]; discriminate Hr|discriminate].
Qed.

Lemma requirement_of_a_parsed_list_raises_witness :
  Imap.parse "(SEEN)"%bytes =
    Ok (mk "KEYSET"%bytes (FKeyList [mk "SEEN"%bytes FNone false]) false, []) /\
  filter_key_set (mk "KEYSET"%bytes (FKeyList [mk "SEEN"%bytes FNone false]) false) =
    Raise TypeError /\
  requirement (mk "KEYSET"%bytes (FKeyList [mk "SEEN"%bytes FNone false]) false) =
    Raise TypeError /\
  Imap.parse "OR ALL (SEEN)"%bytes =
    Ok (mk "OR"%bytes
           (FKeyOr (mk "ALL"%bytes FNone false)
                   (mk "KEYSET"%bytes (FKeyList [mk "SEEN"%bytes FNone false]) false))
           false, []) /\
  requirement
    (mk "OR"%bytes
        (FKeyOr (mk "ALL"%bytes FNone false)
                (mk "KEYSET"%bytes (FKeyList [mk "SEEN"%bytes FNone false]) false))
        false) = Raise TypeError.
Proof.
  assert (Hlist : Imap.parse "(SEEN)"%bytes =
            Ok (mk "KEYSET"%bytes (FKeyList [mk "SEEN"%bytes FNone false]) false, []))
    by (vm_compute; reflexivity).
  assert (Hor : Imap.parse "OR ALL (SEEN)"%bytes =
            Ok (mk "OR"%bytes
                   (FKeyOr (mk "ALL"%bytes FNone false)
                           (mk "KEYSET"%bytes (FKeyList [mk "SEEN"%bytes FNone false])
                               false))
                   false, []))
    by (vm_compute; reflexivity).
  destruct (requirement_of_a_parsed_list_raises Imap.primitives 16 "(SEEN)"%bytes
              Imap.params _ [] Hlist) as (Hset & Hraise & _).
  destruct (Hset eq_refl) as (keys & _ & Hfilter).
  destruct (requirement_of_a_parsed_list_raises Imap.primitives 16 "OR ALL (SEEN)"%bytes
              Imap.params _ [] Hor) as (_ & Hraise' & _).
  split; [exact Hlist|]. split; [exact Hfilter|].
  split; [exact (proj2 Hraise eq_refl)|].
  split; [exact Hor|exact (proj2 Hraise' eq_refl)].
Defined.

End SearchKeyExtras.

(** * More properties of the session engine *)

Module SessionExtraFacts.
Import BaseSession SessionFacts SessionReading.
Section facts.
Context {B Mbx : Type} `{!Backend B Mbx}.
Implicit Types (w : World B Mbx) (evs : list (Event Mbx)).
#[local] Existing Instances M_bind M_ret.

Lemma deletes_app evs1 evs2 : deletes (evs1 ++ evs2) = deletes evs1 ++ deletes evs2.
Proof. apply omap_app. Qed.

Lemma refresh_deletes_nothing evs :
  Forall (fun ev => is_refresh ev = true) evs -> deletes evs = [].
Proof.
  induction 1 as [|ev evs Hev _ IH]; [reflexivity|].
  destruct ev; try discriminate Hev; exact IH.
Qed.

Lemma elem_of_deleted_uids (hits : list (N * N * option Message.t)) uid :
  uid ∈ deleted_uids hits <->
  exists seq m, (seq, uid, Some m) ∈ hits /\ Deleted ∈ Message.permanent_flags m.
Proof.
  unfold deleted_uids. rewrite list_elem_of_omap. split.
  - intros ([[seq uid'] [m|]] & Hin & Hsome); [|discriminate].
    destruct (bool_decide (Deleted ∈ Message.permanent_flags m)) eqn:E; [|discriminate].
    injection Hsome as ->. apply bool_decide_eq_true in E. eauto.
  - intros (seq & m & Hin & Hdel). exists (seq, uid, Some m). split; [exact Hin|].
    rewrite bool_decide_eq_true_2 by exact Hdel. reflexivity.
Qed.

End facts.
End SessionExtraFacts.

Module SessionExtras.
Import BaseSession SessionFacts SessionReading SessionExtraFacts.
Section extras.
Context {B Mbx : Type} `{!Backend B Mbx}.
Implicit Types (w : World B Mbx).

(** X9.  A successful refresh returns the view it was given and changes
    nothing else: the loaded messages, the number of views and every other
    view stay as they were, and the refreshed view keeps its name, its
    read-only bit, its permanent flags and its session flags.  Its calls on
    the backend add, save and delete nothing and set no update event. *)
Theorem refresh_changes_only_its_view selected mbx w r w' :
  _load_updates selected mbx w = (Ok r, w') ->
  r = selected /\
  loaded w' = loaded w /\
  length (views w') = length (views w) /\
  (forall other, selected <> Some other -> views w' !! other = views w !! other) /\
  (forall sel v, selected = Some sel -> views w !! sel = Some v ->
     exists v',
       views w' !! sel = Some v' /\
       SelectedMailbox.name v' = SelectedMailbox.name v /\
       SelectedMailbox.readonly v' = SelectedMailbox.readonly v /\
       SelectedMailbox.permanent_flags v' = SelectedMailbox.permanent_flags v /\
       SelectedMailbox.session_flags v' = SelectedMailbox.session_flags v) /\
  exists evs,
    trace w' = trace w ++ evs /\
    Forall (fun ev => is_mutation ev = false) evs /\
    signals evs = [].
Proof.
  intros H.
  apply load_updates_Ok in H as (-> & evs & f & Htr & Hevs & Hb & Hl & Hf & Hvs).
  apply refresh_quiet in Hevs as (Hs1 & _ & _ & _ & Hs5).
  splits; auto.
  - rewrite Hvs. destruct selected; [apply length_alter|reflexivity].
  - intros other Hne. rewrite Hvs. destruct selected as [sel|]; [|reflexivity].
    apply list_lookup_alter_ne. congruence.
  - intros sel v -> Hv. exists (f v). rewrite Hvs, list_lookup_alter_eq, Hv.
    destruct (Hf v) as (? & ? & ? & ?). splits; auto.
  - exists evs. splits; auto.
Qed.

(** X10.  A successful FETCH looks the messages up with [find], loads one
    object for every message found, and never adds, deletes or sets the
    update event.  On a read-only view, or when no attribute sets [\Seen],
    it does not call [save_flags] either and the loaded objects are the
    found messages as the backend gave them. *)
Theorem fetch_never_signals sel sequence_set attributes w ret sel' w' :
  fetch_messages sel sequence_set attributes w = (Ok (ret, sel'), w') ->
  exists v mbx hits evs,
    views w !! sel = Some v /\
    trace w' = trace w ++ evs /\
    EvFind mbx sequence_set v (Ok hits) ∈ evs /\
    signals evs = [] /\
    adds evs = [] /\
    deletes evs = [] /\
    length (loaded w') = length (loaded w) + length (found hits) /\
    (SelectedMailbox.readonly v = true \/ existsb set_seen attributes = false ->
     saves evs = [] /\ loaded w' = loaded w ++ found hits).
Proof.
  intros H.
  apply fetch_messages_Ok in H
    as (v & mbx & b1 & hits & b2 & Hv & Hget & Hfind & -> & H).
  cbv zeta in H.
  destruct (negb (SelectedMailbox.readonly v) && existsb set_seen attributes) eqn:Econd.
  - destruct H as (b3 & Hsave & Hload).
    apply load_updates_Ok in Hload
      as (_ & post & f & Htr & Hpost & Hb & Hl & Hf & Hvs).
    pose proof (refresh_deletes_nothing _ Hpost) as Hd.
    apply refresh_quiet in Hpost as (Hs1 & Hs2 & Hs3 & Hs4 & Hs5).
    cbn [backend views loaded trace] in *.
    exists v, mbx, hits,
      (EvGetMailbox (SelectedMailbox.name v) false (Ok mbx)
       :: EvFind mbx sequence_set v (Ok hits)
       :: EvSaveFlags mbx [SaveGenerator (map (Message.add_flag Seen) (found hits))] (Ok tt)
       :: post).
    splits.
    + exact Hv.
    + rewrite Htr, <- !app_assoc. reflexivity.
    + rewrite !elem_of_cons. auto.
    + exact Hs1.
    + exact Hs2.
    + exact Hd.
    + rewrite Hl, length_app, length_map. reflexivity.
    + apply andb_true_iff in Econd as [Hro Hseen].
      apply negb_true_iff in Hro. intros [Hro'|Hseen']; congruence.
  - apply load_updates_Ok in H
      as (_ & post & f & Htr & Hpost & Hb & Hl & Hf & Hvs).
    pose proof (refresh_deletes_nothing _ Hpost) as Hd.
    apply refresh_quiet in Hpost as (Hs1 & Hs2 & Hs3 & Hs4 & Hs5).
    cbn [backend views loaded trace] in *.
    exists v, mbx, hits,
      (EvGetMailbox (SelectedMailbox.name v) false (Ok mbx)
       :: EvFind mbx sequence_set v (Ok hits) :: post).
    splits.
    + exact Hv.
    + rewrite Htr, <- !app_assoc. reflexivity.
    + rewrite !elem_of_cons. auto.
    + exact Hs1.
    + exact Hs2.
    + exact Hd.
    + rewrite Hl, length_app. reflexivity.
    + intros _. split; [exact Hs4|exact Hl].
Qed.

(** X11.  A successful EXPUNGE calls [find] with the given UID set, or
    with the set of all UIDs when none is given, then [delete] once, with
    exactly the UIDs of the found messages whose permanent flags hold
    [\Deleted], then sets the update event and refreshes; the refresh
    mutates nothing. *)
Theorem expunge_deletes_flagged sel uid_set w sel' w' :
  expunge_mailbox sel uid_set w = (Ok sel', w') ->
  exists v mbx hits post,
    views w !! sel = Some v /\
    let uids := default (SequenceSet_all true) uid_set in
    trace w' = trace w ++ [EvGetMailbox (SelectedMailbox.name v) false (Ok mbx);
                           EvFind mbx uids v (Ok hits);
                           EvDelete mbx (deleted_uids hits) (Ok tt);
                           EvUpdatedSet mbx] ++ post /\
    Forall (fun ev => is_mutation ev = false) post /\
    (forall uid, uid ∈ deleted_uids hits <->
       exists seq m, (seq, uid, Some m) ∈ hits /\ Deleted ∈ Message.permanent_flags m) /\
    loaded w' = loaded w ++ found hits.
Proof.
  intros H.
  apply expunge_mailbox_Ok in H
    as (v & mbx & b1 & hits & b2 & b3 & Hv & Hro & Hget & Hfind & Hdel & Hload).
  cbv zeta in Hload.
  apply load_updates_Ok in Hload
    as (_ & post & f & Htr & Hpost & Hb & Hl & Hf & Hvs).
  apply refresh_quiet in Hpost as (_ & _ & _ & _ & Hs5).
  cbn [backend views loaded trace] in *.
  exists v, mbx, hits, post. cbv zeta. splits.
  - exact Hv.
  - rewrite Htr, <- !app_assoc. reflexivity.
  - exact Hs5.
  - apply elem_of_deleted_uids.
  - exact Hl.
Qed.

(** X12.  COPY into a read-only destination raises [MailboxReadOnly] with
    the name of the destination.  It has then resolved the source and the
    destination, the latter with [try_create=True], and done nothing else:
    no message is looked up or added, and the views and the loaded messages
    are untouched. *)
Theorem copy_to_readonly_destination_raises sel v sequence_set mailbox mbx b1 dest b2 w :
  views w !! sel = Some v ->
  be_get_mailbox (SelectedMailbox.name v) false (backend w) = (Ok mbx, b1) ->
  be_get_mailbox mailbox true b1 = (Ok dest, b2) ->
  be_readonly dest b2 = true ->
  copy_messages sel sequence_set mailbox w =
    (Raise (MailboxReadOnly mailbox),
     mkWorld b2 (views w) (loaded w)
             (trace w ++ [EvGetMailbox (SelectedMailbox.name v) false (Ok mbx);
                          EvGetMailbox mailbox true (Ok dest)])).
Proof.
  intros Hv Hget Hget2 Hro.
  unfold copy_messages, mbind, M_bind. rewrite (view_lookup _ _ _ Hv).
  unfold get_mailbox, call, attr. rewrite Hget. cbn [backend views loaded trace].
  rewrite Hget2. cbn [backend views loaded trace]. rewrite Hro.
  rewrite <- app_assoc. reflexivity.
Qed.

(** X13.  A successful STORE calls [save_flags] exactly once, and hands it
    the tuples (sequence number, UID, flags) it returns: one for every item
    [find] yields, in that order, the items without a message included. *)
Theorem store_saves_result_tuples sel sequence_set flag_set mode w messages sel' w' :
  update_flags sel sequence_set flag_set mode w = (Ok (messages, sel'), w') ->
  exists v mbx hits evs,
    views w !! sel = Some v /\
    trace w' = trace w ++ evs /\
    EvFind mbx sequence_set v (Ok hits) ∈ evs /\
    saves evs = [(mbx, map (fun '(seq, uid, flags) => SaveTuple seq uid flags) messages)] /\
    messages.*1 = hits.*1.
Proof.
  intros H.
  apply update_flags_Ok in H
    as (v & mbx & b1 & hits & b2 & b3 & Hv & Hro & Hget & Hfind & Hmsgs & Hsave & Hload).
  cbv zeta in *.
  apply load_updates_Ok in Hload
    as (_ & post & f & Htr & Hpost & Hb & Hl & Hf & Hvs).
  apply refresh_quiet in Hpost as (_ & _ & _ & Hs4 & _).
  cbn [backend views loaded trace] in *.
  exists v, mbx, hits,
    (EvGetMailbox (SelectedMailbox.name v) false (Ok mbx)
     :: EvFind mbx sequence_set v (Ok hits)
     :: EvSaveFlags mbx (map (fun '(seq, uid, flags) => SaveTuple seq uid flags) messages)
                    (Ok tt)
     :: EvUpdatedSet mbx :: post).
  splits.
  - exact Hv.
  - rewrite Htr, <- !app_assoc. reflexivity.
  - rewrite !elem_of_cons. auto.
  - cbn [saves omap list_omap]. unfold saves in Hs4. rewrite Hs4. reflexivity.
  - rewrite Hmsgs. clear.
    generalize (SelectedMailbox.session_flags v). 
    induction hits as [|[[seq uid] [m|]] hits IH]; intros sf; cbn; [reflexivity| |];
      f_equal; apply IH.
Qed.

(** X14.  When the mailbox of the view can no longer be resolved, FETCH
    and COPY, and EXPUNGE and STORE on a writable view, raise what
    [get_mailbox] raised, after that one call: views and loaded messages
    are untouched, and the view gets no tombstone, which only a refresh
    sets. *)
Theorem commands_surface_resolution_errors sel v e b w :
  views w !! sel = Some v ->
  be_get_mailbox (SelectedMailbox.name v) false (backend w) = (Raise e, b) ->
  let w1 := mkWorld b (views w) (loaded w)
                    (trace w ++ [EvGetMailbox (SelectedMailbox.name v) false (Raise e)]) in
  (forall sequence_set attributes,
     fetch_messages sel sequence_set attributes w = (Raise e, w1)) /\
  (forall sequence_set mailbox,
     copy_messages sel sequence_set mailbox w = (Raise e, w1)) /\
  (SelectedMailbox.readonly v = false ->
   (forall uid_set, expunge_mailbox sel uid_set w = (Raise e, w1)) /\
   (forall sequence_set flag_set mode,
      update_flags sel sequence_set flag_set mode w = (Raise e, w1))).
Proof.
  intros Hv Hget w1. splits.
  - intros sequence_set attributes.
    unfold fetch_messages, mbind, M_bind. rewrite (view_lookup _ _ _ Hv).
    unfold get_mailbox, call. rewrite Hget. reflexivity.
  - intros sequence_set mailbox.
    unfold copy_messages, mbind, M_bind. rewrite (view_lookup _ _ _ Hv).
    unfold get_mailbox, call. rewrite Hget. reflexivity.
  - intros Hro. split.
    + intros uid_set.
      unfold expunge_mailbox, mbind, M_bind. rewrite (view_lookup _ _ _ Hv), Hro.
      unfold get_mailbox, call. rewrite Hget. reflexivity.
    + intros sequence_set flag_set mode.
      unfold update_flags, mbind, M_bind. rewrite (view_lookup _ _ _ Hv), Hro.
      unfold get_mailbox, call. rewrite Hget. reflexivity.
Qed.

(** X26.  What a successful STORE does to the flags.  Every message
    [find] yields is loaded and gets [update_flags] with the permitted set,
    the permanent flags of the view intersected with the requested ones,
    while the session flags of the view are updated, UID by UID, with the
    whole requested set.  [save_flags] is handed the triples the
    command returns.  The triple of a hit holds its sequence number,
    its UID and the union of the message's permanent flags and its session
    flags; the flags of a miss are empty. *)
Theorem store_updates_flags sel v sequence_set flag_set mode w messages sel' w' :
  views w !! sel = Some v ->
  update_flags sel sequence_set flag_set mode w = (Ok (messages, sel'), w') ->
  exists mbx b1 hits b2 b3 v',
    let permitted := SelectedMailbox.permanent_flags v ∩ flag_set in
    let updated := map (Message.update_flags permitted mode) (found hits) in
    SelectedMailbox.readonly v = false /\
    be_get_mailbox (SelectedMailbox.name v) false (backend w) = (Ok mbx, b1) /\
    be_find mbx sequence_set v b1 = (Ok hits, b2) /\
    be_save_flags mbx
      (map (fun '(seq, uid, flags) => SaveTuple seq uid flags) messages) b2 = (Ok tt, b3) /\
    loaded w' = loaded w ++ updated /\
    views w' !! sel = Some v' /\
    SelectedMailbox.session_flags v' =
      session_stored flag_set mode (found hits) (SelectedMailbox.session_flags v) /\
    messages =
      map (fun '(seq, uid, msg) =>
             (seq, uid,
              match msg with
              | Some m =>
                  Message.permanent_flags (Message.update_flags permitted mode m) ∪
                  SessionFlags.get (Message.uid m) (SelectedMailbox.session_flags v')
              | None => ∅
              end)) hits.
Proof.
  intros Hv H.
  apply update_flags_Ok in H
    as (v0 & mbx & b1 & hits & b2 & b3 & Hv0 & Hro & Hget & Hfind & Hmsgs & Hsave & Hload).
  rewrite Hv in Hv0. injection Hv0 as <-.
  apply load_updates_Ok in Hload
    as (_ & post & f & Htr & Hpost & Hb & Hl & Hf & Hvs).
  cbn [backend views loaded trace] in *.
  destruct (final_view_session f (session_stored flag_set mode (found hits))
              sel (views w) v Hf Hv) as (v' & Hv' & Hsf').
  exists mbx, b1, hits, b2, b3, v'. cbv zeta. splits.
  - exact Hro.
  - exact Hget.
  - exact Hfind.
  - exact Hsave.
  - exact Hl.
  - rewrite Hvs. exact Hv'.
  - exact Hsf'.
  - rewrite Hmsgs, Hsf'. apply store_results_final.
Qed.

(** X27.  A successful FETCH on a writable view with an attribute that sets
    [\Seen] adds [\Seen] to the permanent flags of every message [find]
    yields, in the loaded objects the result refers to, and then calls
    [save_flags] on the backend once, with one argument: a generator over
    these messages in their new state.  The refresh works on the state
    that call leaves and saves nothing; the result pairs the sequence
    number of every found message with its object. *)
Theorem fetch_sets_seen sel v sequence_set attributes w ret sel' w' :
  views w !! sel = Some v ->
  SelectedMailbox.readonly v = false ->
  existsb set_seen attributes = true ->
  fetch_messages sel sequence_set attributes w = (Ok (ret, sel'), w') ->
  exists mbx b1 hits b2 b3 post,
    let seen := map (Message.add_flag Seen) (found hits) in
    let pre := [EvGetMailbox (SelectedMailbox.name v) false (Ok mbx);
                EvFind mbx sequence_set v (Ok hits);
                EvSaveFlags mbx [SaveGenerator seen] (Ok tt)] in
    be_get_mailbox (SelectedMailbox.name v) false (backend w) = (Ok mbx, b1) /\
    be_find mbx sequence_set v b1 = (Ok hits, b2) /\
    be_save_flags mbx [SaveGenerator seen] b2 = (Ok tt, b3) /\
    _load_updates (Some sel) (Some mbx)
      (mkWorld b3 (views w) (loaded w ++ seen) (trace w ++ pre)) = (Ok sel', w') /\
    trace w' = trace w ++ pre ++ post /\
    saves post = [] /\
    loaded w' = loaded w ++ seen /\
    Forall (fun m => Seen ∈ Message.permanent_flags m) seen /\
    ret.*1 = found_seqs hits /\
    ret.*2 = seq (length (loaded w)) (length (found hits)).
Proof.
  intros Hv Hro Hseen H.
  apply fetch_messages_Ok in H
    as (v0 & mbx & b1 & hits & b2 & Hv0 & Hget & Hfind & -> & H).
  rewrite Hv in Hv0. injection Hv0 as <-.
  cbv zeta in H. rewrite Hro, Hseen in H. cbn [negb andb] in H.
  destruct H as (b3 & Hsave & Hload).
  pose proof Hload as Hload'.
  apply load_updates_Ok in Hload'
    as (_ & post & f & Htr & Hpost & Hb & Hl & Hf & Hvs).
  apply refresh_quiet in Hpost as (Hs1 & Hs2 & Hs3 & Hs4 & Hs5).
  cbn [backend views loaded trace] in *.
  exists mbx, b1, hits, b2, b3, post. cbv zeta. splits.
  - exact Hget.
  - exact Hfind.
  - exact Hsave.
  - exact Hload.
  - rewrite Htr, <- !app_assoc. reflexivity.
  - exact Hs4.
  - exact Hl.
  - apply List.Forall_forall. intros m Hm.
    apply List.in_map_iff in Hm as (m0 & <- & _).
    cbn. set_solver.
  - apply fst_zip. rewrite length_seq, found_seqs_length. lia.
  - apply snd_zip. rewrite length_seq, found_seqs_length. lia.
Qed.

End extras.
End SessionExtras.

Module SessionExtraExamples.
Import BaseSession SessionFacts SessionReading SessionExtras SessionExamples DictBackend.

Lemma refresh_changes_only_its_view_witness :
  (_load_updates (Some 0) None world).1 = Ok (Some 0) /\
  loaded (_load_updates (Some 0) None world).2 = loaded world /\
  views (_load_updates (Some 0) None world).2 !! 1 = Some view1 /\
  exists v',
    views (_load_updates (Some 0) None world).2 !! 0 = Some v' /\
    SelectedMailbox.session_flags v' = SelectedMailbox.session_flags view0.
Proof.
  assert (Hrun : (_load_updates (Some 0) None world).1 = Ok (Some 0)).
  { vm_cast_no_check (eq_refl (Ok (Some 0) : result (option nat))). }
  split; [exact Hrun|].
  destruct (refresh_changes_only_its_view (Some 0) None world _ _ (outcome_eq _ _ Hrun))
    as (_ & Hl & _ & Hother & Hsel & _).
  split; [exact Hl|]. split.
  - rewrite (Hother 1) by discriminate. reflexivity.
  - destruct (Hsel 0 view0 eq_refl eq_refl) as (v' & Hv' & _ & _ & _ & Hsf). eauto.
Defined.

Lemma fetch_never_signals_witness :
  (fetch_messages 1 uid_1 [mkFetchAttribute "BODY[]"%bytes true] world).1 =
    Ok ([(1%N, 0)], Some 1) /\
  exists hits evs,
    trace (fetch_messages 1 uid_1 [mkFetchAttribute "BODY[]"%bytes true] world).2 =
      trace world ++ evs /\
    signals evs = [] /\
    saves evs = [] /\
    loaded (fetch_messages 1 uid_1 [mkFetchAttribute "BODY[]"%bytes true] world).2 =
      loaded world ++ found hits.
Proof.
  assert (Hrun : (fetch_messages 1 uid_1 [mkFetchAttribute "BODY[]"%bytes true] world).1 =
                 Ok ([(1%N, 0)], Some 1)).
  { vm_cast_no_check (eq_refl (Ok ([(1%N, 0)], Some 1))). }
  split; [exact Hrun|].
  destruct (fetch_never_signals 1 uid_1 [mkFetchAttribute "BODY[]"%bytes true] world
              _ _ _ (outcome_eq _ _ Hrun))
    as (v & mbx & hits & evs & Hv & Htr & _ & Hsig & _ & _ & _ & Hro).
  injection Hv as <-.
  destruct (Hro (or_introl eq_refl)) as [Hsaves Hloaded].
  exists hits, evs. auto.
Defined.

Lemma expunge_deletes_flagged_witness :
  (expunge_mailbox 0 None world).1 = Ok (Some 0) /\
  exists mbx hits post,
    trace (expunge_mailbox 0 None world).2 =
      trace world ++ [EvGetMailbox "INBOX" false (Ok mbx);
                      EvFind mbx (SequenceSet_all true) view0 (Ok hits);
                      EvDelete mbx (deleted_uids hits) (Ok tt);
                      EvUpdatedSet mbx] ++ post /\
    Forall (fun ev => is_mutation ev = false) post.
Proof.
  assert (Hrun : (expunge_mailbox 0 None world).1 = Ok (Some 0)).
  { vm_cast_no_check (eq_refl (Ok (Some 0) : result (option nat))). }
  split; [exact Hrun|].
  destruct (expunge_deletes_flagged 0 None world _ _ (outcome_eq _ _ Hrun))
    as (v & mbx & hits & post & Hv & Htr & Hpost & _).
  injection Hv as <-. exists mbx, hits, post. auto.
Defined.

Lemma copy_to_readonly_destination_raises_witness :
  copy_messages 0 uid_1 "Archive" world =
    (Raise (MailboxReadOnly "Archive"),
     mkWorld (backend world) (views world) (loaded world)
             [EvGetMailbox "INBOX" false (Ok "INBOX");
              EvGetMailbox "Archive" true (Ok "Archive")]).
Proof.
  apply (copy_to_readonly_destination_raises 0 view0 uid_1 "Archive" "INBOX"
           (backend world) "Archive" (backend world) world); reflexivity.
Defined.

Lemma store_saves_result_tuples_witness :
  (update_flags 0 uid_1_9 custom ADD world).1 =
    Ok ([(1%N, 1%N, {[Seen; "custom"%bytes]}); (0%N, 9%N, ∅)], Some 0) /\
  exists mbx evs,
    trace (update_flags 0 uid_1_9 custom ADD world).2 = trace world ++ evs /\
    saves evs = [(mbx, [SaveTuple 1 1 {[Seen; "custom"%bytes]}; SaveTuple 0 9 ∅])].
Proof.
  assert (Hrun : (update_flags 0 uid_1_9 custom ADD world).1 =
                 Ok ([(1%N, 1%N, {[Seen; "custom"%bytes]}); (0%N, 9%N, ∅)], Some 0)).
  { vm_cast_no_check
      (eq_refl (Ok ([(1%N, 1%N, ({[Seen; "custom"%bytes]} : gset Flag)); (0%N, 9%N, ∅)],
                    Some 0))). }
  split; [exact Hrun|].
  destruct (store_saves_result_tuples 0 uid_1_9 custom ADD world _ _ _
              (outcome_eq _ _ Hrun))
    as (v & mbx & hits & evs & _ & Htr & _ & Hsaves & _).
  exists mbx, evs. auto.
Defined.

Lemma commands_surface_resolution_errors_witness :
  fetch_messages 2 uid_1 [] world =
    (Raise (MailboxNotFound "Gone"),
     mkWorld (backend world) (views world) (loaded world)
             [EvGetMailbox "Gone" false (Raise (MailboxNotFound "Gone"))]) /\
  update_flags 2 uid_1 custom ADD world =
    (Raise (MailboxNotFound "Gone"),
     mkWorld (backend world) (views world) (loaded world)
             [EvGetMailbox "Gone" false (Raise (MailboxNotFound "Gone"))]).
Proof.
  assert (Hget : be_get_mailbox "Gone" false (backend world) =
                 (Raise (MailboxNotFound "Gone"), backend world)) by reflexivity.
  destruct (commands_surface_resolution_errors 2 view2 (MailboxNotFound "Gone")
              (backend world) world eq_refl Hget)
    as (Hfetch & _ & Hwrite).
  split; [apply Hfetch|].
  destruct (Hwrite eq_refl) as [_ Hstore]. apply Hstore.
Defined.

(** A STORE that adds [\Deleted], which [INBOX] stores, to message 1; and
    one that replaces the flags by [custom], which it does not store, so
    that nothing is permitted: the message keeps [\Seen], the session
    flags of UID 1 become [custom], and the triple holds both. *)
Lemma store_updates_flags_witness :
  ((update_flags 0 uid_1_9 {[Deleted]} ADD world).1 =
     Ok ([(1%N, 1%N, {[Seen; Deleted]}); (0%N, 9%N, ∅)], Some 0) /\
   exists hits v',
     be_find "INBOX"%string uid_1_9 view0 (backend world) = (Ok hits, backend world) /\
     loaded (update_flags 0 uid_1_9 {[Deleted]} ADD world).2 =
       loaded world ++
       map (Message.update_flags (SelectedMailbox.permanent_flags view0 ∩ {[Deleted]}) ADD)
           (found hits) /\
     views (update_flags 0 uid_1_9 {[Deleted]} ADD world).2 !! 0 = Some v' /\
     SelectedMailbox.session_flags v' =
       session_stored {[Deleted]} ADD (found hits) (SelectedMailbox.session_flags view0)) /\
  ((update_flags 0 uid_1 custom REPLACE world).1 =
     Ok ([(1%N, 1%N, {[Seen]} ∪ custom)], Some 0) /\
   loaded (update_flags 0 uid_1 custom REPLACE world).2 =
     [Message.mk 1 {[Seen]} false "one"%bytes] /\
   exists hits v',
     loaded (update_flags 0 uid_1 custom REPLACE world).2 =
       loaded world ++
       map (Message.update_flags (SelectedMailbox.permanent_flags view0 ∩ custom) REPLACE)
           (found hits) /\
     views (update_flags 0 uid_1 custom REPLACE world).2 !! 0 = Some v' /\
     SelectedMailbox.session_flags v' =
       session_stored custom REPLACE (found hits) (SelectedMailbox.session_flags view0)).
Proof.
  assert (Hinbox : be_get_mailbox "INBOX" false (backend world) =
                   (Ok "INBOX"%string, backend world)) by reflexivity.
  split.
  - assert (Hrun : (update_flags 0 uid_1_9 {[Deleted]} ADD world).1 =
                   Ok ([(1%N, 1%N, {[Seen; Deleted]}); (0%N, 9%N, ∅)], Some 0)).
    { vm_cast_no_check
        (eq_refl (Ok ([(1%N, 1%N, ({[Seen; Deleted]} : gset Flag)); (0%N, 9%N, ∅)],
                      Some 0))). }
    split; [exact Hrun|].
    destruct (store_updates_flags 0 view0 uid_1_9 {[Deleted]} ADD world _ _ _
                eq_refl (outcome_eq _ _ Hrun))
      as (mbx & b1 & hits & b2 & b3 & v' & _ & Hget & Hfind & _ & Hloaded & Hv' & Hsf
          & _).
    change (SelectedMailbox.name view0) with "INBOX"%string in Hget.
    assert (mbx = "INBOX"%string /\ b1 = backend world) as [-> ->]
      by (split; congruence).
    assert (Hfind0 : (be_find "INBOX"%string uid_1_9 view0 (backend world)).2 =
                     backend world) by reflexivity.
    rewrite Hfind in Hfind0. cbn in Hfind0. subst b2.
    exists hits, v'. auto.
  - assert (Hrun : (update_flags 0 uid_1 custom REPLACE world).1 =
                   Ok ([(1%N, 1%N, {[Seen]} ∪ custom)], Some 0)).
    { vm_cast_no_check (eq_refl (Ok ([(1%N, 1%N, {[Seen]} ∪ custom)], Some 0))). }
    split; [exact Hrun|]. split.
    { vm_cast_no_check (eq_refl [Message.mk 1 {[Seen]} false "one"%bytes]). }
    destruct (store_updates_flags 0 view0 uid_1 custom REPLACE world _ _ _
                eq_refl (outcome_eq _ _ Hrun))
      as (mbx & b1 & hits & b2 & b3 & v' & _ & Hget & Hfind & _ & Hloaded & Hv' & Hsf
          & _).
    exists hits, v'. auto.
Defined.

(** A FETCH of message 3 of [INBOX], which has no flag, with an attribute
    that sets [\Seen]. *)
Lemma fetch_sets_seen_witness :
  (fetch_messages 0 uid_3 [mkFetchAttribute "BODY[]"%bytes true] world).1 =
    Ok ([(3%N, 0)], Some 0) /\
  loaded (fetch_messages 0 uid_3 [mkFetchAttribute "BODY[]"%bytes true] world).2 =
    [Message.mk 3 {[Seen]} false "three"%bytes] /\
  exists mbx b1 hits b2 b3 post,
    let seen := map (Message.add_flag Seen) (found hits) in
    be_get_mailbox "INBOX" false (backend world) = (Ok mbx, b1) /\
    be_find mbx uid_3 view0 b1 = (Ok hits, b2) /\
    be_save_flags mbx [SaveGenerator seen] b2 = (Ok tt, b3) /\
    trace (fetch_messages 0 uid_3 [mkFetchAttribute "BODY[]"%bytes true] world).2 =
      trace world ++ [EvGetMailbox "INBOX" false (Ok mbx);
                      EvFind mbx uid_3 view0 (Ok hits);
                      EvSaveFlags mbx [SaveGenerator seen] (Ok tt)] ++ post /\
    saves post = [] /\
    loaded (fetch_messages 0 uid_3 [mkFetchAttribute "BODY[]"%bytes true] world).2 =
      loaded world ++ seen /\
    [(3%N, 0)].*1 = found_seqs hits.
Proof.
  assert (Hrun : (fetch_messages 0 uid_3 [mkFetchAttribute "BODY[]"%bytes true] world).1 =
                 Ok ([(3%N, 0)], Some 0)).
  { vm_cast_no_check (eq_refl (Ok ([(3%N, 0)], Some 0))). }
  split; [exact Hrun|]. split.
  { vm_cast_no_check (eq_refl [Message.mk 3 {[Seen]} false "three"%bytes]). }
  destruct (fetch_sets_seen 0 view0 uid_3 [mkFetchAttribute "BODY[]"%bytes true] world
              _ _ _ eq_refl eq_refl eq_refl (outcome_eq _ _ Hrun))
    as (mbx & b1 & hits & b2 & b3 & post & Hget & Hfind & Hsave & _ & Htr & Hsaves
        & Hloaded & _ & Hseqs & _).
  exists mbx, b1, hits, b2, b3, post. cbv zeta. splits; assumption.
Defined.

End SessionExtraExamples.

Module OutcomeFacts.
Import BaseSession SessionFacts Outcomes.
Section facts.
Context {B Mbx : Type} `{!Backend B Mbx}.
Implicit Types (w : World B Mbx) (evs : list (Event Mbx)).
#[local] Existing Instances M_bind M_ret.
Local Abbreviation M := (@BaseSession.M B Mbx).
Local Abbreviation closed := (@Outcomes.closed Mbx).

Lemma closed_quiet : closed quiet.
Proof.
  split; [reflexivity|]. unfold quiet. intros evs1 evs2 H1 H2.
  rewrite signals_app, H1, H2. reflexivity.
Qed.

Lemma closed_refresh_only : closed refresh_only.
Proof. split; [constructor|]. intros evs1 evs2. apply Forall_app_2. Qed.

Lemma extends_still {A} P (m : M A) :
  P [] -> (forall w r w', m w = (r, w') -> trace w' = trace w) -> extends P m.
Proof.
  intros Hnil Hm w r w' H. exists []. rewrite app_nil_r. split; [eapply Hm, H|exact Hnil].
Qed.

Lemma extends_ret {A} P (a : A) : closed P -> extends P (mret a : M A).
Proof.
  intros [Hnil _]. apply extends_still; [exact Hnil|]. intros w r w' [= _ <-]. reflexivity.
Qed.

Lemma extends_raise {A} P e : closed P -> extends P (raise e : M A).
Proof.
  intros [Hnil _]. apply extends_still; [exact Hnil|]. intros w r w' [= _ <-]. reflexivity.
Qed.

Lemma extends_attr {A} P (f : B -> A) : closed P -> extends P (attr f).
Proof.
  intros [Hnil _]. apply extends_still; [exact Hnil|]. intros w r w' [= _ <-]. reflexivity.
Qed.

Lemma extends_view P sel : closed P -> extends P (view sel : M _).
Proof.
  intros [Hnil _]. apply extends_still; [exact Hnil|]. intros w r w'. unfold view.
  destruct (views w !! sel); intros [= _ <-]; reflexivity.
Qed.

Lemma extends_msg P r : closed P -> extends P (msg_ r : M _).
Proof.
  intros [Hnil _]. apply extends_still; [exact Hnil|]. intros w r' w'. unfold msg_.
  destruct (loaded w !! r); intros [= _ <-]; reflexivity.
Qed.

Lemma extends_call {A} P (f : B -> result A * B) (ev : result A -> Event Mbx) :
  (forall r, P [ev r]) -> extends P (call f ev).
Proof.
  intros Hev w r w' H. apply call_inv in H as (b & _ & ->). exists [ev r]. auto.
Qed.

Lemma extends_bind {A C} P (m : M A) (k : A -> M C) :
  closed P -> extends P m -> (forall a, extends P (k a)) -> extends P (m ≫= k).
Proof.
  intros [_ Happ] Hm Hk w r w' H. unfold mbind, M_bind in H.
  destruct (m w) as [[a|e] w1] eqn:Em.
  - destruct (Hm _ _ _ Em) as (evs1 & Htr1 & H1).
    destruct (Hk a _ _ _ H) as (evs2 & Htr2 & H2).
    exists (evs1 ++ evs2). split; [|auto]. rewrite Htr2, Htr1, app_assoc. reflexivity.
  - injection H as <- <-. exact (Hm _ _ _ Em).
Qed.

Lemma extends_for_each {A C} P (f : A -> M C) l :
  closed P -> (forall a, extends P (f a)) -> extends P (for_each f l).
Proof.
  intros HP Hf. induction l as [|a l IH]; cbn [for_each].
  - apply extends_ret, HP.
  - apply extends_bind; [exact HP|apply Hf|]. intros c.
    apply extends_bind; [exact HP|exact IH|]. intros cs. apply extends_ret, HP.
Qed.

Lemma extends_try_except {A} P (body handler : M A) catches :
  closed P -> extends P body -> extends P handler ->
  extends P (try_except body catches handler).
Proof.
  intros [_ Happ] Hbody Hhandler w r w' H. unfold try_except in H.
  destruct (body w) as [[a|e] w1] eqn:Eb.
  - injection H as <- <-. exact (Hbody _ _ _ Eb).
  - destruct (catches e).
    + destruct (Hbody _ _ _ Eb) as (evs1 & Htr1 & H1).
      destruct (Hhandler _ _ _ H) as (evs2 & Htr2 & H2).
      exists (evs1 ++ evs2). split; [|auto]. rewrite Htr2, Htr1, app_assoc. reflexivity.
    + injection H as <- <-. exact (Hbody _ _ _ Eb).
Qed.

Lemma extends_update_view P sel f : closed P -> extends P (update_view sel f : M _).
Proof.
  intros HP. unfold update_view. apply extends_bind; [exact HP|apply extends_view, HP|].
  intros v. apply extends_still; [apply HP|]. intros w r w' [= _ <-]. reflexivity.
Qed.

Lemma extends_update_msg P r f : closed P -> extends P (update_msg r f : M _).
Proof.
  intros HP. unfold update_msg. apply extends_bind; [exact HP|apply extends_msg, HP|].
  intros v. apply extends_still; [apply HP|]. intros w r' w' [= _ <-]. reflexivity.
Qed.

Lemma extends_load P hits : closed P -> extends P (load hits : M _).
Proof.
  intros HP. apply extends_still; [apply HP|]. intros w r w'. rewrite load_eq.
  intros [= _ <-]. reflexivity.
Qed.

Lemma extends_weaken {A} (P Q : list (Event Mbx) -> Prop) (m : M A) :
  (forall evs, P evs -> Q evs) -> extends P m -> extends Q m.
Proof.
  intros HPQ Hm w r w' H. destruct (Hm _ _ _ H) as (evs & Htr & HP). eauto.
Qed.

(** The refresh calls nothing but [get_mailbox] and [items], whatever it
    comes to. *)
Lemma load_updates_refresh_only selected mbx :
  extends refresh_only (_load_updates selected mbx).
Proof.
  pose proof closed_refresh_only as HP.
  unfold _load_updates. destruct selected as [sel|]; [|apply extends_ret, HP].
  apply extends_bind; [exact HP|apply extends_view, HP|]. intros v.
  apply extends_bind; [exact HP| |].
  { destruct mbx; [apply extends_attr|apply extends_ret]; exact HP. }
  intros same. apply extends_bind; [exact HP| |].
  { destruct (negb same); [|apply extends_ret, HP].
    apply extends_try_except; [exact HP| |].
    - apply extends_bind; [exact HP| |].
      + apply extends_call. intros r. constructor; [reflexivity|constructor].
      + intros m. apply extends_ret, HP.
    - apply extends_bind; [exact HP|apply extends_update_view, HP|].
      intros u. apply extends_ret, HP. }
  intros [m|]; [|apply extends_ret, HP].
  apply extends_bind; [exact HP|apply extends_attr, HP|]. intros uid_validity.
  apply extends_bind; [exact HP|apply extends_update_view, HP|]. intros u1.
  apply extends_bind; [exact HP|apply extends_attr, HP|]. intros next_uid.
  apply extends_bind; [exact HP|apply extends_update_view, HP|]. intros u2.
  apply extends_bind; [exact HP| |].
  { apply extends_call. intros r. constructor; [reflexivity|constructor]. }
  intros its. apply extends_bind; [exact HP| |].
  { apply extends_for_each; [exact HP|]. intros [uid msg]. apply extends_update_view, HP. }
  intros us. apply extends_ret, HP.
Qed.

Lemma refresh_only_quiet evs : refresh_only evs -> quiet evs.
Proof. intros H. apply refresh_quiet in H as (H & _). exact H. Qed.

(** What was quiet so far may go on in any way that signals last. *)
Lemma extends_quiet_then {A C} (m : M A) (k : A -> M C) :
  extends quiet m -> (forall a, extends signals_last (k a)) ->
  extends signals_last (m ≫= k).
Proof.
  intros Hm Hk w r w' H. unfold mbind, M_bind in H.
  destruct (m w) as [[a|e] w1] eqn:Em.
  - destruct (Hm _ _ _ Em) as (evs1 & Htr1 & H1).
    destruct (Hk a _ _ _ H) as (evs2 & Htr2 & H2).
    exists (evs1 ++ evs2). split; [rewrite Htr2, Htr1, app_assoc; reflexivity|].
    destruct H2 as [H2|(pre & mbx & post & -> & Hpre & Hpost)].
    + left. rewrite signals_app, H1, H2. reflexivity.
    + right. exists (evs1 ++ pre), mbx, post. splits.
      * rewrite <- app_assoc. reflexivity.
      * rewrite signals_app, H1, Hpre. reflexivity.
      * exact Hpost.
  - injection H as <- <-. destruct (Hm _ _ _ Em) as (evs & Htr & Hq).
    exists evs. split; [exact Htr|]. left. exact Hq.
Qed.

(** The event is set, and a refresh follows. *)
Lemma extends_signal_then_refresh {C} mbx (k : M C) :
  extends refresh_only k ->
  extends signals_last (updated_set mbx ≫= fun _ => k).
Proof.
  intros Hk w r w' H. unfold mbind, M_bind, updated_set in H.
  destruct (Hk _ _ _ H) as (evs & Htr & Hevs). cbn [trace] in Htr.
  exists (EvUpdatedSet mbx :: evs). split.
  - rewrite Htr, <- app_assoc. reflexivity.
  - right. exists [], mbx, evs. splits; auto.
Qed.

End facts.
End OutcomeFacts.

Module OutcomeExtras.
Import BaseSession SessionFacts Outcomes OutcomeFacts.

Ltac closed_trace := first [exact closed_quiet | exact closed_refresh_only].

Ltac steps :=
  lazymatch goal with
  | |- extends _ (mbind _ _) =>
      apply extends_bind; [closed_trace | steps | intros ?; steps]
  | |- extends _ (mret _) => apply extends_ret; closed_trace
  | |- extends _ (raise _) => apply extends_raise; closed_trace
  | |- extends _ (attr _) => apply extends_attr; closed_trace
  | |- extends _ (view _) => apply extends_view; closed_trace
  | |- extends _ (msg_ _) => apply extends_msg; closed_trace
  | |- extends _ (update_view _ _) => apply extends_update_view; closed_trace
  | |- extends _ (update_msg _ _) => apply extends_update_msg; closed_trace
  | |- extends _ (load _) => apply extends_load; closed_trace
  | |- extends _ (call _ _) => apply extends_call; intros ?; reflexivity
  | |- extends _ (for_each _ _) =>
      apply extends_for_each; [closed_trace | intros ?; steps]
  | |- extends refresh_only (_load_updates _ _) => apply load_updates_refresh_only
  | |- extends quiet (_load_updates _ _) =>
      apply (extends_weaken refresh_only);
        [exact refresh_only_quiet | apply load_updates_refresh_only]
  | |- extends _ (match ?x with _ => _ end) => destruct x; steps
  end.

Section extras.
Context {B Mbx : Type} `{!Backend B Mbx}.
#[local] Existing Instances M_bind M_ret.

(** X15.  Whatever their outcome, a result or an exception at any point,
    APPEND, EXPUNGE, COPY and STORE only add to the trace of calls, and
    they set the update event at most once: after it come only the calls of
    the refresh.  FETCH never sets it. *)
Theorem update_event_comes_last :
  (forall name messages selected,
     extends signals_last (append_messages name messages selected)) /\
  (forall selected uid_set,
     extends signals_last (expunge_mailbox selected uid_set)) /\
  (forall selected sequence_set mailbox,
     extends signals_last (copy_messages selected sequence_set mailbox)) /\
  (forall selected sequence_set flag_set mode,
     extends signals_last (update_flags selected sequence_set flag_set mode)) /\
  (forall selected sequence_set attributes,
     extends quiet (fetch_messages selected sequence_set attributes)).
Proof.
  assert (Hraise : forall A e, extends signals_last (raise e : M (B:=B) (Mbx:=Mbx) A)).
  { intros A e. apply (extends_weaken quiet); [intros evs Hq; left; exact Hq|].
    apply extends_raise, closed_quiet. }
  splits.
  - intros name messages selected.
    unfold append_messages, get_mailbox, parse_message, add, _find_selected.
    apply extends_quiet_then; [steps|]. intros mbx.
    apply extends_quiet_then; [steps|]. intros readonly.
    destruct readonly; [apply Hraise|].
    apply extends_quiet_then; [steps|]. intros dest_selected.
    apply extends_quiet_then; [steps|]. intros uids.
    apply extends_signal_then_refresh. steps.
  - intros selected uid_set.
    unfold expunge_mailbox, get_mailbox, find, delete.
    apply extends_quiet_then; [steps|]. intros v.
    destruct (SelectedMailbox.readonly v); [apply Hraise|].
    apply extends_quiet_then; [steps|]. intros mbx.
    apply extends_quiet_then; [steps|]. intros hits.
    apply extends_quiet_then; [steps|]. intros expunge_uids.
    apply extends_quiet_then; [steps|]. intros u.
    apply extends_signal_then_refresh. steps.
  - intros selected sequence_set mailbox.
    unfold copy_messages, get_mailbox, find, add, _find_selected.
    apply extends_quiet_then; [steps|]. intros v.
    apply extends_quiet_then; [steps|]. intros mbx.
    apply extends_quiet_then; [steps|]. intros dest.
    apply extends_quiet_then; [steps|]. intros readonly.
    destruct readonly; [apply Hraise|].
    apply extends_quiet_then; [steps|]. intros dest_selected.
    apply extends_quiet_then; [steps|]. intros hits.
    apply extends_quiet_then; [steps|]. intros uids.
    apply extends_signal_then_refresh. steps.
  - intros selected sequence_set flag_set mode.
    unfold update_flags, get_mailbox, find, save_flags.
    apply extends_quiet_then; [steps|]. intros v.
    destruct (SelectedMailbox.readonly v); [apply Hraise|].
    apply extends_quiet_then; [steps|]. intros mbx.
    apply extends_quiet_then; [steps|]. intros v'.
    cbv zeta.
    apply extends_quiet_then; [steps|]. intros hits.
    apply extends_quiet_then; [steps|]. intros messages.
    apply extends_quiet_then; [steps|]. intros u.
    apply extends_signal_then_refresh. steps.
  - intros selected sequence_set attributes.
    unfold fetch_messages, get_mailbox, find, save_flags. steps.
Qed.

End extras.
End OutcomeExtras.

Module MoreSessionFacts.
Import BaseSession SessionFacts SessionInterfaces MoreSession.

Section facts.
Context {B Mbx Snapshot Criteria : Type}.
Context `{!Backend B Mbx} `{!MailboxSet B Mbx Snapshot} `{!SearchEngine Criteria}.

Implicit Types (w : World B Mbx) (evs : list (Event Mbx)).

#[local] Existing Instances M_bind M_ret.

Lemma run_inv {A} (f : B -> result A * B) w r w' :
  run f w = (r, w') ->
  exists b, f (backend w) = (r, b) /\ w' = mkWorld b (views w) (loaded w) (trace w).
Proof.
  unfold run. destruct (f (backend w)) as [r' b]. intros [= <- <-]. eauto.
Qed.

Lemma alter_last {A} (f : A -> A) (l : list A) x :
  alter f (length l) (l ++ [x]) = l ++ [f x].
Proof. induction l as [|y l IH]; cbn; [reflexivity|]. f_equal. exact IH. Qed.

Lemma lift_inv {A} (r : result A) w r' w' : lift r w = (r', w') -> r' = r /\ w' = w.
Proof. unfold lift. intros [= <- <-]. auto. Qed.

Lemma load_all msgs w :
  for_each new_loaded msgs w =
  (Ok (seq (length (loaded w)) (length msgs)),
   mkWorld (backend w) (views w) (loaded w ++ msgs) (trace w)).
Proof.
  revert w. induction msgs as [|m msgs IH]; intros w.
  - cbn. rewrite app_nil_r, world_eta. reflexivity.
  - cbn [for_each]. unfold mbind, M_bind, new_loaded. rewrite IH.
    cbn [backend views loaded trace length seq]. rewrite length_app, Nat.add_1_r.
    rewrite <- app_assoc. reflexivity.
Qed.

Lemma messages_Ok mbx w refs w' :
  messages mbx w = (Ok refs, w') ->
  exists msgs b,
    be_messages mbx (backend w) = (Ok msgs, b) /\
    refs = seq (length (loaded w)) (length msgs) /\
    w' = mkWorld b (views w) (loaded w ++ msgs) (trace w).
Proof.
  unfold messages. intros H.
  apply bind_Ok in H as (msgs & w1 & Hrun & H).
  apply run_inv in Hrun as (b & Hrun & ->).
  rewrite load_all in H. injection H as <- <-.
  exists msgs, b. auto.
Qed.

Lemma set_recent_false m : Message.recent m = false -> set_recent false m = m.
Proof. destruct m as [uid flags recent contents]. cbn. intros ->. reflexivity. Qed.

(** The loop of [select_mailbox]. *)
Lemma take_recent_loop (sel : nat) msgs pre w v :
  loaded w = pre ++ msgs ->
  views w !! sel = Some v ->
  exists refss,
    for_each (fun msg =>
        m ← msg_ msg;
        if Message.recent m
        then
          update_msg msg (set_recent false);;
          m ← msg_ msg;
          update_view sel
            (SelectedMailbox.with_session_flags
               (SessionFlags.add_recent (Message.uid m)));;
          mret [msg]
        else mret []) (seq (length pre) (length msgs)) w =
    (Ok refss,
     mkWorld (backend w) (alter (with_recent (recent_uids msgs)) sel (views w))
             (pre ++ map (set_recent false) msgs) (trace w)) /\
    concat refss = recent_refs (length pre) msgs.
Proof.
  revert pre w v. induction msgs as [|m msgs IH]; intros pre w v Hl Hv.
  - exists []. split; [|reflexivity]. cbn. rewrite <- Hl.
    rewrite list_alter_id by (intros x; apply with_recent_nil).
    rewrite world_eta. reflexivity.
  - cbn [length seq for_each]. unfold mbind at 1. unfold M_bind at 1.
    unfold mbind at 1. unfold M_bind at 1.
    rewrite (msg_lookup _ _ m) by (rewrite Hl; apply list_lookup_middle; reflexivity).
    destruct (Message.recent m) eqn:Erecent.
    + unfold mbind at 1. unfold M_bind at 1.
      rewrite (update_msg_lookup _ _ _ m)
        by (rewrite Hl; apply list_lookup_middle; reflexivity).
      assert (Hins : <[length pre := set_recent false m]> (loaded w) =
                     (pre ++ [set_recent false m]) ++ msgs).
      { rewrite Hl. rewrite insert_app_r_alt by lia. rewrite Nat.sub_diag.
        cbn. rewrite <- app_assoc. reflexivity. }
      rewrite Hins.
      unfold mbind at 1. unfold M_bind at 1.
      rewrite (msg_lookup _ _ (set_recent false m)).
      2:{ cbn [loaded]. rewrite <- app_assoc. apply list_lookup_middle. reflexivity. }
      unfold mbind at 1. unfold M_bind at 1.
      rewrite (update_view_lookup _ _ _ v) by exact Hv.
      cbn [backend views loaded trace]. unfold mret at 1, M_ret at 1.
      destruct (IH (pre ++ [set_recent false m])
                   (mkWorld (backend w)
                      (alter (SelectedMailbox.with_session_flags
                                (SessionFlags.add_recent
                                   (Message.uid (set_recent false m)))) sel (views w))
                      ((pre ++ [set_recent false m]) ++ msgs) (trace w))
                   (SelectedMailbox.with_session_flags
                      (SessionFlags.add_recent (Message.uid (set_recent false m))) v))
        as (refss & Hloop & Hrefs).
      { reflexivity. }
      { cbn [views]. rewrite list_lookup_alter_eq, Hv. reflexivity. }
      rewrite length_app, Nat.add_1_r in Hloop, Hrefs.
      exists ([length pre] :: refss). split.
      * unfold mbind at 1. unfold M_bind at 1. rewrite Hloop.
        cbn [backend views loaded trace].
        unfold mret, M_ret. f_equal. f_equal.
        -- rewrite list_alter_alter_eq. apply list_alter_ext; [|reflexivity].
           intros x _. unfold compose, recent_uids. cbn [List.filter].
           rewrite Erecent. cbn [map]. rewrite with_recent_cons. reflexivity.
        -- rewrite <- app_assoc. reflexivity.
      * cbn [concat recent_refs]. rewrite Erecent, Hrefs. reflexivity.
    + unfold mret at 1, M_ret at 1.
      destruct (IH (pre ++ [m]) w v) as (refss & Hloop & Hrefs).
      { rewrite Hl, <- app_assoc. reflexivity. }
      { exact Hv. }
      rewrite length_app, Nat.add_1_r in Hloop, Hrefs.
      exists ([] :: refss). split.
      * unfold mbind at 1. unfold M_bind at 1. rewrite Hloop.
        unfold mret, M_ret. f_equal. f_equal.
        -- unfold recent_uids. cbn [List.filter]. rewrite Erecent. reflexivity.
        -- rewrite <- app_assoc. cbn [map app].
           rewrite (set_recent_false m Erecent). reflexivity.
      * cbn [concat recent_refs]. rewrite Erecent, Hrefs. reflexivity.
Qed.

(** The objects of the recent messages, read after the loop. *)
Lemma recent_refs_stored pre msgs :
  Forall2 (fun r m => (pre ++ map (set_recent false) msgs) !! r = Some m)
          (recent_refs (length pre) msgs)
          (map (set_recent false) (List.filter Message.recent msgs)).
Proof.
  revert pre. induction msgs as [|m msgs IH]; intros pre; [constructor|].
  cbn [recent_refs List.filter map].
  specialize (IH (pre ++ [set_recent false m])).
  rewrite length_app, Nat.add_1_r, <- app_assoc in IH. cbn [app] in IH.
  destruct (Message.recent m); cbn [app map]; [constructor|]; try exact IH.
  apply list_lookup_middle. reflexivity.
Qed.

Lemma read_refs refs ms w :
  Forall2 (fun r m => loaded w !! r = Some m) refs ms ->
  for_each (fun msg => m ← msg_ msg; mret (SaveMessage m)) refs w =
  (Ok (map SaveMessage ms), w).
Proof.
  induction 1 as [|r m refs ms Hr _ IH]; [reflexivity|].
  cbn [for_each]. unfold mbind, M_bind in *. rewrite (msg_lookup _ _ _ Hr).
  unfold mret, M_ret in *. rewrite IH. reflexivity.
Qed.

(** What SELECT does when it succeeds. *)
Lemma select_mailbox_Ok name readonly w snapshot sel' w' :
  select_mailbox name readonly w = (Ok (snapshot, sel'), w') ->
  exists mbx b1,
    be_get_mailbox name false (backend w) = (Ok mbx, b1) /\
    let sel := length (views w) in
    let v := SelectedMailbox_new name (readonly || be_readonly mbx b1)
               (be_permanent_flags mbx b1) (be_session_flags mbx b1) in
    let b2 := be_register mbx sel b1 in
    let pre := [EvGetMailbox name false (Ok mbx)] in
    if readonly || be_readonly mbx b1
    then
      exists b3,
        be_snapshot mbx b2 = (Ok snapshot, b3) /\
        _load_updates (Some sel) (Some mbx)
          (mkWorld b3 (views w ++ [v]) (loaded w) (trace w ++ pre)) = (Ok sel', w')
    else
      exists msgs b3 b4 b5,
        be_messages mbx b2 = (Ok msgs, b3) /\
        let args := map SaveMessage
                      (map (set_recent false) (List.filter Message.recent msgs)) in
        be_save_flags mbx args b3 = (Ok tt, b4) /\
        be_snapshot mbx b4 = (Ok snapshot, b5) /\
        _load_updates (Some sel) (Some mbx)
          (mkWorld b5 (views w ++ [with_recent (recent_uids msgs) v])
                   (loaded w ++ map (set_recent false) msgs)
                   (trace w ++ pre ++ [EvSaveFlags mbx args (Ok tt)])) = (Ok sel', w').
Proof.
  unfold select_mailbox. intros H.
  apply bind_Ok in H as (mbx & w1 & Hget & H).
  apply call_inv in Hget as (b1 & Hget & ->).
  apply bind_Ok in H as (ro & w1 & Hro & H). apply attr_Ok in Hro as [-> ->].
  apply bind_Ok in H as (pf & w1 & Hpf & H). apply attr_Ok in Hpf as [-> ->].
  apply bind_Ok in H as (sf & w1 & Hsf & H). apply attr_Ok in Hsf as [-> ->].
  cbn [backend views loaded trace] in H.
  apply bind_Ok in H as (sel & w1 & Hnew & H).
  unfold new_view in Hnew. injection Hnew as <- <-.
  cbn [backend views loaded trace] in H.
  apply bind_Ok in H as (u & w1 & Hreg & H).
  apply run_inv in Hreg as (b2 & Hreg & ->). injection Hreg as _ <-.
  cbn [backend views loaded trace] in H.
  apply bind_Ok in H as (v & w1 & Hv & H). apply view_Ok in Hv as [-> Hv].
  cbn [backend views loaded trace] in Hv.
  rewrite list_lookup_middle in Hv by reflexivity. injection Hv as <-.
  cbn [SelectedMailbox_new SelectedMailbox.readonly] in H.
  exists mbx, b1. split; [exact Hget|]. cbv zeta.
  apply bind_Ok in H as (u' & w2 & Hbody & H).
  apply bind_Ok in H as (snap & w3 & Hsnap & H).
  apply run_inv in Hsnap as (b5 & Hsnap & ->).
  apply bind_Ok in H as (s' & w4 & Hload & H). apply ret_Ok in H as [[= -> ->] ->].
  destruct (readonly || be_readonly mbx b1) eqn:Ero; cbn [negb] in Hbody.
  - apply ret_Ok in Hbody as [-> ->]. cbn [backend views loaded trace] in *.
    exists b5. split; [exact Hsnap|exact Hload].
  - apply bind_Ok in Hbody as (refs & w5 & Hmsgs & Hbody).
    apply messages_Ok in Hmsgs as (msgs & b3 & Hmsgs & -> & ->).
    cbn [backend views loaded trace] in *.
    apply bind_Ok in Hbody as (refss & w6 & Hloop & Hbody).
    match type of Hloop with
    | for_each _ _ ?w0 = _ =>
        destruct (take_recent_loop (length (views w)) msgs (loaded w) w0
                    (SelectedMailbox_new name false (be_permanent_flags mbx b1)
                                         (be_session_flags mbx b1)))
          as (refss' & Hloop' & Hrefs);
          [reflexivity | cbn [views]; apply list_lookup_middle; reflexivity |]
    end.
    rewrite Hloop' in Hloop. injection Hloop as <- <-.
    cbn [backend views loaded trace] in *.
    apply bind_Ok in Hbody as (args & w7 & Hargs & Hbody).
    rewrite Hrefs in Hargs.
    rewrite (read_refs _ (map (set_recent false) (List.filter Message.recent msgs)))
      in Hargs by (cbn [loaded]; apply recent_refs_stored).
    injection Hargs as <- <-.
    apply call_inv in Hbody as (b4 & Hsave & ->).
    cbn [backend views loaded trace] in *. destruct u'.
    exists msgs, b3, b4, b5. splits; auto.
    rewrite <- Hload. f_equal. f_equal.
    + symmetry. apply alter_last.
    + rewrite <- !app_assoc. reflexivity.
Qed.

(** The loop of [search_mailbox] only reads. *)
Lemma search_loop_Ok (search : Criteria) msgs pre post start w ret w' :
  loaded w = pre ++ msgs ++ post ->
  for_each (fun '(seq, msg) =>
      m ← msg_ msg;
      found ← lift (matches search seq m);
      mret (if found : bool then [(seq, msg)] else []))
    (asyncenumerate (seq (length pre) (length msgs)) start) w = (Ok ret, w') ->
  w' = w /\ concat ret = matching search start (length pre) msgs.
Proof.
  revert pre start ret. induction msgs as [|m msgs IH]; intros pre start ret Hl H.
  - cbn in H. apply ret_Ok in H as [-> ->]. auto.
  - cbn [length seq asyncenumerate for_each] in H.
    apply bind_Ok in H as (r & w1 & Hbody & H).
    apply bind_Ok in H as (rs & w2 & Hrest & H).
    apply ret_Ok in H as [-> ->].
    apply bind_Ok in Hbody as (m0 & w3 & Hread & Hbody).
    apply msg_Ok in Hread as [-> Hread].
    rewrite Hl in Hread. change ((m :: msgs) ++ post) with (m :: msgs ++ post) in Hread.
    rewrite list_lookup_middle in Hread by reflexivity. injection Hread as <-.
    apply bind_Ok in Hbody as (found & w3 & Hmatch & Hbody).
    apply lift_inv in Hmatch as [Hmatch ->]. apply ret_Ok in Hbody as [-> ->].
    specialize (IH (pre ++ [m]) (start + 1)%N rs).
    rewrite length_app, Nat.add_1_r in IH.
    apply IH in Hrest as [-> Hrest].
    2:{ rewrite Hl, <- app_assoc. reflexivity. }
    split; [reflexivity|].
    cbn [concat matching]. rewrite <- Hmatch, Hrest. destruct found; reflexivity.
Qed.

(** What SEARCH does when it succeeds. *)
Lemma search_mailbox_Ok sel keys w ret sel' w' :
  search_mailbox sel keys w = (Ok (ret, sel'), w') ->
  exists v mbx b1 search msgs b2,
    views w !! sel = Some v /\
    be_get_mailbox (SelectedMailbox.name v) false (backend w) = (Ok mbx, b1) /\
    SearchCriteriaSet keys
      (mkSearchParams v (snapshot_exists v) (snapshot_next_uid v - 1)) = Ok search /\
    be_messages mbx b1 = (Ok msgs, b2) /\
    ret = matching search 1 (length (loaded w)) msgs /\
    _load_updates (Some sel) (Some mbx)
      (mkWorld b2 (views w) (loaded w ++ msgs)
               (trace w ++ [EvGetMailbox (SelectedMailbox.name v) false (Ok mbx)]))
      = (Ok sel', w').
Proof.
  unfold search_mailbox. intros H.
  apply bind_Ok in H as (v & w1 & Hv & H). apply view_Ok in Hv as [-> Hv].
  apply bind_Ok in H as (mbx & w1 & Hget & H).
  apply call_inv in Hget as (b1 & Hget & ->).
  apply bind_Ok in H as (v' & w1 & Hv' & H). apply view_Ok in Hv' as [-> Hv'].
  cbn [backend views loaded trace] in *.
  rewrite Hv in Hv'. injection Hv' as <-. cbv zeta in H.
  apply bind_Ok in H as (search & w1 & Hsearch & H).
  apply lift_inv in Hsearch as [Hsearch ->].
  apply bind_Ok in H as (refs & w2 & Hmsgs & H).
  apply messages_Ok in Hmsgs as (msgs & b2 & Hmsgs & -> & ->).
  cbn [backend views loaded trace] in *.
  apply bind_Ok in H as (rets & w3 & Hloop & H).
  apply (search_loop_Ok search msgs (loaded w) []) in Hloop as [-> Hret].
  2:{ cbn [loaded]. rewrite app_nil_r. reflexivity. }
  apply bind_Ok in H as (s' & w4 & Hload & H). apply ret_Ok in H as [[= -> ->] ->].
  exists v, mbx, b1, search, msgs, b2. splits; auto.
Qed.

End facts.
End MoreSessionFacts.

Module MoreSessionExtraFacts.
Import BaseSession SessionFacts SessionInterfaces MoreSession MoreSessionFacts.

Section facts.
Context {B Mbx Snapshot Criteria : Type}.
Context `{!Backend B Mbx} `{!MailboxSet B Mbx Snapshot} `{!SearchEngine Criteria}.

Lemma elem_of_matching (search : Criteria) start n msgs seq r :
  (seq, r) ∈ matching search start n msgs <->
  exists i m,
    msgs !! i = Some m /\ seq = (start + N.of_nat i)%N /\ r = n + i /\
    matches search seq m = Ok true.
Proof.
  revert start n. induction msgs as [|m msgs IH]; intros start n.
  - cbn. rewrite elem_of_nil. split; [intros []|]. intros (i & m & Hm & _).
    destruct i; discriminate Hm.
  - cbn [matching]. rewrite elem_of_app, IH. split.
    + intros [Hhere|(i & m' & Hm' & -> & -> & Hmatch)].
      * destruct (matches search start m) as [[]|] eqn:E;
          try (apply elem_of_nil in Hhere; destruct Hhere).
        apply list_elem_of_singleton in Hhere. injection Hhere as -> ->.
        exists 0, m. splits; auto. lia.
      * exists (S i), m'. splits; auto; lia.
    + intros ([|i] & m' & Hm' & -> & -> & Hmatch).
      * left. injection Hm' as <-.
        replace (start + N.of_nat 0)%N with start in Hmatch by lia.
        rewrite Hmatch. replace (start + N.of_nat 0)%N with start by lia.
        rewrite Nat.add_0_r. apply list_elem_of_singleton. reflexivity.
      * right. exists i, m'. splits; auto; lia.
Qed.

End facts.
End MoreSessionExtraFacts.

Module MoreSessionExtras.
Import BaseSession SessionFacts SessionReading SessionExtraFacts.
Import SessionInterfaces MoreSession MoreSessionFacts MoreSessionExtraFacts.

Section extras.
Context {B Mbx Snapshot Criteria : Type}.
Context `{!Backend B Mbx} `{!MailboxSet B Mbx Snapshot} `{!SearchEngine Criteria}.

Implicit Types (w : World B Mbx).

#[local] Existing Instances M_bind M_ret.

Local Abbreviation M := (@BaseSession.M B Mbx).

(** X16.  A successful SELECT of a writable mailbox makes a new writable
    view whose recent set is exactly the UIDs of the messages that carried
    the recent bit.  Every message of the mailbox is loaded with the bit
    cleared, and [save_flags] is called once, with the messages that were
    recent, in the order of the mailbox.  Nothing is added or deleted and
    no update event is set. *)
Theorem select_takes_the_recent_bits name readonly w snapshot sel' w' mbx b1 :
  be_get_mailbox name false (backend w) = (Ok mbx, b1) ->
  readonly || be_readonly mbx b1 = false ->
  select_mailbox name readonly w = (Ok (snapshot, sel'), w') ->
  exists msgs b3 v' evs,
    be_messages mbx (be_register mbx (length (views w)) b1) = (Ok msgs, b3) /\
    sel' = Some (length (views w)) /\
    views w' = views w ++ [v'] /\
    SelectedMailbox.readonly v' = false /\
    SessionFlags.recent (SelectedMailbox.session_flags v') =
      list_to_set (recent_uids msgs) /\
    loaded w' = loaded w ++ map (set_recent false) msgs /\
    trace w' = trace w ++ evs /\
    saves evs = [(mbx, map SaveMessage
                         (map (set_recent false) (List.filter Message.recent msgs)))] /\
    signals evs = [] /\
    adds evs = [] /\
    deletes evs = [].
Proof.
  intros Hget Hro H.
  apply select_mailbox_Ok in H as (mbx' & b1' & Hget' & H).
  rewrite Hget in Hget'. injection Hget' as <- <-.
  cbv zeta in H. rewrite Hro in H.
  destruct H as (msgs & b3 & b4 & b5 & Hmsgs & Hsave & Hsnap & Hload).
  apply load_updates_Ok in Hload
    as (-> & post & f & Htr & Hpost & Hb & Hl & Hf & Hvs).
  pose proof (refresh_deletes_nothing _ Hpost) as Hd.
  apply refresh_quiet in Hpost as (Hs1 & Hs2 & Hs3 & Hs4 & Hs5).
  cbn [backend views loaded trace] in *.
  rewrite alter_last in Hvs.
  set (v0 := with_recent (recent_uids msgs)
               (SelectedMailbox_new name false (be_permanent_flags mbx b1)
                                    (be_session_flags mbx b1))) in *.
  destruct (Hf v0) as (_ & Hfro & _ & Hfsf).
  exists msgs, b3, (f v0),
    (EvGetMailbox name false (Ok mbx)
     :: EvSaveFlags mbx (map SaveMessage
                           (map (set_recent false) (List.filter Message.recent msgs)))
                    (Ok tt) :: post).
  splits.
  - exact Hmsgs.
  - reflexivity.
  - exact Hvs.
  - rewrite Hfro. reflexivity.
  - rewrite Hfsf. unfold v0. rewrite recent_with_recent. cbn.
    apply union_empty_l_L.
  - exact Hl.
  - rewrite Htr, <- !app_assoc. reflexivity.
  - cbn [saves omap list_omap]. unfold saves in Hs4. rewrite Hs4. reflexivity.
  - exact Hs1.
  - exact Hs2.
  - exact Hd.
Qed.

(** X17.  A successful SELECT that is read-only, by request or because the
    mailbox is, makes a read-only view that owns no recent bit and holds no
    session flag.  No message is read and no call on the backend mutates:
    the recent bits stay with the mailbox. *)
Theorem examine_takes_nothing name readonly w snapshot sel' w' mbx b1 :
  be_get_mailbox name false (backend w) = (Ok mbx, b1) ->
  readonly || be_readonly mbx b1 = true ->
  select_mailbox name readonly w = (Ok (snapshot, sel'), w') ->
  exists b3 v' evs,
    be_snapshot mbx (be_register mbx (length (views w)) b1) = (Ok snapshot, b3) /\
    sel' = Some (length (views w)) /\
    views w' = views w ++ [v'] /\
    SelectedMailbox.readonly v' = true /\
    SelectedMailbox.session_flags v' = SessionFlags.mk ∅ ∅ /\
    loaded w' = loaded w /\
    trace w' = trace w ++ evs /\
    Forall (fun ev => is_mutation ev = false) evs /\
    signals evs = [].
Proof.
  intros Hget Hro H.
  apply select_mailbox_Ok in H as (mbx' & b1' & Hget' & H).
  rewrite Hget in Hget'. injection Hget' as <- <-.
  cbv zeta in H. rewrite Hro in H.
  destruct H as (b3 & Hsnap & Hload).
  apply load_updates_Ok in Hload
    as (-> & post & f & Htr & Hpost & Hb & Hl & Hf & Hvs).
  apply refresh_quiet in Hpost as (Hs1 & Hs2 & Hs3 & Hs4 & Hs5).
  cbn [backend views loaded trace] in *.
  rewrite alter_last in Hvs.
  set (v0 := SelectedMailbox_new name true (be_permanent_flags mbx b1)
                                 (be_session_flags mbx b1)) in *.
  destruct (Hf v0) as (_ & Hfro & _ & Hfsf).
  exists b3, (f v0), (EvGetMailbox name false (Ok mbx) :: post).
  splits.
  - exact Hsnap.
  - reflexivity.
  - exact Hvs.
  - rewrite Hfro. reflexivity.
  - rewrite Hfsf. reflexivity.
  - exact Hl.
  - rewrite Htr, <- !app_assoc. reflexivity.
  - constructor; [reflexivity|exact Hs5].
  - exact Hs1.
Qed.

(** X18.  A successful SEARCH builds its criteria with the number of
    messages and the next UID less one of the view's own snapshot, and
    returns exactly the messages of the mailbox that match, each with its
    sequence number counted from 1 in the order of [messages()].  Every
    message is loaded; the session flags of the view are kept, no call on
    the backend mutates and no update event is set. *)
Theorem search_only_reads sel keys w ret sel' w' :
  search_mailbox sel keys w = (Ok (ret, sel'), w') ->
  exists v mbx b1 search msgs b2 v' evs,
    views w !! sel = Some v /\
    be_get_mailbox (SelectedMailbox.name v) false (backend w) = (Ok mbx, b1) /\
    SearchCriteriaSet keys
      (mkSearchParams v (snapshot_exists v) (snapshot_next_uid v - 1)) = Ok search /\
    be_messages mbx b1 = (Ok msgs, b2) /\
    ret = matching search 1 (length (loaded w)) msgs /\
    (forall seq r,
       (seq, r) ∈ ret <->
       exists i m,
         msgs !! i = Some m /\ seq = (1 + N.of_nat i)%N /\ r = length (loaded w) + i /\
         matches search seq m = Ok true) /\
    loaded w' = loaded w ++ msgs /\
    views w' !! sel = Some v' /\
    SelectedMailbox.session_flags v' = SelectedMailbox.session_flags v /\
    trace w' = trace w ++ evs /\
    Forall (fun ev => is_mutation ev = false) evs /\
    signals evs = [].
Proof.
  intros H.
  apply search_mailbox_Ok in H
    as (v & mbx & b1 & search & msgs & b2 & Hv & Hget & Hsearch & Hmsgs & -> & Hload).
  apply load_updates_Ok in Hload
    as (_ & post & f & Htr & Hpost & Hb & Hl & Hf & Hvs).
  apply refresh_quiet in Hpost as (Hs1 & Hs2 & Hs3 & Hs4 & Hs5).
  cbn [backend views loaded trace] in *.
  destruct (Hf v) as (_ & _ & _ & Hfsf).
  exists v, mbx, b1, search, msgs, b2, (f v),
    (EvGetMailbox (SelectedMailbox.name v) false (Ok mbx) :: post).
  splits.
  - exact Hv.
  - exact Hget.
  - exact Hsearch.
  - exact Hmsgs.
  - reflexivity.
  - intros seq r. apply elem_of_matching.
  - exact Hl.
  - rewrite Hvs, list_lookup_alter_eq, Hv. reflexivity.
  - exact Hfsf.
  - rewrite Htr, <- !app_assoc. reflexivity.
  - constructor; [reflexivity|exact Hs5].
  - exact Hs1.
Qed.

(** X19.  CHECK resolves the mailbox, cleans up when housekeeping is asked
    for, and refreshes.  With an event to wait on it waits first: a wait
    that ends, by itself or with [TimeoutError], is followed by the
    refresh; any other exception of the wait is raised, with no refresh. *)
Theorem check_swallows_timeout sel v mbx b1 housekeeping w :
  views w !! sel = Some v ->
  be_get_mailbox (SelectedMailbox.name v) false (backend w) = (Ok mbx, b1) ->
  (housekeeping = true -> (be_cleanup mbx b1).1 = Ok tt) ->
  let b2 := if housekeeping then (be_cleanup mbx b1).2 else b1 in
  let after b := mkWorld b (views w) (loaded w)
                   (trace w ++ [EvGetMailbox (SelectedMailbox.name v) false (Ok mbx)]) in
  check_mailbox sel None housekeeping w =
    _load_updates (Some sel) (Some mbx) (after b2) /\
  forall wait_on r b3,
    be_wait mbx wait_on b2 = (r, b3) ->
    check_mailbox sel (Some wait_on) housekeeping w =
      match r with
      | Ok _ => _load_updates (Some sel) (Some mbx) (after b3)
      | Raise e =>
          if is_TimeoutError e
          then _load_updates (Some sel) (Some mbx) (after b3)
          else (Raise e, after b3)
      end.
Proof.
  intros Hv Hget Hclean b2 after.
  assert (Hstart : forall wait_on,
    check_mailbox sel wait_on housekeeping w =
    (match wait_on with
     | Some wait_on => _wait_for_updates mbx wait_on
     | None => mret tt
     end ≫= fun _ => _load_updates (Some sel) (Some mbx)) (after b2)).
  { intros wait_on. unfold check_mailbox.
    unfold mbind at 1. unfold M_bind at 1. rewrite (view_lookup _ _ _ Hv).
    unfold mbind at 1. unfold M_bind at 1. unfold get_mailbox, call. rewrite Hget.
    unfold mbind at 1. unfold M_bind at 1.
    subst b2. destruct housekeeping.
    - unfold run. cbn [backend views loaded trace].
      specialize (Hclean eq_refl).
      destruct (be_cleanup mbx b1) as [r b]. cbn in Hclean. subst r. reflexivity.
    - reflexivity. }
  split.
  - rewrite Hstart. reflexivity.
  - intros wait_on r b3 Hwait. rewrite Hstart.
    unfold mbind, M_bind, _wait_for_updates, try_except, run. subst after.
    cbn [backend views loaded trace]. rewrite Hwait.
    destruct r as [[]|e]; [reflexivity|].
    destruct (is_TimeoutError e); reflexivity.
Qed.

(** X20.  DELETE and RENAME refresh without a mailbox at hand, so the view
    is resolved again by its name: when the name is gone after the
    operation, the command succeeds and returns the view marked as deleted.
    When the backend refuses the operation, its exception is raised and no
    refresh takes place. *)
Theorem selected_mailbox_gone_is_a_tombstone sel v w :
  views w !! sel = Some v ->
  let tombstone b gone :=
    (Ok (Some sel),
     mkWorld b (alter SelectedMailbox.set_deleted sel (views w)) (loaded w)
             (trace w ++ [EvGetMailbox (SelectedMailbox.name v) false
                                       (Raise (MailboxNotFound gone))])) in
  (forall name b1 gone b2,
     be_delete_mailbox name (backend w) = (Ok tt, b1) ->
     be_get_mailbox (SelectedMailbox.name v) false b1 =
       (Raise (MailboxNotFound gone), b2) ->
     delete_mailbox name (Some sel) w = tombstone b2 gone) /\
  (forall before_name after_name b1 gone b2,
     be_rename_mailbox before_name after_name (backend w) = (Ok tt, b1) ->
     be_get_mailbox (SelectedMailbox.name v) false b1 =
       (Raise (MailboxNotFound gone), b2) ->
     rename_mailbox before_name after_name (Some sel) w = tombstone b2 gone) /\
  (forall name e b1,
     be_delete_mailbox name (backend w) = (Raise e, b1) ->
     delete_mailbox name (Some sel) w =
       (Raise e, mkWorld b1 (views w) (loaded w) (trace w))) /\
  (forall before_name after_name e b1,
     be_rename_mailbox before_name after_name (backend w) = (Raise e, b1) ->
     rename_mailbox before_name after_name (Some sel) w =
       (Raise e, mkWorld b1 (views w) (loaded w) (trace w))).
Proof.
  intros Hv tombstone.
  assert (Hgone : forall (operation : B -> result unit * B) b1 gone b2,
    operation (backend w) = (Ok tt, b1) ->
    be_get_mailbox (SelectedMailbox.name v) false b1 =
      (Raise (MailboxNotFound gone), b2) ->
    (run operation ≫= fun _ => _load_updates (Some sel) None) w = tombstone b2 gone).
  { intros operation b1 gone b2 Hop Hget.
    unfold mbind at 1. unfold M_bind at 1. unfold run. rewrite Hop.
    rewrite (load_updates_unknown sel v None) by (try exact Hv; exact I).
    cbn [backend views loaded trace]. rewrite Hget. reflexivity. }
  assert (Hfail : forall (operation : B -> result unit * B) e b1,
    operation (backend w) = (Raise e, b1) ->
    (run operation ≫= fun _ => _load_updates (Some sel) None) w =
      (Raise e, mkWorld b1 (views w) (loaded w) (trace w))).
  { intros operation e b1 Hop. unfold mbind, M_bind, run. rewrite Hop. reflexivity. }
  splits.
  - intros name b1 gone b2. apply Hgone.
  - intros before_name after_name b1 gone b2. apply Hgone.
  - intros name e b1. apply Hfail.
  - intros before_name after_name e b1. apply Hfail.
Qed.

(** X21.  SUBSCRIBE and UNSUBSCRIBE resolve [INBOX] before anything else.
    If that fails the exception is raised and the subscriptions are not
    touched; otherwise [set_subscribed] is called with the name, which is
    never resolved itself, and the refresh runs against [INBOX]. *)
Theorem subscribe_resolves_INBOX_first name selected w :
  (forall e b,
     be_get_mailbox "INBOX" false (backend w) = (Raise e, b) ->
     let w1 := mkWorld b (views w) (loaded w)
                       (trace w ++ [EvGetMailbox "INBOX" false (Raise e)]) in
     subscribe name selected w = (Raise e, w1) /\
     unsubscribe name selected w = (Raise e, w1)) /\
  (forall mbx b1 subscribed b2,
     be_get_mailbox "INBOX" false (backend w) = (Ok mbx, b1) ->
     be_set_subscribed name subscribed b1 = (Ok tt, b2) ->
     (if subscribed then subscribe else unsubscribe) name selected w =
       _load_updates selected (Some mbx)
         (mkWorld b2 (views w) (loaded w)
                  (trace w ++ [EvGetMailbox "INBOX" false (Ok mbx)]))).
Proof.
  split.
  - intros e b Hget w1. split.
    + unfold subscribe, mbind, M_bind, get_mailbox, call. rewrite Hget. reflexivity.
    + unfold unsubscribe, mbind, M_bind, get_mailbox, call. rewrite Hget. reflexivity.
  - intros mbx b1 subscribed b2 Hget Hset. destruct subscribed.
    + unfold subscribe, mbind, M_bind, get_mailbox, call, run. rewrite Hget.
      cbn [backend views loaded trace]. rewrite Hset. reflexivity.
    + unfold unsubscribe, mbind, M_bind, get_mailbox, call, run. rewrite Hget.
      cbn [backend views loaded trace]. rewrite Hset. reflexivity.
Qed.

End extras.
End MoreSessionExtras.

Module MoreSessionExamples.
Import BaseSession SessionFacts SessionReading MoreSession MoreSessionExtras.
Import SessionExamples SessionInterfaces DictMailboxSet.

Lemma select_takes_the_recent_bits_witness :
  (select_mailbox "INBOX" false world).1 = Ok (mkMailboxSnapshot 3 4, Some 1) /\
  exists v' evs,
    views (select_mailbox "INBOX" false world).2 = views world ++ [v'] /\
    SessionFlags.recent (SelectedMailbox.session_flags v') = list_to_set [2%N; 3%N] /\
    loaded (select_mailbox "INBOX" false world).2 =
      [Message.mk 1 {[Seen]} false "one"%bytes;
       Message.mk 2 ∅ false "two"%bytes;
       Message.mk 3 {[Deleted]} false "three"%bytes] /\
    trace (select_mailbox "INBOX" false world).2 = trace world ++ evs /\
    saves evs = [("INBOX"%string,
                  [SaveMessage (Message.mk 2 ∅ false "two"%bytes);
                   SaveMessage (Message.mk 3 {[Deleted]} false "three"%bytes)])] /\
    signals evs = [].
Proof.
  assert (Hrun : (select_mailbox "INBOX" false world).1 =
                 Ok (mkMailboxSnapshot 3 4, Some 1)).
  { vm_cast_no_check (eq_refl (Ok (mkMailboxSnapshot 3 4, Some 1))). }
  split; [exact Hrun|].
  assert (Hget : be_get_mailbox "INBOX" false (backend world) =
                 (Ok "INBOX"%string, backend world)) by reflexivity.
  destruct (select_takes_the_recent_bits "INBOX" false world _ _ _ _ _
              Hget eq_refl (outcome_eq _ _ Hrun))
    as (msgs & b3 & v' & evs & Hmsgs & _ & Hvs & _ & Hrecent & Hl & Htr & Hsaves & Hsig & _).
  injection Hmsgs as <- _.
  exists v', evs. splits; assumption.
Defined.

Lemma examine_takes_nothing_witness :
  (select_mailbox "Archive" false world).1 = Ok (mkMailboxSnapshot 1 2, Some 1) /\
  exists v' evs,
    views (select_mailbox "Archive" false world).2 = views world ++ [v'] /\
    SelectedMailbox.readonly v' = true /\
    SelectedMailbox.session_flags v' = SessionFlags.mk ∅ ∅ /\
    loaded (select_mailbox "Archive" false world).2 = loaded world /\
    trace (select_mailbox "Archive" false world).2 = trace world ++ evs /\
    Forall (fun ev => is_mutation ev = false) evs.
Proof.
  assert (Hrun : (select_mailbox "Archive" false world).1 =
                 Ok (mkMailboxSnapshot 1 2, Some 1)).
  { vm_cast_no_check (eq_refl (Ok (mkMailboxSnapshot 1 2, Some 1))). }
  split; [exact Hrun|].
  assert (Hget : be_get_mailbox "Archive" false (backend world) =
                 (Ok "Archive"%string, backend world)) by reflexivity.
  destruct (examine_takes_nothing "Archive" false world _ _ _ _ _
              Hget eq_refl (outcome_eq _ _ Hrun))
    as (b3 & v' & evs & _ & _ & Hvs & Hro & Hsf & Hl & Htr & Hevs & _).
  exists v', evs. splits; assumption.
Defined.

Lemma search_only_reads_witness :
  (search_mailbox 0 [SearchKey.mk "SEEN"%bytes SearchKey.FNone true] world).1 =
    Ok ([(2%N, 1); (3%N, 2)], Some 0) /\
  exists evs,
    loaded (search_mailbox 0 [SearchKey.mk "SEEN"%bytes SearchKey.FNone true] world).2 =
      DictBackend.messages inbox /\
    trace (search_mailbox 0 [SearchKey.mk "SEEN"%bytes SearchKey.FNone true] world).2 =
      trace world ++ evs /\
    Forall (fun ev => is_mutation ev = false) evs /\
    signals evs = [].
Proof.
  assert (Hrun : (search_mailbox 0 [SearchKey.mk "SEEN"%bytes SearchKey.FNone true]
                    world).1 = Ok ([(2%N, 1); (3%N, 2)], Some 0)).
  { vm_cast_no_check (eq_refl (Ok ([(2%N, 1); (3%N, 2)], Some 0))). }
  split; [exact Hrun|].
  destruct (search_only_reads 0 [SearchKey.mk "SEEN"%bytes SearchKey.FNone true] world
              _ _ _ (outcome_eq _ _ Hrun))
    as (v & mbx & b1 & search & msgs & b2 & v' & evs & Hv & Hget & _ & Hmsgs & _ & _
        & Hl & _ & _ & Htr & Hevs & Hsig).
  injection Hv as <-. injection Hget as <- <-. injection Hmsgs as <- _.
  exists evs. splits; assumption.
Defined.

Lemma check_swallows_timeout_witness :
  check_mailbox 0 (Some 5) true world =
    _load_updates (Some 0) (Some "INBOX"%string)
      (mkWorld (backend world) (views world) (loaded world)
               [EvGetMailbox "INBOX" false (Ok "INBOX"%string)]) /\
  (check_mailbox 0 (Some 5) true world).1 = Ok (Some 0).
Proof.
  assert (Hget : be_get_mailbox "INBOX" false (backend world) =
                 (Ok "INBOX"%string, backend world)) by reflexivity.
  assert (Hclean : (be_cleanup "INBOX"%string (backend world)).1 = Ok tt) by reflexivity.
  destruct (check_swallows_timeout 0 DictBackend.view0 "INBOX" (backend world) true world
              eq_refl Hget (fun _ => Hclean)) as [_ Hwait].
  split.
  - apply (Hwait 5 (Raise TimeoutError) (backend world)). reflexivity.
  - vm_cast_no_check (eq_refl (Ok (Some 0) : result (option nat))).
Defined.

Lemma selected_mailbox_gone_is_a_tombstone_witness :
  (exists b,
     MoreSession.delete_mailbox "INBOX" (Some 0) world =
       (Ok (Some 0),
        mkWorld b (alter SelectedMailbox.set_deleted 0 (views world)) (loaded world)
                [EvGetMailbox "INBOX" false (Raise (MailboxNotFound "INBOX"))])) /\
  (exists b,
     MoreSession.rename_mailbox "INBOX" "Old" (Some 0) world =
       (Ok (Some 0),
        mkWorld b (alter SelectedMailbox.set_deleted 0 (views world)) (loaded world)
                [EvGetMailbox "INBOX" false (Raise (MailboxNotFound "INBOX"))])) /\
  MoreSession.delete_mailbox "Gone" (Some 0) world =
    (Raise (MailboxNotFound "Gone"), world).
Proof.
  destruct (selected_mailbox_gone_is_a_tombstone 0 DictBackend.view0 world eq_refl)
    as (Hdelete & Hrename & Hfail & _).
  split; [|split].
  - eexists. eapply (Hdelete "INBOX" _ "INBOX"); reflexivity.
  - eexists. eapply (Hrename "INBOX" "Old" _ "INBOX"); reflexivity.
  - apply (Hfail "Gone" (MailboxNotFound "Gone") (backend world)). reflexivity.
Defined.

Lemma subscribe_resolves_INBOX_first_witness :
  MoreSession.subscribe "Archive" None (mkWorld (mkStore ∅ ∅) [] [] []) =
    (Raise (MailboxNotFound "INBOX"),
     mkWorld (mkStore ∅ ∅) [] []
             [EvGetMailbox "INBOX" false (Raise (MailboxNotFound "INBOX"))]) /\
  MoreSession.subscribe "Archive" (Some 0) world =
    _load_updates (Some 0) (Some "INBOX"%string)
      (mkWorld (mkStore (boxes store) {["Archive"%string]}) (views world) (loaded world)
               [EvGetMailbox "INBOX" false (Ok "INBOX"%string)]).
Proof.
  split.
  - destruct (subscribe_resolves_INBOX_first "Archive" None
                (mkWorld (mkStore ∅ ∅) [] [] [])) as [Hmissing _].
    apply (Hmissing (MailboxNotFound "INBOX") (mkStore ∅ ∅)). reflexivity.
  - destruct (subscribe_resolves_INBOX_first "Archive" (Some 0) world) as [_ Hfound].
    apply (Hfound "INBOX"%string (backend world) true
             (mkStore (boxes store) {["Archive"%string]})).
    + reflexivity.
    + vm_cast_no_check
        (eq_refl (Ok tt : result unit, mkStore (boxes store) {["Archive"%string]})).
Defined.

End MoreSessionExamples.

(** * Properties of the Sieve runner *)

Module SieveRunnerFacts.
Import SieveRunner.

Section facts.
Context {Test Content : Type}.
Context (SieveTest_run : Test -> string -> string -> AppendMessage -> Content -> ran bool).
Context (sender recipient : string) (append_msg : AppendMessage) (content : Content).

Local Abbreviation Command := (@Command Test).
Local Abbreviation run_command :=
  (run_command SieveTest_run sender recipient append_msg content).
Local Abbreviation run_commands :=
  (run_commands SieveTest_run sender recipient append_msg content).
Local Abbreviation _get_actions :=
  (_get_actions SieveTest_run sender recipient append_msg content).
Local Abbreviation appends := (SieveRunner.appends (Test:=Test)).

Lemma Command_induction (Q : Command -> Prop) :
  (forall cmd_type cmd_name cmd_test cmd_children,
     Forall Q cmd_children -> Q (mkCommand cmd_type cmd_name cmd_test cmd_children)) ->
  forall cmd, Q cmd.
Proof.
  intros H. fix IH 1. intros [cmd_type cmd_name cmd_test cmd_children]. apply H.
  induction cmd_children as [|c cs IHcs]; constructor; [apply IH|exact IHcs].
Qed.

(** A round of the loop, with the runner of the children named. *)
Lemma run_command_eq cmd_type cmd_name cmd_test cmd_children running_if actions :
  run_command (mkCommand cmd_type cmd_name cmd_test cmd_children) running_if actions =
    let cmd := mkCommand cmd_type cmd_name cmd_test cmd_children in
    let first :=
      if bool_decide (cmd_type = "action"%string)
      then Returns (running_if, actions ++ [cmd])
      else if bool_decide (cmd_type = "control"%string)
      then
        if bool_decide (cmd_name = "if"%string) then Returns (Some cmd, actions)
        else if bool_decide (cmd_name ∈ ["elsif"; "else"]%string)
        then Returns (running_if, actions)
        else if bool_decide (cmd_name = "stop"%string) then Raises StopRunning
        else if bool_decide (cmd_name = "require"%string)
        then Returns (running_if, actions)
        else Raises (NotImplementedError cmd_name)
      else Raises (NotImplementedError cmd_type) in
    let run_children actions :=
      match run_commands cmd_children None actions with
      | (Returns _, actions) => (Returns None, actions)
      | (Raises e, actions) => (Raises e, actions)
      end in
    match first with
    | Raises e => (Raises e, actions)
    | Returns (running_if, actions) =>
        match running_if with
        | None => (Returns running_if, actions)
        | Some _ =>
            if bool_decide (cmd_name ∈ ["if"; "elsif"]%string)
            then
              match cmd_test with
              | None => (Raises (KeyError "test"), actions)
              | Some test =>
                  match SieveTest_run test sender recipient append_msg content with
                  | Raises e => (Raises e, actions)
                  | Returns test_result =>
                      if negb test_result then (Returns running_if, actions)
                      else run_children actions
                  end
              end
            else if bool_decide (cmd_name = "else"%string)
            then run_children actions
            else (Returns None, actions)
        end
    end.
Proof. reflexivity. Qed.

Lemma run_commands_app commands1 commands2 running_if actions :
  run_commands (commands1 ++ commands2) running_if actions =
  match run_commands commands1 running_if actions with
  | (Returns running_if, actions) => run_commands commands2 running_if actions
  | (Raises e, actions) => (Raises e, actions)
  end.
Proof.
  revert running_if actions.
  induction commands1 as [|cmd commands1 IH]; intros running_if actions; [reflexivity|].
  cbn [app SieveRunner.run_commands].
  destruct (run_command cmd running_if actions) as [[running_if'|e] actions'];
    [apply IH|reflexivity].
Qed.

Lemma appends_nothing {A} (r : ran A) among : appends (fun actions => (r, actions)) among.
Proof.
  exists r, []. split; [apply sublist_nil_l|].
  intros actions. rewrite app_nil_r. reflexivity.
Qed.

Lemma run_commands_appends commands :
  Forall (fun cmd => forall running_if,
            appends (run_command cmd running_if) (actions_of cmd)) commands ->
  forall running_if,
    appends (run_commands commands running_if) (flat_map actions_of commands).
Proof.
  induction 1 as [|cmd commands Hcmd _ IH]; intros running_if.
  - apply appends_nothing.
  - destruct (Hcmd running_if) as (r0 & new0 & Hsub0 & Hrun0).
    destruct r0 as [running_if'|e].
    + destruct (IH running_if') as (r1 & new1 & Hsub1 & Hrun1).
      exists r1, (new0 ++ new1). split; [apply sublist_app; assumption|].
      intros actions. cbn [SieveRunner.run_commands].
      rewrite Hrun0, Hrun1, <- app_assoc. reflexivity.
    + exists (Raises e), new0. split.
      * cbn [flat_map]. apply sublist_inserts_r. exact Hsub0.
      * intros actions. cbn [SieveRunner.run_commands]. rewrite Hrun0. reflexivity.
Qed.

Lemma run_command_appends cmd running_if :
  appends (run_command cmd running_if) (actions_of cmd).
Proof.
  revert running_if.
  induction cmd as [cmd_type cmd_name cmd_test cmd_children IH] using Command_induction.
  intros running_if.
  destruct (run_commands_appends _ IH None) as (rc & newc & Hsub & Hchildren).
  set (cmd := mkCommand cmd_type cmd_name cmd_test cmd_children).
  (* the second half of the round, once [first] has returned *)
  assert (Hafter : forall (rif : option Command) (pre : list Command),
    sublist pre (if bool_decide (cmd_type = "action"%string) then [cmd] else []) ->
    exists (r : ran (option Command)) new,
      sublist new (actions_of cmd) /\
      forall actions,
        match rif with
        | None => (Returns rif, actions ++ pre)
        | Some _ =>
            if bool_decide (cmd_name ∈ ["if"; "elsif"]%string)
            then
              match cmd_test with
              | None => (Raises (KeyError "test"), actions ++ pre)
              | Some test =>
                  match SieveTest_run test sender recipient append_msg content with
                  | Raises e => (Raises e, actions ++ pre)
                  | Returns test_result =>
                      if negb test_result then (Returns rif, actions ++ pre)
                      else
                        match run_commands cmd_children None (actions ++ pre) with
                        | (Returns _, actions) => (Returns None, actions)
                        | (Raises e, actions) => (Raises e, actions)
                        end
                  end
              end
            else if bool_decide (cmd_name = "else"%string)
            then
              match run_commands cmd_children None (actions ++ pre) with
              | (Returns _, actions) => (Returns None, actions)
              | (Raises e, actions) => (Raises e, actions)
              end
            else (Returns None, actions ++ pre)
        end = (r, actions ++ new)).
  { intros rif pre Hpre.
    assert (Hstay : forall r : ran (option Command),
      exists r' new, sublist new (actions_of cmd) /\
        forall actions : list Command, (r, actions ++ pre) = (r', actions ++ new)).
    { intros r. exists r, pre. split; [|reflexivity].
      cbn [actions_of cmd]. apply sublist_inserts_r. exact Hpre. }
    assert (Hblock :
      exists (r' : ran (option Command)) new, sublist new (actions_of cmd) /\
        forall actions : list Command,
          match run_commands cmd_children None (actions ++ pre) with
          | (Returns _, actions) => (Returns None, actions)
          | (Raises e, actions) => (Raises e, actions)
          end = (r', actions ++ new)).
    { exists (match rc with Returns _ => Returns None | Raises e => Raises e end),
        (pre ++ newc).
      split.
      - cbn [actions_of cmd]. apply sublist_app; assumption.
      - intros actions. rewrite Hchildren, <- app_assoc. destruct rc; reflexivity. }
    destruct rif as [c|]; [|apply Hstay].
    destruct (bool_decide (cmd_name ∈ ["if"; "elsif"]%string)).
    - destruct cmd_test as [t|]; [|apply Hstay].
      destruct (SieveTest_run t sender recipient append_msg content) as [[]|e];
        cbn [negb]; [exact Hblock|apply Hstay|apply Hstay].
    - destruct (bool_decide (cmd_name = "else"%string)); [exact Hblock|apply Hstay]. }
  assert (Hquiet : forall (rif : option Command),
    exists (r : ran (option Command)) new,
      sublist new (actions_of cmd) /\
      forall actions,
        match rif with
        | None => (Returns rif, actions)
        | Some _ =>
            if bool_decide (cmd_name ∈ ["if"; "elsif"]%string)
            then
              match cmd_test with
              | None => (Raises (KeyError "test"), actions)
              | Some test =>
                  match SieveTest_run test sender recipient append_msg content with
                  | Raises e => (Raises e, actions)
                  | Returns test_result =>
                      if negb test_result then (Returns rif, actions)
                      else
                        match run_commands cmd_children None actions with
                        | (Returns _, actions) => (Returns None, actions)
                        | (Raises e, actions) => (Raises e, actions)
                        end
                  end
              end
            else if bool_decide (cmd_name = "else"%string)
            then
              match run_commands cmd_children None actions with
              | (Returns _, actions) => (Returns None, actions)
              | (Raises e, actions) => (Raises e, actions)
              end
            else (Returns None, actions)
        end = (r, actions ++ new)).
  { intros rif. destruct (Hafter rif []) as (r & new & Hnew & Hrun);
      [apply sublist_nil_l|].
    exists r, new. split; [exact Hnew|]. intros actions.
    specialize (Hrun actions). rewrite app_nil_r in Hrun. exact Hrun. }
  unfold appends. subst cmd. setoid_rewrite run_command_eq. cbv zeta.
  destruct (bool_decide (cmd_type = "action"%string)).
  - apply (Hafter running_if [mkCommand cmd_type cmd_name cmd_test cmd_children]).
    reflexivity.
  - destruct (bool_decide (cmd_type = "control"%string));
      [|apply (appends_nothing (Raises (NotImplementedError cmd_type)))].
    destruct (bool_decide (cmd_name = "if"%string));
      [apply (Hquiet (Some (mkCommand cmd_type cmd_name cmd_test cmd_children)))|].
    destruct (bool_decide (cmd_name ∈ ["elsif"; "else"]%string));
      [apply (Hquiet running_if)|].
    destruct (bool_decide (cmd_name = "stop"%string));
      [apply (appends_nothing (Raises StopRunning))|].
    destruct (bool_decide (cmd_name = "require"%string)); [apply (Hquiet running_if)|].
    apply (appends_nothing (Raises (NotImplementedError cmd_name))).
Qed.

End facts.
End SieveRunnerFacts.

Module SieveRunnerExtras.
Import SieveRunner SieveRunnerFacts.

Ltac decide_names :=
  repeat match goal with
  | |- context [bool_decide ?P] =>
      let b := eval vm_compute in (bool_decide P) in
      change (bool_decide P) with b
  end;
  cbv beta iota.

Section extras.
Context {Test Content : Type}.
Context (SieveTest_run : Test -> string -> string -> AppendMessage -> Content -> ran bool).
Context (MessageContent_parse : bytes -> ran Content).
Context (sender recipient : string) (append_msg : AppendMessage) (content : Content).

Local Abbreviation Command := (@Command Test).
Local Abbreviation run_commands :=
  (run_commands SieveTest_run sender recipient append_msg content).
Local Abbreviation _get_actions :=
  (_get_actions SieveTest_run sender recipient append_msg content).
Local Abbreviation get_actions := (get_actions SieveTest_run MessageContent_parse).

(** X22.  Whatever the script, the tests and the outcome, [_get_actions]
    only appends to the list it is given, and what it appends does not
    depend on what the list held.  The commands appended are actions of the
    script, blocks included, in the order of its text and each at most
    once. *)
Theorem actions_are_appended_in_script_order (commands : list Command) :
  exists r new,
    sublist new (flat_map actions_of commands) /\
    forall actions, _get_actions commands actions = (r, actions ++ new).
Proof.
  assert (Hall : Forall (fun cmd => forall running_if,
            appends (SieveRunner.run_command SieveTest_run sender recipient append_msg
                       content cmd running_if) (actions_of cmd)) commands).
  { apply Forall_forall. intros cmd _ running_if. apply run_command_appends. }
  destruct (run_commands_appends SieveTest_run sender recipient append_msg content
              commands Hall None) as (r & new & Hsub & Hrun).
  exists (match r with Returns _ => Returns tt | Raises e => Raises e end), new.
  split; [exact Hsub|].
  intros actions. unfold SieveRunner._get_actions. rewrite Hrun.
  destruct r; reflexivity.
Qed.

(** X23.  A [stop] at the top level of a script ends the run: whatever
    follows it, [get_actions] gives what the commands before it give.
    [StopRunning] never leaves [get_actions]. *)
Theorem nothing_runs_after_stop (commands : list Command) cmd_test cmd_children post :
  get_actions (commands ++ mkCommand "control" "stop" cmd_test cmd_children :: post)
              sender recipient append_msg =
  get_actions commands sender recipient append_msg /\
  get_actions commands sender recipient append_msg <> Raises StopRunning.
Proof.
  unfold SieveRunner.get_actions. cbv zeta.
  destruct (MessageContent_parse (message append_msg)) as [content'|e].
  - unfold SieveRunner._get_actions. rewrite run_commands_app.
    destruct (SieveRunner.run_commands SieveTest_run sender recipient append_msg content'
                commands None []) as [[running_if|e] actions].
    + cbn [SieveRunner.run_commands]. rewrite run_command_eq. cbv zeta.
      decide_names. split; [reflexivity|discriminate].
    + split; [reflexivity|]. destruct e; discriminate.
  - split; [reflexivity|]. destruct e; discriminate.
Qed.

(** X24.  Of a chain [if], [elsif], [else] the runner runs the block of the
    first test that holds, the [else] block when none does, and nothing
    more of the chain; a test that raises ends the run with its exception.
    An [elsif] and an [else] with no [if] before them run nothing. *)
Theorem if_chain_takes_the_first_true_branch
  test1 (block1 : list Command) test2 block2 test3 block3 actions :
  let chain := [mkCommand "control" "if" (Some test1) block1;
                mkCommand "control" "elsif" (Some test2) block2;
                mkCommand "control" "else" test3 block3] in
  let run test := SieveTest_run test sender recipient append_msg content in
  (run test1 = Returns true ->
   _get_actions chain actions = _get_actions block1 actions) /\
  (run test1 = Returns false -> run test2 = Returns true ->
   _get_actions chain actions = _get_actions block2 actions) /\
  (run test1 = Returns false -> run test2 = Returns false ->
   _get_actions chain actions = _get_actions block3 actions) /\
  (forall e, run test1 = Raises e -> _get_actions chain actions = (Raises e, actions)) /\
  (_get_actions [mkCommand "control" "elsif" (Some test2) block2;
                 mkCommand "control" "else" test3 block3] actions =
     (Returns tt, actions)).
Proof.
  intros chain run. subst chain run. unfold SieveRunner._get_actions.
  cbn [SieveRunner.run_commands]. rewrite !run_command_eq. cbv zeta.
  decide_names. splits.
  - intros ->. cbn [negb].
    destruct (run_commands block1 None actions) as [[running_if|e] actions'];
      [|reflexivity].
    rewrite !run_command_eq. cbv zeta. decide_names. reflexivity.
  - intros -> Htest2. cbn [negb].
    rewrite !run_command_eq. cbv zeta. decide_names. rewrite Htest2. cbn [negb].
    destruct (run_commands block2 None actions) as [[running_if|e] actions'];
      [|reflexivity].
    rewrite !run_command_eq. cbv zeta. decide_names. reflexivity.
  - intros -> Htest2. cbn [negb].
    rewrite !run_command_eq. cbv zeta. decide_names. rewrite Htest2. cbn [negb].
    rewrite !run_command_eq. cbv zeta. decide_names.
    destruct (run_commands block3 None actions) as [[running_if|e] actions'];
      reflexivity.
  - intros e ->. reflexivity.
  - reflexivity.
Qed.

End extras.

Lemma if_chain_takes_the_first_true_branch_witness :
  let run (test : bool) (_ _ : string) (_ : AppendMessage) (_ : unit) := Returns test in
  _get_actions run "from" "to" (mkAppendMessage "text"%bytes ∅) tt
    [mkCommand "control" "if" (Some false) [keep];
     mkCommand "control" "elsif" (Some true) [fileinto];
     mkCommand "control" "else" None [discard]] [] =
  (Returns tt, [fileinto]).
Proof.
  intros run.
  destruct (if_chain_takes_the_first_true_branch run "from" "to"
              (mkAppendMessage "text"%bytes ∅) tt false [keep] true [fileinto] None
              [discard] []) as (_ & Hsecond & _).
  rewrite (Hsecond eq_refl eq_refl). reflexivity.
Defined.

End SieveRunnerExtras.
